(** * ctictactoe: the game-state and decision engine of [ctictactoe.c]

    A shallow embedding of the engine part of the program (board, move
    prints, win detection, forced-draw detection, input processing, the
    event loop and the block-or-win strategy) and the properties of its
    specification.

    Conventions of the embedding.
    - C integers are [Z]; the wrap-around of [uint8_t] and [uint16_t] is
      written out with [mod].
    - [GameBoard] is [enum Move board[3][3]]: a record of three rows of three
      cells.  Indexing it outside 0..2 is undefined behaviour in C; the
      model reads [FREE_MOVE] there and ignores the write, and every theorem
      below is about in-range positions.
    - A call of [rand()] is a [Z] argument holding the value it returned;
      a loop that calls it an unbounded number of times takes the list of
      the values still to come.
    - Terminal output and delays are not modelled. *)

From Stdlib Require Import ZArith List Bool Lia.
Import ListNotations.
Local Open Scope Z_scope.

(** ** Basic data *)

(** [struct Vec2]. *)
Record Vec2 : Set := vec2 { vx : Z; vy : Z }.

(** [enum Move]. *)
Inductive Move : Set := FREE_MOVE | X_MOVE | O_MOVE.

(** [enum Actor]. *)
Inductive Actor : Set := NULL_ACTOR | X_ACTOR | O_ACTOR.

(** [enum EndGame]. *)
Inductive EndGame : Set := RUNNING | GAME_DRAW | X_VICTORY | O_VICTORY.

(** [enum GameInput]. *)
Inductive GameInput : Set :=
  QUIT_INPUT | UP_INPUT | DOWN_INPUT | LEFT_INPUT | RIGHT_INPUT | MOVE_INPUT.

Definition Move_eqb (a b : Move) : bool :=
  match a, b with
  | FREE_MOVE, FREE_MOVE | X_MOVE, X_MOVE | O_MOVE, O_MOVE => true
  | _, _ => false
  end.

Definition Actor_eqb (a b : Actor) : bool :=
  match a, b with
  | NULL_ACTOR, NULL_ACTOR | X_ACTOR, X_ACTOR | O_ACTOR, O_ACTOR => true
  | _, _ => false
  end.

Definition EndGame_eqb (a b : EndGame) : bool :=
  match a, b with
  | RUNNING, RUNNING | GAME_DRAW, GAME_DRAW
  | X_VICTORY, X_VICTORY | O_VICTORY, O_VICTORY => true
  | _, _ => false
  end.

(** [#define actor_to_move(a) ((enum Move)a)]: the enumerators have the same
    values in the same order. *)
Definition actor_to_move (a : Actor) : Move :=
  match a with
  | NULL_ACTOR => FREE_MOVE
  | X_ACTOR => X_MOVE
  | O_ACTOR => O_MOVE
  end.

(** [#define opponent_actor(a)]. *)
Definition opponent_actor (a : Actor) : Actor :=
  match a with
  | NULL_ACTOR => NULL_ACTOR
  | X_ACTOR => O_ACTOR
  | O_ACTOR => X_ACTOR
  end.

(** The cast [(enum Actor)n] of [main]. *)
Definition actor_of_Z (n : Z) : Actor :=
  if n =? 1 then X_ACTOR else if n =? 2 then O_ACTOR else NULL_ACTOR.

(** ** The board *)

Record BoardRow : Set := mkRow { c0 : Move; c1 : Move; c2 : Move }.

(** [typedef enum Move GameBoard[3][3]], indexed [board[y][x]]. *)
Record GameBoard : Set := mkBoard { r0 : BoardRow; r1 : BoardRow; r2 : BoardRow }.

Definition row_get (r : BoardRow) (x : Z) : Move :=
  if x =? 0 then c0 r else if x =? 1 then c1 r else if x =? 2 then c2 r
  else FREE_MOVE.

Definition row_set (r : BoardRow) (x : Z) (m : Move) : BoardRow :=
  if x =? 0 then mkRow m (c1 r) (c2 r)
  else if x =? 1 then mkRow (c0 r) m (c2 r)
  else if x =? 2 then mkRow (c0 r) (c1 r) m
  else r.

Definition board_row (b : GameBoard) (y : Z) : BoardRow :=
  if y =? 0 then r0 b else if y =? 1 then r1 b else if y =? 2 then r2 b
  else mkRow FREE_MOVE FREE_MOVE FREE_MOVE.

(** [game_board_cell]. *)
Definition game_board_cell (board : GameBoard) (pos : Vec2) : Move :=
  row_get (board_row board (vy pos)) (vx pos).

(** [set_game_board_cell]. *)
Definition set_game_board_cell (board : GameBoard) (pos : Vec2) (move : Move)
  : GameBoard :=
  let y := vy pos in
  if y =? 0 then mkBoard (row_set (r0 board) (vx pos) move) (r1 board) (r2 board)
  else if y =? 1 then mkBoard (r0 board) (row_set (r1 board) (vx pos) move) (r2 board)
  else if y =? 2 then mkBoard (r0 board) (r1 board) (row_set (r2 board) (vx pos) move)
  else board.

Definition empty_row : BoardRow := mkRow FREE_MOVE FREE_MOVE FREE_MOVE.
Definition empty_board : GameBoard := mkBoard empty_row empty_row empty_row.

(** The index range of both axes. *)
Definition in_range (pos : Vec2) : Prop :=
  0 <= vx pos < 3 /\ 0 <= vy pos < 3.

Definition in_rangeb (pos : Vec2) : bool :=
  (0 <=? vx pos) && (vx pos <? 3) && (0 <=? vy pos) && (vy pos <? 3).

Definition Vec2_eqb (p q : Vec2) : bool :=
  (vx p =? vx q) && (vy p =? vy q).

(** ** Move prints *)

(** [typedef uint16_t MovePrint]. *)
Definition MovePrint := Z.

Definition uint16 (n : Z) : Z := n mod 65536.
Definition uint8 (n : Z) : Z := n mod 256.

(** [match_move_prints]: the constants are octal in the source. *)
Definition match_move_prints : list MovePrint :=
  [ 7; 56; 448;      (* 0007 0070 0700 *)
    73; 146; 292;    (* 0111 0222 0444 *)
    273; 84 ].       (* 0421 0124 *)

(** [match_move_prints[i]]. *)
Definition match_move_print (i : Z) : MovePrint :=
  nth (Z.to_nat i) match_move_prints 0.

(** [edit_move_print]; the result is the new value of [*print]. *)
Definition edit_move_print (print : MovePrint) (pos : Vec2) (bit : bool)
  : MovePrint :=
  let mask := uint16 (Z.shiftl 1 (vy pos * 3 + vx pos)) in
  if bit then uint16 (Z.lor print mask)
  else uint16 (Z.land print (Z.lnot mask)).

(** [move_print_inspec]. *)
Definition move_print_inspec (print : MovePrint) (pos : Vec2) : bool :=
  0 <? Z.land print (Z.shiftl 1 (vy pos * 3 + vx pos)).

(** [struct MovePrintTriplet]. *)
Record MovePrintTriplet : Set :=
  mkTriplet { t_free : MovePrint; t_x : MovePrint; t_o : MovePrint }.

(** The positions in the order in which the two nested loops of
    [get_move_print_triplet] visit them. *)
Definition scan_positions : list Vec2 :=
  flat_map (fun y => map (fun x => vec2 x y) [0; 1; 2]) [0; 1; 2].

(** The body of the loops of [get_move_print_triplet]. *)
Definition triplet_step (board : GameBoard) (triplet : MovePrintTriplet)
  (pos : Vec2) : MovePrintTriplet :=
  match game_board_cell board pos with
  | FREE_MOVE =>
      mkTriplet (edit_move_print (t_free triplet) pos true) (t_x triplet) (t_o triplet)
  | X_MOVE =>
      mkTriplet (t_free triplet) (edit_move_print (t_x triplet) pos true) (t_o triplet)
  | O_MOVE =>
      mkTriplet (t_free triplet) (t_x triplet) (edit_move_print (t_o triplet) pos true)
  end.

(** [get_move_print_triplet]. *)
Definition get_move_print_triplet (board : GameBoard) : MovePrintTriplet :=
  fold_left (triplet_step board) scan_positions (mkTriplet 0 0 0).

(** The loop indices [0 .. n-1]. *)
Definition upto (n : nat) : list Z := map Z.of_nat (seq 0 n).

(** [move_print_count]. *)
Definition move_print_count (print : MovePrint) : Z :=
  fold_left (fun count i => uint8 (count + Z.land (Z.shiftr print i) 1))
    (upto 9) 0.

(** [move_print_coords]: the coordinates written to [coords], in order. *)
Definition move_print_coords (print : MovePrint) : list Vec2 :=
  flat_map (fun i => if Z.land (Z.shiftr print i) 1 =? 0 then []
                     else [vec2 (Z.rem i 3) (Z.quot i 3)])
    (upto 9).

(** [test_move_print_purity]. *)
Definition test_move_print_purity (testing opponent : MovePrint) : bool :=
  Z.lor testing opponent =? testing.

(** [test_move_print_winner_line]. *)
Definition test_move_print_winner_line (testing : MovePrint) (match_index : Z)
  : MovePrint :=
  if Z.land testing (match_move_print match_index) =? match_move_print match_index
  then match_move_print match_index
  else 0.

(** [test_move_print_winner]. *)
Definition test_move_print_winner (testing : MovePrint) : MovePrint :=
  fold_left (fun result i => Z.lor result (test_move_print_winner_line testing i))
    (upto 8) 0.

(** ** The game state *)

(** [struct GameState]. *)
Record GameState : Set := mkState {
  board : GameBoard;
  selection : Vec2;
  turn : Actor;
  moves : Z;          (* uint8_t *)
  endgame : EndGame
}.

Definition set_endgame (state : GameState) (e : EndGame) : GameState :=
  mkState (board state) (selection state) (turn state) (moves state) e.

(** [process_game_input], given the input that the input source returned.
    The C operators [/] and [%] are [Z.quot] and [Z.rem]. *)
Definition process_game_input (state : GameState) (input : GameInput)
  : bool * GameState :=
  match input with
  | QUIT_INPUT => (true, state)
  | UP_INPUT =>
      (false, mkState (board state)
                (vec2 (vx (selection state)) (Z.rem ((vy (selection state) + 3) - 1) 3))
                (turn state) (moves state) (endgame state))
  | DOWN_INPUT =>
      (false, mkState (board state)
                (vec2 (vx (selection state)) (Z.rem (vy (selection state) + 1) 3))
                (turn state) (moves state) (endgame state))
  | LEFT_INPUT =>
      (false, mkState (board state)
                (vec2 (Z.rem ((vx (selection state) + 3) - 1) 3) (vy (selection state)))
                (turn state) (moves state) (endgame state))
  | RIGHT_INPUT =>
      (false, mkState (board state)
                (vec2 (Z.rem (vx (selection state) + 1) 3) (vy (selection state)))
                (turn state) (moves state) (endgame state))
  | MOVE_INPUT =>
      let selection_ := selection state in
      let move_in_cell := game_board_cell (board state) selection_ in
      if Move_eqb move_in_cell FREE_MOVE then
        let move := actor_to_move (turn state) in
        (false, mkState (set_game_board_cell (board state) selection_ move)
                  (selection state)
                  (opponent_actor (turn state))
                  (uint8 (moves state + 1))
                  (endgame state))
      else (false, state)
  end.

(** [calc_min_moves]. *)
Definition calc_min_moves (starter : bool) (moves_ : Z) : Z :=
  let moves_left :=
    if starter then uint8 (5 - (moves_ - (Z.quot moves_ 2)))
    else uint8 (4 - (Z.quot moves_ 2)) in
  let min_moves := uint8 (3 - moves_left) in
  min_moves.

(** The four patterns that [process_game_state] intersects with the moves of
    each side to fill [x_lines] and [o_lines] for the free cell [cell_pos]. *)
Definition cell_match_prints (cell_pos : Vec2) : list MovePrint :=
  [ match_move_print (vy cell_pos);
    match_move_print (vx cell_pos + 3);
    match_move_print 6;
    match_move_print 7 ].

(** The body of the inner loop of [process_game_state]:
    [can_x_win || can_o_win]. *)
Definition line_can_win (x_min_moves o_min_moves : Z) (x_line o_line : MovePrint)
  : bool :=
  let can_x_win := test_move_print_purity x_line o_line
                   && (x_min_moves <=? move_print_count x_line) in
  let can_o_win := test_move_print_purity o_line x_line
                   && (o_min_moves <=? move_print_count o_line) in
  can_x_win || can_o_win.

(** The two nested loops of [process_game_state]; [true] is the jump to
    [KEEP_GAME_RUNNING].  [free_moves_coords] has room for three positions,
    which is enough from six moves on; the list that stands for it here
    holds them all, so the definition is that of the code for free masks of
    three cells at most. *)
Definition keep_game_running (x_moves o_moves free_moves : MovePrint)
  (x_min_moves o_min_moves : Z) : bool :=
  let free_moves_len := move_print_count free_moves in
  let free_moves_coords := move_print_coords free_moves in
  existsb (fun i =>
    let cell_pos := nth (Z.to_nat i) free_moves_coords (vec2 0 0) in
    let x_lines := map (Z.land x_moves) (cell_match_prints cell_pos) in
    let o_lines := map (Z.land o_moves) (cell_match_prints cell_pos) in
    existsb (fun j =>
      line_can_win x_min_moves o_min_moves
        (nth (Z.to_nat j) x_lines 0) (nth (Z.to_nat j) o_lines 0))
      (upto 4))
    (upto (Z.to_nat free_moves_len)).

(** [process_game_state].  The function-local [static] variable
    [game_starter] is passed in and its new value is returned. *)
Definition process_game_state (game_starter : Actor) (state : GameState)
  : Actor * GameState :=
  if moves state =? 0 then (turn state, state)
  else if moves state <? 5 then (game_starter, state)
  else
    let separated_state := get_move_print_triplet (board state) in
    let x_moves := t_x separated_state in
    let o_moves := t_o separated_state in
    let free_moves := t_free separated_state in
    let x_match := test_move_print_winner x_moves in
    let o_match := test_move_print_winner o_moves in
    if negb (x_match =? 0) || negb (o_match =? 0) then
      if negb (x_match =? 0)
      then (game_starter, set_endgame state X_VICTORY)
      else (game_starter, set_endgame state O_VICTORY)
    else if moves state <? 6 then (game_starter, state)
    else
      let is_x_starter := Actor_eqb game_starter X_ACTOR in
      let is_o_starter := Actor_eqb game_starter O_ACTOR in
      let x_min_moves := calc_min_moves is_x_starter (moves state) in
      let o_min_moves := calc_min_moves is_o_starter (moves state) in
      if keep_game_running x_moves o_moves free_moves x_min_moves o_min_moves
      then (game_starter, state)
      else (game_starter, set_endgame state GAME_DRAW).

(** ** Rendering, as far as it touches the game state *)

(** The [do ... while] of [game_board_fill_animation]: draw values of
    [rand()] until one selects a cell not animated yet.  [None] when the
    given values run out first. *)
Fixpoint pick_unanimated (missing_len animated : Z) (rands : list Z)
  : option (Z * list Z) :=
  match rands with
  | [] => None
  | r :: rands' =>
      let selection_ := Z.rem r missing_len in
      if Z.land animated (Z.shiftl 1 selection_) =? 0
      then Some (selection_, rands')
      else pick_unanimated missing_len animated rands'
  end.

(** The [for] loop of [game_board_fill_animation], [n] iterations to go. *)
Fixpoint fill_loop (n : nat) (missing_len : Z) (missing_coords : list Vec2)
  (board_ : GameBoard) (turn_ : Actor) (animated : Z) (rands : list Z)
  : option (GameBoard * list Z) :=
  match n with
  | O => Some (board_, rands)
  | S n' =>
      match pick_unanimated missing_len animated rands with
      | None => None
      | Some (selection_, rands') =>
          fill_loop n' missing_len missing_coords
            (set_game_board_cell board_
               (nth (Z.to_nat selection_) missing_coords (vec2 0 0))
               (actor_to_move turn_))
            (opponent_actor turn_)
            (uint8 (Z.lor animated (Z.shiftl 1 selection_)))
            rands'
      end
  end.

(** [game_board_fill_animation]: the board it leaves behind.
    [missing_coords] has room for three positions; the list that stands for
    it here holds them all, so the definition is that of the code for masks
    of three cells at most, which is what a draw leaves free. *)
Definition game_board_fill_animation (board_ : GameBoard) (turn_ : Actor)
  (missing : MovePrint) (rands : list Z) : option (GameBoard * list Z) :=
  let missing_len := move_print_count missing in
  let missing_coords := move_print_coords missing in
  fill_loop (Z.to_nat missing_len) missing_len missing_coords board_ turn_ 0 rands.

(** [render_game]: [render_game_board] and [animate_board_rendering] only
    read the board and print; the draw case runs the fill animation on
    [state->board] itself. *)
Definition render_game (state : GameState) (rands : list Z)
  : option (GameState * list Z) :=
  let separated_state := get_move_print_triplet (board state) in
  match endgame state with
  | RUNNING => Some (state, rands)
  | GAME_DRAW =>
      match game_board_fill_animation (board state) (turn state)
              (t_free separated_state) rands with
      | None => None
      | Some (board', rands') =>
          Some (mkState board' (selection state) (turn state) (moves state)
                  (endgame state), rands')
      end
  | X_VICTORY => Some (state, rands)
  | O_VICTORY => Some (state, rands)
  end.

(** [game_event_loop], given the input the input source would return and
    the values of [rand()] for the rendering.  The result is the return
    value with the new static variable, game state and unused values. *)
Definition game_event_loop (game_starter : Actor) (state : GameState)
  (rands : list Z) (input : GameInput)
  : option (bool * (Actor * GameState * list Z)) :=
  let '(game_starter', state1) := process_game_state game_starter state in
  match render_game state1 rands with
  | None => None
  | Some (state2, rands') =>
      if negb (EndGame_eqb (endgame state2) RUNNING)
      then Some (false, (game_starter', state2, rands'))
      else
        let '(quit, state3) := process_game_input state2 input in
        Some (negb quit, (game_starter', state3, rands'))
  end.

(** The game state that [main] creates: every field zero but the turn,
    [(rand() % 2) + 1]. *)
Definition initial_state (r : Z) : GameState :=
  mkState empty_board (vec2 0 0) (actor_of_Z (Z.rem r 2 + 1)) 0 RUNNING.

(** ** The block-or-win strategy *)

(** [avarage_ai_is_line_potentially_useless]. *)
Definition avarage_ai_is_line_potentially_useless (my_moves enemy_moves : MovePrint)
  : bool :=
  negb (test_move_print_purity enemy_moves my_moves)
  || (move_print_count enemy_moves =? 0).

(** [avarage_ai_test_winner]. *)
Definition avarage_ai_test_winner (testing opponent : MovePrint) : bool :=
  (move_print_count testing =? 2) && test_move_print_purity testing opponent.

(** [avarage_ai_see_missing_moves]. *)
Definition avarage_ai_see_missing_moves (my_moves : MovePrint) (match_print_i : Z)
  : MovePrint :=
  Z.lxor my_moves (match_move_print match_print_i).

(** [struct AvarageAIMoveOptions]; [opt_moves] is the array [moves[9]] and
    [stored_moves] the field [__stored_moves]. *)
Record AvarageAIMoveOptions : Set := mkOptions {
  len : Z;
  opt_moves : list Vec2;
  stored_moves : MovePrint
}.

(** The initialiser [{0}]. *)
Definition no_options : AvarageAIMoveOptions :=
  mkOptions 0 (repeat (vec2 0 0) 9) 0.

(** The assignment [a[i] = v] to an array held as a list. *)
Fixpoint array_set {A : Type} (a : list A) (i : nat) (v : A) : list A :=
  match a, i with
  | [], _ => []
  | _ :: a', O => v :: a'
  | w :: a', S i' => w :: array_set a' i' v
  end.

(** [avarage_ai_move_options_push]. *)
Definition avarage_ai_move_options_push (opts : AvarageAIMoveOptions) (move : Vec2)
  : AvarageAIMoveOptions :=
  if negb (move_print_inspec (stored_moves opts) move) then
    mkOptions (len opts + 1)
      (array_set (opt_moves opts) (Z.to_nat (len opts)) move)
      (edit_move_print (stored_moves opts) move true)
  else opts.

(** [avarage_ai_move_options_pick]; [r] is the value of the call of [rand()],
    made only when there are two options or more. *)
Definition avarage_ai_move_options_pick (opts : AvarageAIMoveOptions) (r : Z)
  : Vec2 :=
  if len opts =? 0 then vec2 (-1) (-1)
  else if len opts =? 1 then nth 0 (opt_moves opts) (vec2 0 0)
  else nth (Z.to_nat (Z.rem r (len opts))) (opt_moves opts) (vec2 0 0).

(** The three pools of [avarage_ai_cortex]. *)
Record Pools : Set := mkPools {
  danger_cells : AvarageAIMoveOptions;
  avarage_moves : AvarageAIMoveOptions;
  potentially_useless : AvarageAIMoveOptions
}.

(** The [for] loop of [avarage_ai_cortex] over the lines still to visit:
    [inl] is the goal written before the early [return], [inr] the pools at
    the end of the loop.  [goal] is the old [brain->goal], into which
    [move_print_coords] writes. *)
Fixpoint cortex_scan (lines : list Z) (all_my_moves all_enemy_moves : MovePrint)
  (goal : Vec2) (pools : Pools) : Vec2 + Pools :=
  match lines with
  | [] => inr pools
  | i :: lines' =>
      let my_moves := Z.land all_my_moves (match_move_print i) in
      let enemy_moves := Z.land all_enemy_moves (match_move_print i) in
      let will_i_win := avarage_ai_test_winner my_moves enemy_moves in
      if will_i_win then
        let missing_move := avarage_ai_see_missing_moves my_moves i in
        inl (nth 0 (move_print_coords missing_move) goal)
      else if avarage_ai_is_line_potentially_useless my_moves enemy_moves then
        let moves_ := avarage_ai_see_missing_moves my_moves i in
        let move_count := move_print_count moves_ in
        let move_coords := move_print_coords moves_ in
        cortex_scan lines' all_my_moves all_enemy_moves goal
          (mkPools (danger_cells pools) (avarage_moves pools)
             (fold_left (fun opts j =>
                  avarage_ai_move_options_push opts
                    (nth (Z.to_nat j) move_coords (vec2 0 0)))
                (upto (Z.to_nat move_count)) (potentially_useless pools)))
      else
        let will_enemy_win := avarage_ai_test_winner enemy_moves my_moves in
        if will_enemy_win then
          let missing_move := avarage_ai_see_missing_moves enemy_moves i in
          let danger_cell := nth 0 (move_print_coords missing_move) (vec2 0 0) in
          cortex_scan lines' all_my_moves all_enemy_moves goal
            (mkPools (avarage_ai_move_options_push (danger_cells pools) danger_cell)
               (avarage_moves pools) (potentially_useless pools))
        else
          let available_moves := avarage_ai_see_missing_moves enemy_moves i in
          let available_moves_coords := move_print_coords available_moves in
          cortex_scan lines' all_my_moves all_enemy_moves goal
            (mkPools (danger_cells pools)
               (avarage_ai_move_options_push
                  (avarage_ai_move_options_push (avarage_moves pools)
                     (nth 0 available_moves_coords (vec2 0 0)))
                  (nth 1 available_moves_coords (vec2 0 0)))
               (potentially_useless pools))
  end.

(** [avarage_ai_cortex]: the new [brain->goal].  [view] is [brain->view],
    [goal] the old [brain->goal].  At move 0 the two calls of [rand()]
    returned [rand_a] (for [x]) and [rand_b] (for [y]); afterwards the one
    call of the pick, if it is made, returned [rand_a]. *)
Definition avarage_ai_cortex (view : GameState) (goal : Vec2) (rand_a rand_b : Z)
  : Vec2 :=
  let should_i_start := moves view =? 0 in
  if should_i_start then vec2 (Z.rem rand_a 3) (Z.rem rand_b 3)
  else
    let me := turn view in
    let enemy := opponent_actor (turn view) in
    let move_view := get_move_print_triplet (board view) in
    let all_my_moves :=
      if Actor_eqb me X_ACTOR then t_x move_view else t_o move_view in
    let all_enemy_moves :=
      if Actor_eqb enemy X_ACTOR then t_x move_view else t_o move_view in
    match cortex_scan (upto 8) all_my_moves all_enemy_moves goal
            (mkPools no_options no_options no_options) with
    | inl goal' => goal'
    | inr pools =>
        let am_i_in_danger := 0 <? len (danger_cells pools) in
        let do_i_have_good_moves := 0 <? len (avarage_moves pools) in
        if am_i_in_danger then
          avarage_ai_move_options_pick (danger_cells pools) rand_a
        else if do_i_have_good_moves then
          avarage_ai_move_options_pick (avarage_moves pools) rand_a
        else
          avarage_ai_move_options_pick (potentially_useless pools) rand_a
    end.

(** Runs of the program: a list of inputs handed to [process_game_input]. *)
Definition play (state : GameState) (inputs : list GameInput) : GameState :=
  fold_left (fun st i => snd (process_game_input st i)) inputs state.


(** All the iterations of the event loop that [main] runs on one game, from
    the fresh game state: [g] is the static variable of [process_game_state]
    and [st] the game state at the head of an iteration.  The static
    variable keeps whatever an earlier game left in it. *)
Inductive loop_reach (r : Z) : Actor -> GameState -> Prop :=
| loop_start : forall g, loop_reach r g (initial_state r)
| loop_next : forall g st rands input g' st' rands',
    loop_reach r g st ->
    game_event_loop g st rands input = Some (true, (g', st', rands')) ->
    loop_reach r g' st'.

(** ** Notions used by the specification *)

(** The states of alternating play: what [process_game_input] makes of the
    fresh game state of a game that [starter] begins. *)
Definition reachable_from (starter : Actor) (st : GameState) : Prop :=
  exists r inputs,
    0 <= r /\ starter = turn (initial_state r) /\ st = play (initial_state r) inputs.

(** The marks of one side in a triplet. *)
Definition actor_moves (a : Actor) (t : MovePrintTriplet) : MovePrint :=
  match a with
  | X_ACTOR => t_x t
  | O_ACTOR => t_o t
  | NULL_ACTOR => 0
  end.

(** Some side has completed a line of the board. *)
Definition has_winner (b : GameBoard) : bool :=
  let t := get_move_print_triplet b in
  negb (test_move_print_winner (t_x t) =? 0)
  || negb (test_move_print_winner (t_o t) =? 0).

(** The win detector as the specification words it: the union of the
    patterns contained in the mask. *)
Definition winningLines (mask : MovePrint) : MovePrint :=
  fold_left Z.lor
    (filter (fun pattern => Z.land mask pattern =? pattern) match_move_prints) 0.

(** Number of cells of a row, and of a board, that hold [m]. *)
Definition count_row (m : Move) (r : BoardRow) : Z :=
  (if Move_eqb (c0 r) m then 1 else 0) + (if Move_eqb (c1 r) m then 1 else 0)
  + (if Move_eqb (c2 r) m then 1 else 0).

Definition count_cells (m : Move) (b : GameBoard) : Z :=
  count_row m (r0 b) + count_row m (r1 b) + count_row m (r2 b).

(** The invariant of alternating play. *)
Definition consistent (starter : Actor) (st : GameState) : Prop :=
  (starter = X_ACTOR \/ starter = O_ACTOR)
  /\ in_range (selection st)
  /\ endgame st = RUNNING
  /\ moves st = count_cells X_MOVE (board st) + count_cells O_MOVE (board st)
  /\ count_cells (actor_to_move starter) (board st) = moves st - moves st / 2
  /\ count_cells (actor_to_move (opponent_actor starter)) (board st) = moves st / 2
  /\ turn st = (if Z.even (moves st) then starter else opponent_actor starter).

(** Every board. *)
Definition all_moves : list Move := [FREE_MOVE; X_MOVE; O_MOVE].

Definition all_rows : list BoardRow :=
  flat_map (fun a => flat_map (fun b => map (fun c => mkRow a b c) all_moves) all_moves)
    all_moves.

Definition all_boards : list GameBoard :=
  flat_map (fun a => flat_map (fun b => map (fun c => mkBoard a b c) all_rows) all_rows)
    all_rows.

(** The only state with board [b] that satisfies the invariant for
    [starter], up to the selection. *)
Definition canonical_state (b : GameBoard) (starter : Actor) : option GameState :=
  let m := count_cells X_MOVE b + count_cells O_MOVE b in
  if (count_cells (actor_to_move starter) b =? m - m / 2)
     && (count_cells (actor_to_move (opponent_actor starter)) b =? m / 2)
  then Some (mkState b (vec2 0 0)
               (if Z.even m then starter else opponent_actor starter) m RUNNING)
  else None.

(** A state seen from the cell (0,0). *)
Definition unselect (st : GameState) : GameState :=
  mkState (board st) (vec2 0 0) (turn st) (moves st) (endgame st).

(** Whether some sequence of at most [fuel] legal moves from board [b], with
    [t] to move, completes a line for either side. *)
Fixpoint can_complete (fuel : nat) (b : GameBoard) (t : Actor) : bool :=
  has_winner b
  || match fuel with
     | O => false
     | S fuel' =>
         existsb (fun p =>
             Move_eqb (game_board_cell b p) FREE_MOVE
             && can_complete fuel' (set_game_board_cell b p (actor_to_move t))
                  (opponent_actor t))
           scan_positions
     end.

(** The masks [t] partition the nine cells and count the marks of [b]. *)
Definition triplet_check (t : MovePrintTriplet) (b : GameBoard) : bool :=
  (Z.land (t_free t) (t_x t) =? 0) && (Z.land (t_free t) (t_o t) =? 0)
  && (Z.land (t_x t) (t_o t) =? 0)
  && (Z.lor (t_free t) (Z.lor (t_x t) (t_o t)) =? 511)
  && (move_print_count (t_free t) =? count_cells FREE_MOVE b)
  && (move_print_count (t_x t) =? count_cells X_MOVE b)
  && (move_print_count (t_o t) =? count_cells O_MOVE b).

(** The verdict of the draw detector on the state of board [b]: a draw is
    declared only where no legal continuation completes a line, and always
    on a full board without a winner. *)
Definition draw_ok (b : GameBoard) (starter : Actor) : bool :=
  match canonical_state b starter with
  | None => true
  | Some st =>
      let e := endgame (snd (process_game_state starter st)) in
      (if EndGame_eqb e GAME_DRAW
       then negb (can_complete (Z.to_nat (9 - moves st)) b (turn st))
       else true)
      && (if (t_free (get_move_print_triplet b) =? 0) && negb (has_winner b)
          then EndGame_eqb e GAME_DRAW
          else true)
  end.

(** The outcome of the scan of [avarage_ai_cortex] after move 0, with [me]
    to move on [board_]. *)
Definition cortex_pools (board_ : GameBoard) (me : Actor) (goal : Vec2)
  : Vec2 + Pools :=
  let enemy := opponent_actor me in
  let move_view := get_move_print_triplet board_ in
  let all_my_moves :=
    if Actor_eqb me X_ACTOR then t_x move_view else t_o move_view in
  let all_enemy_moves :=
    if Actor_eqb enemy X_ACTOR then t_x move_view else t_o move_view in
  cortex_scan (upto 8) all_my_moves all_enemy_moves goal
    (mkPools no_options no_options no_options).

(** What [avarage_ai_cortex] settles after move 0 before any call of
    [rand()]: the goal of the early [return], or the pool to pick from. *)
Definition cortex_choice (board_ : GameBoard) (me : Actor) (goal : Vec2)
  : Vec2 + AvarageAIMoveOptions :=
  match cortex_pools board_ me goal with
  | inl goal' => inl goal'
  | inr pools =>
      if 0 <? len (danger_cells pools) then inr (danger_cells pools)
      else if 0 <? len (avarage_moves pools) then inr (avarage_moves pools)
      else inr (potentially_useless pools)
  end.

(** [pos] is a free cell of the board. *)
Definition free_cell (b : GameBoard) (pos : Vec2) : bool :=
  in_rangeb pos && Move_eqb (game_board_cell b pos) FREE_MOVE.

(** The first [len] entries of a pool. *)
Definition options_list (opts : AvarageAIMoveOptions) : list Vec2 :=
  map (fun k => nth k (opt_moves opts) (vec2 0 0)) (seq 0 (Z.to_nat (len opts))).

(** [AI_THINKING_STATE]. *)
Definition AI_THINKING_STATE : Vec2 := vec2 (-1) (-1).

(** On the state of board [b]: at move 0 every cell is free, and later, when
    the game goes on, the strategy can only settle on free cells. *)
Definition cortex_ok (b : GameBoard) (starter : Actor) : bool :=
  match canonical_state b starter with
  | None => true
  | Some st =>
      if moves st =? 0 then forallb (free_cell b) scan_positions
      else if EndGame_eqb (endgame (snd (process_game_state starter st))) RUNNING
      then
        match cortex_choice b (turn st) AI_THINKING_STATE with
        | inl goal' => free_cell b goal'
        | inr opts => (0 <? len opts) && forallb (free_cell b) (options_list opts)
        end
      else true
  end.

(** On the state of board [b], after move 0 and when the game goes on, the
    strategy returns early or finds a cell in the danger pool or in the
    neutral pool: it does not fall back on the low-priority pool. *)
Definition pool_ok (b : GameBoard) (starter : Actor) : bool :=
  match canonical_state b starter with
  | None => true
  | Some st =>
      if moves st =? 0 then true
      else if EndGame_eqb (endgame (snd (process_game_state starter st))) RUNNING
      then
        match cortex_pools b (turn st) AI_THINKING_STATE with
        | inl _ => true
        | inr pools =>
            (0 <? len (danger_cells pools)) || (0 <? len (avarage_moves pools))
        end
      else true
  end.

(** A line on which [mine] has two cells and [theirs] none. *)
Definition finishing_line (mine theirs : MovePrint) (i : Z) : bool :=
  (move_print_count (Z.land mine (match_move_print i)) =? 2)
  && (Z.land theirs (match_move_print i) =? 0).

(** The first line of [lines] that is a finishing line. *)
Definition first_finishing (mine theirs : MovePrint) (lines : list Z) : option Z :=
  find (finishing_line mine theirs) lines.

(** With [t] to move on board [b], [mine] and [theirs] being the marks of
    the two sides: when a finishing line exists, some move has been made and
    the scan returns early with the one cell missing on the first finishing
    line, a free cell. *)
Definition finish_check (mine theirs : MovePrint) (b : GameBoard) (t : Actor)
  : bool :=
  match first_finishing mine theirs (upto 8) with
  | None => true
  | Some j =>
      let missing := Z.lxor (Z.land mine (match_move_print j)) (match_move_print j) in
      negb (count_cells X_MOVE b + count_cells O_MOVE b =? 0)
      && match cortex_choice b t AI_THINKING_STATE with
         | inl goal' =>
             free_cell b goal'
             && move_print_inspec (match_move_print j) goal'
             && (length (move_print_coords missing) =? 1)%nat
             && Vec2_eqb goal' (nth 0 (move_print_coords missing) (vec2 0 0))
         | inr _ => false
         end
  end.

(** [while (game_event_loop(&game, source));] for the inputs that the
    source returns one after the other.  The flag of the result says whether
    the loop would go on when the inputs run out. *)
Fixpoint run_loop (g : Actor) (st : GameState) (rands : list Z)
  (inputs : list GameInput) : option (bool * (Actor * GameState * list Z)) :=
  match inputs with
  | [] => Some (true, (g, st, rands))
  | input :: inputs' =>
      match game_event_loop g st rands input with
      | Some (true, (g', st', rands')) => run_loop g' st' rands' inputs'
      | other => other
      end
  end.

(** The positions of a free mask are the free cells of the board, as many
    as [move_print_count] says. *)
Definition coords_check (free_moves : MovePrint) (b : GameBoard) : bool :=
  (length (move_print_coords free_moves) =? Z.to_nat (move_print_count free_moves))%nat
  && forallb (free_cell b) (move_print_coords free_moves).

(** The patterns of a free cell as the specification words them: the row,
    the column, and a diagonal only where the cell lies on it. *)
Definition spec_cell_match_prints (cell_pos : Vec2) : list MovePrint :=
  [ match_move_print (vy cell_pos); match_move_print (vx cell_pos + 3) ]
  ++ filter (fun pattern => move_print_inspec pattern cell_pos)
       [ match_move_print 6; match_move_print 7 ].

(** The scan of the draw detector over the patterns of the specification. *)
Definition spec_keep_game_running (x_moves o_moves free_moves : MovePrint)
  (x_min_moves o_min_moves : Z) : bool :=
  existsb (fun cell_pos =>
    existsb (fun pattern =>
      line_can_win x_min_moves o_min_moves
        (Z.land x_moves pattern) (Z.land o_moves pattern))
      (spec_cell_match_prints cell_pos))
    (move_print_coords free_moves).

(** On the state of board [b], whose masks are [t], both scans agree. *)
Definition scans_check (t : MovePrintTriplet) (b : GameBoard) (starter : Actor)
  : bool :=
  match canonical_state b starter with
  | None => true
  | Some st =>
      let x_min_moves := calc_min_moves (Actor_eqb starter X_ACTOR) (moves st) in
      let o_min_moves := calc_min_moves (Actor_eqb starter O_ACTOR) (moves st) in
      if has_winner b then true
      else Bool.eqb
             (keep_game_running (t_x t) (t_o t) (t_free t) x_min_moves o_min_moves)
             (spec_keep_game_running (t_x t) (t_o t) (t_free t) x_min_moves o_min_moves)
  end.

(** ** Runs and states used as examples *)

(** Three moves into a game begun by X. *)
Definition three_moves : list GameInput :=
  [MOVE_INPUT; RIGHT_INPUT; DOWN_INPUT; MOVE_INPUT; LEFT_INPUT; MOVE_INPUT].

(** A continuation of [three_moves] in which X completes the left column. *)
Definition finish_column : list GameInput :=
  [RIGHT_INPUT; RIGHT_INPUT; MOVE_INPUT; RIGHT_INPUT; DOWN_INPUT; MOVE_INPUT].

(** A whole game, begun by X, that fills the board without a winner. *)
Definition full_game : list GameInput :=
  [MOVE_INPUT; RIGHT_INPUT; MOVE_INPUT; RIGHT_INPUT; MOVE_INPUT;
   LEFT_INPUT; DOWN_INPUT; MOVE_INPUT; LEFT_INPUT; MOVE_INPUT;
   LEFT_INPUT; MOVE_INPUT; DOWN_INPUT; LEFT_INPUT; MOVE_INPUT;
   LEFT_INPUT; MOVE_INPUT; LEFT_INPUT; MOVE_INPUT].

(** Four moves into a game begun by X: X holds two cells of the left column
    and O two cells of the middle one. *)
Definition finish_or_block : list GameInput :=
  [MOVE_INPUT; RIGHT_INPUT; MOVE_INPUT; LEFT_INPUT; DOWN_INPUT; MOVE_INPUT;
   RIGHT_INPUT; MOVE_INPUT].

(** A state with the moves counter at 0 whose cell (0,0) is taken. *)
Definition taken_at_start : GameState :=
  mkState (set_game_board_cell empty_board (vec2 0 0) O_MOVE)
    (vec2 0 0) X_ACTOR 0 RUNNING.

(** The six moves of a game, begun by X, that ends in a draw with three
    cells still free. *)
Definition draw_game : list GameInput :=
  [MOVE_INPUT; RIGHT_INPUT; MOVE_INPUT; RIGHT_INPUT; DOWN_INPUT; MOVE_INPUT;
   RIGHT_INPUT; MOVE_INPUT; RIGHT_INPUT; DOWN_INPUT; MOVE_INPUT;
   RIGHT_INPUT; MOVE_INPUT].

(** Six moves of a game, begun by X, that goes on: X holds (0,0), (1,1)
    and (2,1), O holds (2,0), (0,1) and (1,2), and the cells (1,0), (0,2)
    and (2,2) are free. *)
Definition six_moves : list GameInput :=
  [MOVE_INPUT; RIGHT_INPUT; RIGHT_INPUT; MOVE_INPUT;
   LEFT_INPUT; DOWN_INPUT; MOVE_INPUT; LEFT_INPUT; MOVE_INPUT;
   LEFT_INPUT; MOVE_INPUT; LEFT_INPUT; DOWN_INPUT; MOVE_INPUT].

(** The state that the renderer leaves behind after [draw_game]. *)
Definition filled_state : GameState :=
  mkState (mkBoard (mkRow X_MOVE O_MOVE X_MOVE)
                   (mkRow O_MOVE O_MOVE X_MOVE)
                   (mkRow X_MOVE X_MOVE O_MOVE))
    (vec2 2 2) X_ACTOR 6 GAME_DRAW.

(** ** Further functions of the program *)

(** [is_ai_thinking]. *)
Definition is_ai_thinking (v : Vec2) : bool := (vx v <? 0) || (vy v <? 0).

(** [ai_walk], on the game state [brain->view] points to and [brain->goal].
    The subtractions stay far from the bounds of [int32_t]. *)
Definition ai_walk (view : GameState) (goal : Vec2) : GameInput :=
  let where_i_am := selection view in
  let where_i_want := goal in
  let direction :=
    vec2 (vx where_i_want - vx where_i_am) (vy where_i_want - vy where_i_am) in
  let distance := vec2 (Z.abs (vx direction)) (Z.abs (vy direction)) in
  if vy distance <? vx distance then
    if vx direction <? 0 then LEFT_INPUT else RIGHT_INPUT
  else if vy direction <? 0 then UP_INPUT else DOWN_INPUT.

(** [ai_game_input]: the input it returns and the new [brain->goal].
    [thought] is the goal that the call [ai_think(brain)] leaves in the
    brain; the call is made only while the brain is thinking.  The delays
    are left out. *)
Definition ai_game_input (view : GameState) (goal thought : Vec2)
  : GameInput * Vec2 :=
  let am_i_thinking := is_ai_thinking goal in
  let goal1 := if am_i_thinking then thought else goal in
  let am_i_where_i_want :=
    (vx goal1 =? vx (selection view)) && (vy goal1 =? vy (selection view)) in
  if am_i_where_i_want then (MOVE_INPUT, AI_THINKING_STATE)
  else (ai_walk view goal1, goal1).

(** [dumb_ai_cortex]: the new [brain->goal].  Each element of [rands] holds
    the values of the two calls of [rand()] of one round of the loop, the
    one for [x] first.  [None] when the given values run out before a free
    cell is hit. *)
Fixpoint dumb_ai_cortex (view : GameState) (rands : list (Z * Z))
  : option (Vec2 * list (Z * Z)) :=
  match rands with
  | [] => None
  | (rand_x, rand_y) :: rands' =>
      let randomly_choosen_cell := vec2 (Z.rem rand_x 3) (Z.rem rand_y 3) in
      if Move_eqb (game_board_cell (board view) randomly_choosen_cell) FREE_MOVE
      then Some (randomly_choosen_cell, rands')
      else dumb_ai_cortex view rands'
  end.

(** ** Further notions *)

(** One call of the input source of the computer player followed by
    [process_game_input], [n] times over. *)
Fixpoint ai_steps (n : nat) (st : GameState) (goal thought : Vec2)
  : GameState * Vec2 :=
  match n with
  | O => (st, goal)
  | S n' =>
      let '(input, goal') := ai_game_input st goal thought in
      ai_steps n' (snd (process_game_input st input)) goal' thought
  end.

(** The number of cursor inputs between two cells when the cursor does not
    wrap around. *)
Definition walk_length (from to : Vec2) : Z :=
  Z.abs (vx to - vx from) + Z.abs (vy to - vy from).

(** Cursor inputs that lead from one cell to another. *)
Definition cursor_path (from to : Vec2) : list GameInput :=
  repeat RIGHT_INPUT (Z.to_nat ((vx to - vx from) mod 3))
  ++ repeat DOWN_INPUT (Z.to_nat ((vy to - vy from) mod 3)).

(** A state with another selection. *)
Definition select (st : GameState) (pos : Vec2) : GameState :=
  mkState (board st) pos (turn st) (moves st) (endgame st).

(** Equality test of lists of positions. *)
Fixpoint Vec2_list_eqb (l l' : list Vec2) : bool :=
  match l, l' with
  | [], [] => true
  | p :: l, p' :: l' => Vec2_eqb p p' && Vec2_list_eqb l l'
  | _, _ => false
  end.

(** What setting and clearing the bit of [p] does to the bit of [q]. *)
Definition bit_check (print : MovePrint) (p q : Vec2) : bool :=
  Bool.eqb (move_print_inspec (edit_move_print print p true) q)
    (move_print_inspec print q || Vec2_eqb p q)
  && Bool.eqb (move_print_inspec (edit_move_print print p false) q)
       (move_print_inspec print q && negb (Vec2_eqb p q))
  && (0 <=? edit_move_print print p true) && (edit_move_print print p true <? 512)
  && (0 <=? edit_move_print print p false) && (edit_move_print print p false <? 512)
  && (if move_print_inspec print p
      then (edit_move_print print p true =? print)
           && (move_print_count (edit_move_print print p false)
               =? move_print_count print - 1)
      else (edit_move_print print p false =? print)
           && (move_print_count (edit_move_print print p true)
               =? move_print_count print + 1)
           && (move_print_count print <? 9)).

(** The mask set up again from a list of positions. *)
Definition print_of_coords (coords : list Vec2) : MovePrint :=
  fold_left (fun print pos => edit_move_print print pos true) coords 0.

(** The positions of a mask are its set bits in the order of the cells, as
    many as its count, and make up the mask again. *)
Definition mask_check (print : MovePrint) : bool :=
  Vec2_list_eqb (move_print_coords print)
    (filter (move_print_inspec print) scan_positions)
  && (Z.of_nat (length (move_print_coords print)) =? move_print_count print)
  && (print_of_coords (move_print_coords print) =? print).

(** The cell that the three masks give to a position. *)
Definition decode_cell (t : MovePrintTriplet) (pos : Vec2) : Move :=
  if move_print_inspec (t_x t) pos then X_MOVE
  else if move_print_inspec (t_o t) pos then O_MOVE
  else FREE_MOVE.

(** The masks [t] give every cell of [b] back, each in one mask only. *)
Definition cell_check (t : MovePrintTriplet) (b : GameBoard) : bool :=
  forallb (fun pos =>
      Move_eqb (decode_cell t pos) (game_board_cell b pos)
      && Bool.eqb (move_print_inspec (t_free t) pos)
           (Move_eqb (game_board_cell b pos) FREE_MOVE)
      && Bool.eqb (move_print_inspec (t_x t) pos)
           (Move_eqb (game_board_cell b pos) X_MOVE)
      && Bool.eqb (move_print_inspec (t_o t) pos)
           (Move_eqb (game_board_cell b pos) O_MOVE))
    scan_positions.

(** The first position of a list that passes a test, looked for from the
    front and no further. *)
Fixpoint any_position (f : Vec2 -> bool) (l : list Vec2) : bool :=
  match l with
  | [] => false
  | p :: l' => if f p then true else any_position f l'
  end.

(** Whether some sequence of at most [fuel] legal moves from board [b], with
    [t] to move, completes a line; the search stops at the first one. *)
Fixpoint can_win (fuel : nat) (b : GameBoard) (t : Actor) : bool :=
  if has_winner b then true
  else
    match fuel with
    | O => false
    | S fuel' =>
        any_position (fun p =>
            if Move_eqb (game_board_cell b p) FREE_MOVE
            then can_win fuel' (set_game_board_cell b p (actor_to_move t))
                   (opponent_actor t)
            else false)
          scan_positions
    end.

(** X has completed a line on [b]; O has. *)
Definition x_wins (b : GameBoard) : bool :=
  negb (test_move_print_winner (t_x (get_move_print_triplet b)) =? 0).

Definition o_wins (b : GameBoard) : bool :=
  negb (test_move_print_winner (t_o (get_move_print_triplet b)) =? 0).

(** The verdict of [process_game_state] on the state of board [b] against
    the lines on the board. *)
Definition verdict_check (b : GameBoard) (starter : Actor) : bool :=
  match canonical_state b starter with
  | None => true
  | Some st =>
      Bool.eqb (EndGame_eqb (endgame (snd (process_game_state starter st))) X_VICTORY)
        (x_wins b)
      && Bool.eqb (EndGame_eqb (endgame (snd (process_game_state starter st))) O_VICTORY)
           (o_wins b && negb (x_wins b))
      && (if moves st <? 5 then negb (x_wins b) && negb (o_wins b) else true)
      && (if moves st <? 6
          then negb (EndGame_eqb (endgame (snd (process_game_state starter st)))
                       GAME_DRAW)
          else true)
  end.

(** Where the detector lets the game go on, a line can still be completed. *)
Definition complete_check (b : GameBoard) (starter : Actor) : bool :=
  match canonical_state b starter with
  | None => true
  | Some st =>
      if EndGame_eqb (endgame (snd (process_game_state starter st))) RUNNING
      then can_win (Z.to_nat (9 - moves st)) b (turn st)
      else true
  end.

(** On a board without a winner, a move of the side to move completes no
    line of the other side; and the last move of a game that the detector
    let go on after eight moves completes a line. *)
Definition step_check (b : GameBoard) (starter : Actor) : bool :=
  match canonical_state b starter with
  | None => true
  | Some st =>
      if has_winner b then true
      else
        forallb (fun p =>
            if Move_eqb (game_board_cell b p) FREE_MOVE then
              (test_move_print_winner
                 (actor_moves (opponent_actor (turn st))
                    (get_move_print_triplet
                       (set_game_board_cell b p (actor_to_move (turn st))))) =? 0)
              && (if (moves st =? 8)
                     && EndGame_eqb (endgame (snd (process_game_state starter st)))
                          RUNNING
                  then has_winner (set_game_board_cell b p (actor_to_move (turn st)))
                  else true)
            else true)
          scan_positions
  end.

(** The cell [p] lies on a line on which [theirs] has two cells and [mine]
    none. *)
Definition on_threat_line (mine theirs : MovePrint) (p : Vec2) : bool :=
  existsb (fun j =>
      finishing_line theirs mine j && move_print_inspec (match_move_print j) p)
    (upto 8).

(** With [t] to move on board [b], [mine] and [theirs] being the marks of
    the two sides: when there is no finishing line but the other side has
    one, some move has been made and the strategy settles on a pool that is
    not empty and holds only free cells of such lines. *)
Definition block_check (mine theirs : MovePrint) (b : GameBoard) (t : Actor)
  : bool :=
  if existsb (finishing_line mine theirs) (upto 8) then true
  else if existsb (finishing_line theirs mine) (upto 8) then
    negb (count_cells X_MOVE b + count_cells O_MOVE b =? 0)
    && match cortex_choice b t AI_THINKING_STATE with
       | inl _ => false
       | inr opts =>
           (0 <? len opts)
           && forallb (fun p => free_cell b p && on_threat_line mine theirs p)
                (options_list opts)
       end
  else true.

(** The invariant of a pool of cells: the first [len] entries of the array
    are distinct cells of the board, and the mask records just them. *)
Definition pool_inv (opts : AvarageAIMoveOptions) : Prop :=
  0 <= len opts
  /\ length (opt_moves opts) = 9%nat
  /\ 0 <= stored_moves opts < 512
  /\ NoDup (options_list opts)
  /\ (forall p, In p (options_list opts) -> in_range p)
  /\ (forall p, in_range p ->
        (move_print_inspec (stored_moves opts) p = true <-> In p (options_list opts))).

Definition pools_inv (pools : Pools) : Prop :=
  pool_inv (danger_cells pools) /\ pool_inv (avarage_moves pools)
  /\ pool_inv (potentially_useless pools).

(** What [animated |= (1 << s)] does to the bit that the test
    [animated & (1 << s')] of the next draw reads. *)
Definition animated_check (animated s s' : Z) : bool :=
  Bool.eqb (negb (Z.land (uint8 (Z.lor animated (Z.shiftl 1 s))) (Z.shiftl 1 s') =? 0))
    (negb (Z.land animated (Z.shiftl 1 s') =? 0) || (s =? s')).

(** The cells of a free mask are all the free cells of the board. *)
Definition missing_check (free_moves : MovePrint) (b : GameBoard) : bool :=
  forallb (fun p =>
      if free_cell b p then existsb (Vec2_eqb p) (move_print_coords free_moves)
      else true)
    scan_positions.

(** The bits of [animated] after the first [k] cells were animated in
    order. *)
Definition ones_check (k : Z) : bool :=
  (Z.land (2 ^ k - 1) (Z.shiftl 1 k) =? 0)
  && (uint8 (Z.lor (2 ^ k - 1) (Z.shiftl 1 k)) =? 2 ^ (k + 1) - 1).

(** ** The keyboard *)

(** [enum KeyboardInput]. *)
Inductive KeyboardInput : Set :=
  KEY_UNSUPPORTED | KEY_1 | KEY_2 | KEY_3 | KEY_A | KEY_D | KEY_Q | KEY_S | KEY_W
| KEY_SPACE | KEY_BACKSPACE | KEY_ESCAPE | KEY_ENTER
| KEY_ARROW_UP | KEY_ARROW_DOWN | KEY_ARROW_RIGHT | KEY_ARROW_LEFT.

(** [keyboard_input]; [seq] holds the bytes that its one call of
    [raw_input] has read, so that [seq_n] is the length of [seq]. *)
Definition keyboard_input (seq : list Z) : KeyboardInput :=
  match seq with
  | [c] =>
      if c =? 49 then KEY_1
      else if c =? 50 then KEY_2
      else if c =? 51 then KEY_3
      else if c =? 97 then KEY_A
      else if c =? 100 then KEY_D
      else if c =? 113 then KEY_Q
      else if c =? 115 then KEY_S
      else if c =? 119 then KEY_W
      else if c =? 32 then KEY_SPACE
      else if c =? 127 then KEY_BACKSPACE
      else if c =? 27 then KEY_ESCAPE
      else if (c =? 13) || (c =? 10) then KEY_ENTER
      else KEY_UNSUPPORTED
  | [c0; c1; c2] =>
      if (c0 =? 27) && (c1 =? 91) && ((65 <=? c2) && (c2 <=? 68)) then
        if c2 =? 65 then KEY_ARROW_UP
        else if c2 =? 66 then KEY_ARROW_DOWN
        else if c2 =? 67 then KEY_ARROW_RIGHT
        else if c2 =? 68 then KEY_ARROW_LEFT
        else KEY_UNSUPPORTED
      else KEY_UNSUPPORTED
  | _ => KEY_UNSUPPORTED
  end.

(** [player_game_input]: the loop reads until a key of the game comes.
    [reads] are the byte sequences that the calls of [raw_input] return one
    after the other; the result is the input with the reads left over, and
    [None] when the loop is still waiting after the last of them. *)
Fixpoint player_game_input (reads : list (list Z))
  : option (GameInput * list (list Z)) :=
  match reads with
  | [] => None
  | seq :: reads' =>
      match keyboard_input seq with
      | KEY_W | KEY_ARROW_UP => Some (UP_INPUT, reads')
      | KEY_A | KEY_ARROW_LEFT => Some (LEFT_INPUT, reads')
      | KEY_S | KEY_ARROW_DOWN => Some (DOWN_INPUT, reads')
      | KEY_D | KEY_ARROW_RIGHT => Some (RIGHT_INPUT, reads')
      | KEY_Q | KEY_ESCAPE | KEY_BACKSPACE => Some (QUIT_INPUT, reads')
      | KEY_ENTER | KEY_SPACE => Some (MOVE_INPUT, reads')
      | _ => player_game_input reads'
      end
  end.

(** [blocking_confirm], over the same reads. *)
Fixpoint blocking_confirm (reads : list (list Z)) : option (bool * list (list Z)) :=
  match reads with
  | [] => None
  | seq :: reads' =>
      match keyboard_input seq with
      | KEY_Q | KEY_BACKSPACE | KEY_ESCAPE => Some (false, reads')
      | KEY_ENTER | KEY_SPACE => Some (true, reads')
      | _ => blocking_confirm reads'
      end
  end.

(** ** Text *)

(** [struct UStrLenRes]. *)
Record UStrLenRes : Set := mkUStrLenRes { ulen : Z; blen : Z }.

(** The [for] loop of [ustrlen].  [str] is the memory from the pointer on,
    byte by byte, each byte as the number of its bit pattern; the loop ends
    at the first byte 0, which a C string has. *)
Fixpoint ustrlen_from (str : list Z) (ln : UStrLenRes) : UStrLenRes :=
  match str with
  | [] => ln
  | c :: str' =>
      if c =? 0 then ln
      else ustrlen_from str'
             (mkUStrLenRes (ulen ln + (if Z.land c 192 =? 128 then 0 else 1))
                (blen ln + 1))
  end.

(** [ustrlen]. *)
Definition ustrlen (str : list Z) : UStrLenRes :=
  ustrlen_from str (mkUStrLenRes 0 0).

(** [visual_half] of [write_center]: how far left of the cursor the text
    begins. *)
Definition visual_half (str : list Z) : Z :=
  ulen (ustrlen str) - Z.quot (ulen (ustrlen str)) 2.

(** ** Notions for the keyboard and for text *)

(** The input that the [switch] of [player_game_input] makes of a key. *)
Definition input_of_key (key : KeyboardInput) : option GameInput :=
  match key with
  | KEY_W | KEY_ARROW_UP => Some UP_INPUT
  | KEY_A | KEY_ARROW_LEFT => Some LEFT_INPUT
  | KEY_S | KEY_ARROW_DOWN => Some DOWN_INPUT
  | KEY_D | KEY_ARROW_RIGHT => Some RIGHT_INPUT
  | KEY_Q | KEY_ESCAPE | KEY_BACKSPACE => Some QUIT_INPUT
  | KEY_ENTER | KEY_SPACE => Some MOVE_INPUT
  | _ => None
  end.

(** The byte sequences bound to an input: w a s d and the arrow keys; q,
    escape and backspace; carriage return, line feed and space. *)
Definition key_bytes (i : GameInput) : list (list Z) :=
  match i with
  | UP_INPUT => [[119]; [27; 91; 65]]
  | LEFT_INPUT => [[97]; [27; 91; 68]]
  | DOWN_INPUT => [[115]; [27; 91; 66]]
  | RIGHT_INPUT => [[100]; [27; 91; 67]]
  | QUIT_INPUT => [[113]; [27]; [127]]
  | MOVE_INPUT => [[13]; [10]; [32]]
  end.

(** A code point as UTF-8 writes it: a byte that is neither 0 nor of the
    form [10xxxxxx], then bytes of that form. *)
Definition utf8_char (bytes : list Z) : Prop :=
  match bytes with
  | [] => False
  | lead :: rest =>
      0 < lead < 256 /\ ~ (128 <= lead <= 191)
      /\ Forall (fun c => 128 <= c <= 191) rest
  end.

(** The test of [ustrlen] on a byte, against the range of the
    continuation bytes. *)
Definition continuation_check (c : Z) : bool :=
  Bool.eqb (Z.land c 192 =? 128) ((128 <=? c) && (c <=? 191)).

(** A line on which [theirs] has one cell and [mine] none. *)
Definition open_line (mine theirs : MovePrint) (j : Z) : bool :=
  (move_print_count (Z.land theirs (match_move_print j)) =? 1)
  && (Z.land mine (match_move_print j) =? 0).

(** The cell [p] lies on such a line. *)
Definition on_open_line (mine theirs : MovePrint) (p : Vec2) : bool :=
  existsb (fun j => open_line mine theirs j && move_print_inspec (match_move_print j) p)
    (upto 8).

(** With [t] to move on board [b]: when neither side has a line to finish,
    the strategy settles on a pool that is not empty and holds only free
    cells of lines on which the other side has one cell and [t] none. *)
Definition neutral_choice_ok (mine theirs : MovePrint) (b : GameBoard) (t : Actor)
  : bool :=
  if existsb (finishing_line mine theirs) (upto 8) then true
  else if existsb (finishing_line theirs mine) (upto 8) then true
  else
    match cortex_choice b t AI_THINKING_STATE with
    | inl _ => false
    | inr opts =>
        (0 <? len opts)
        && forallb (fun p => free_cell b p && on_open_line mine theirs p)
             (options_list opts)
    end.

(** That, on the state of board [b] after move 0 and when the game goes
    on. *)
Definition neutral_check (b : GameBoard) (starter : Actor) : bool :=
  match canonical_state b starter with
  | None => true
  | Some st =>
      if moves st =? 0 then true
      else if EndGame_eqb (endgame (snd (process_game_state starter st))) RUNNING
      then neutral_choice_ok
             (actor_moves (turn st) (get_move_print_triplet b))
             (actor_moves (opponent_actor (turn st)) (get_move_print_triplet b))
             b (turn st)
      else true
  end.

(** * Proofs *)

(** ** Every board is enumerated *)

Lemma all_rows_complete (r : BoardRow) : In r all_rows.
Proof.
  destruct r as [[] [] []]; unfold all_rows, all_moves; simpl;
    repeat (first [left; reflexivity | right]).
Qed.

Lemma all_boards_complete (b : GameBoard) : In b all_boards.
Proof.
  destruct b as [a b c]. unfold all_boards.
  apply in_flat_map. exists a. split; [apply all_rows_complete|].
  apply in_flat_map. exists b. split; [apply all_rows_complete|].
  apply in_map. apply all_rows_complete.
Qed.

(** Reading a conditional whose test is known. *)
Lemma if_true_elim (c x y : bool) :
  c = true -> (if c then x else y) = true -> x = true.
Proof. intros ->. auto. Qed.

Lemma if_false_elim (c x y : bool) :
  c = false -> (if c then x else y) = true -> y = true.
Proof. intros ->. auto. Qed.

Lemma EndGame_eqb_eq (a b : EndGame) : EndGame_eqb a b = true <-> a = b.
Proof. destruct a, b; simpl; split; intro H; try reflexivity; discriminate. Qed.

(** A check that passes on the enumeration holds of every board. *)
Lemma check_all_boards (P : GameBoard -> bool) :
  forallb P all_boards = true -> forall b, P b = true.
Proof.
  intros H b. rewrite forallb_forall in H. apply H, all_boards_complete.
Qed.

Lemma triplet_check_all :
  forallb (fun b => triplet_check (get_move_print_triplet b) b) all_boards = true.
Proof. vm_cast_no_check (eq_refl true). Qed.

Lemma draw_ok_all :
  forallb (fun b => draw_ok b X_ACTOR && draw_ok b O_ACTOR) all_boards = true.
Proof. vm_cast_no_check (eq_refl true). Qed.

Lemma cortex_ok_all :
  forallb (fun b => cortex_ok b X_ACTOR && cortex_ok b O_ACTOR) all_boards = true.
Proof. vm_cast_no_check (eq_refl true). Qed.

Lemma pool_ok_all :
  forallb (fun b => pool_ok b X_ACTOR && pool_ok b O_ACTOR) all_boards = true.
Proof. vm_cast_no_check (eq_refl true). Qed.

Lemma finish_check_all :
  forallb (fun b =>
      finish_check (t_x (get_move_print_triplet b)) (t_o (get_move_print_triplet b))
        b X_ACTOR
      && finish_check (t_o (get_move_print_triplet b)) (t_x (get_move_print_triplet b))
           b O_ACTOR)
    all_boards = true.
Proof. vm_cast_no_check (eq_refl true). Qed.

Lemma coords_check_all :
  forallb (fun b => coords_check (t_free (get_move_print_triplet b)) b) all_boards
  = true.
Proof. vm_cast_no_check (eq_refl true). Qed.

Lemma scans_check_all :
  forallb (fun b => scans_check (get_move_print_triplet b) b X_ACTOR
                    && scans_check (get_move_print_triplet b) b O_ACTOR)
    all_boards = true.
Proof. vm_cast_no_check (eq_refl true). Qed.

(** ** The invariant of alternating play *)

Lemma in_range_cases (p : Vec2) :
  in_range p ->
  (vx p = 0 \/ vx p = 1 \/ vx p = 2) /\ (vy p = 0 \/ vy p = 1 \/ vy p = 2).
Proof. unfold in_range. lia. Qed.

Ltac split_pos p :=
  let Hr := fresh "Hr" in
  match goal with
  | H : in_range p |- _ =>
      pose proof (in_range_cases p H) as Hr;
      destruct p as [?x ?y]; cbn [vx vy] in Hr;
      destruct Hr as [[?|[?|?]] [?|[?|?]]]; subst
  end.

Lemma in_rangeb_spec (p : Vec2) : in_rangeb p = true <-> in_range p.
Proof.
  unfold in_rangeb, in_range.
  rewrite !andb_true_iff, !Z.leb_le, !Z.ltb_lt. tauto.
Qed.

Lemma Move_eqb_eq (a b : Move) : Move_eqb a b = true <-> a = b.
Proof. destruct a, b; simpl; split; intro H; try reflexivity; discriminate. Qed.

Lemma count_row_total (r : BoardRow) :
  count_row FREE_MOVE r + count_row X_MOVE r + count_row O_MOVE r = 3.
Proof. destruct r as [[] [] []]; reflexivity. Qed.

Lemma count_cells_total (b : GameBoard) :
  count_cells FREE_MOVE b + count_cells X_MOVE b + count_cells O_MOVE b = 9.
Proof.
  unfold count_cells.
  pose proof (count_row_total (r0 b)). pose proof (count_row_total (r1 b)).
  pose proof (count_row_total (r2 b)). lia.
Qed.

Lemma count_cells_nonneg (m : Move) (b : GameBoard) : 0 <= count_cells m b.
Proof.
  unfold count_cells, count_row.
  repeat match goal with |- context [if ?c then _ else _] => destruct c end; lia.
Qed.

(** Writing a mark into a free cell moves one unit from the count of free
    cells to the count of that mark. *)
Lemma count_cells_set (b : GameBoard) (p : Vec2) (m m' : Move) :
  in_range p ->
  game_board_cell b p = FREE_MOVE ->
  count_cells m' (set_game_board_cell b p m)
  = count_cells m' b + (if Move_eqb m m' then 1 else 0)
    - (if Move_eqb FREE_MOVE m' then 1 else 0).
Proof.
  intros Hp Hfree. split_pos p;
    destruct b as [[a0 a1 a2] [b0 b1 b2] [d0 d1 d2]];
    cbn in Hfree; subst;
    unfold count_cells, count_row, set_game_board_cell, row_set;
    cbn [vx vy Z.eqb Pos.eqb r0 r1 r2 c0 c1 c2];
    destruct m, m'; cbn [Move_eqb]; ring.
Qed.

Lemma set_get_same (b : GameBoard) (p : Vec2) (m : Move) :
  in_range p -> game_board_cell (set_game_board_cell b p m) p = m.
Proof. intros Hp. split_pos p; reflexivity. Qed.

Lemma set_get_other (b : GameBoard) (p q : Vec2) (m : Move) :
  in_range p -> in_range q -> q <> p ->
  game_board_cell (set_game_board_cell b p m) q = game_board_cell b q.
Proof.
  intros Hp Hq Hne. split_pos p; split_pos q;
    first [reflexivity | exfalso; apply Hne; reflexivity].
Qed.

Lemma cursor_back (v : Z) : 0 <= v < 3 -> 0 <= Z.rem ((v + 3) - 1) 3 < 3.
Proof.
  intros H. assert (v = 0 \/ v = 1 \/ v = 2) as [-> | [-> | ->]] by lia;
    vm_compute; split; congruence.
Qed.

Lemma cursor_forth (v : Z) : 0 <= v < 3 -> 0 <= Z.rem (v + 1) 3 < 3.
Proof.
  intros H. assert (v = 0 \/ v = 1 \/ v = 2) as [-> | [-> | ->]] by lia;
    vm_compute; split; congruence.
Qed.

Lemma initial_turn (r : Z) :
  0 <= r -> turn (initial_state r) = X_ACTOR \/ turn (initial_state r) = O_ACTOR.
Proof.
  intros Hr. unfold initial_state, actor_of_Z; cbn [turn].
  rewrite Z.rem_mod_nonneg by lia.
  assert (r mod 2 = 0 \/ r mod 2 = 1) as [-> | ->] by (pose proof (Z.mod_pos_bound r 2); lia);
    [left | right]; reflexivity.
Qed.

Lemma initial_consistent (r : Z) :
  0 <= r -> consistent (turn (initial_state r)) (initial_state r).
Proof.
  intros Hr. unfold consistent. split; [apply initial_turn, Hr|].
  destruct (initial_turn r Hr) as [E|E]; rewrite E; cbn;
    repeat split; try reflexivity; try lia; discriminate.
Qed.

Lemma consistent_moves_bound (s : Actor) (st : GameState) :
  consistent s st -> 0 <= moves st <= 9.
Proof.
  intros (_ & _ & _ & Hm & _).
  pose proof (count_cells_total (board st)).
  pose proof (count_cells_nonneg FREE_MOVE (board st)).
  pose proof (count_cells_nonneg X_MOVE (board st)).
  pose proof (count_cells_nonneg O_MOVE (board st)). lia.
Qed.

Lemma consistent_turn (s : Actor) (st : GameState) :
  consistent s st -> turn st = X_ACTOR \/ turn st = O_ACTOR.
Proof.
  intros ([-> | ->] & _ & _ & _ & _ & _ & Ht); rewrite Ht;
    destruct (Z.even (moves st)); cbn; auto.
Qed.

Lemma uint8_small (n : Z) : 0 <= n < 256 -> uint8 n = n.
Proof. intros H. unfold uint8. apply Z.mod_small, H. Qed.

Lemma even_succ_flip (m : Z) : Z.even (m + 1) = negb (Z.even m).
Proof. rewrite Z.even_add. destruct (Z.even m); reflexivity. Qed.

(** A move onto a free cell keeps the invariant. *)
Lemma commit_consistent (s : Actor) (st : GameState) :
  consistent s st ->
  game_board_cell (board st) (selection st) = FREE_MOVE ->
  consistent s
    (mkState (set_game_board_cell (board st) (selection st) (actor_to_move (turn st)))
       (selection st) (opponent_actor (turn st)) (uint8 (moves st + 1)) (endgame st)).
Proof.
  intros Hc Hfree.
  pose proof (consistent_moves_bound s st Hc) as Hb.
  destruct Hc as (Hs & Hsel & He & Hm & Hcs & Hco & Ht).
  pose proof (count_cells_total (board st)) as Htot.
  assert (0 < count_cells FREE_MOVE (board st)) as Hpos.
  { destruct (board st) as [[a0 a1 a2] [b0 b1 b2] [d0 d1 d2]].
    pose proof (in_range_cases _ Hsel) as Hr.
    destruct (selection st) as [x y]; cbn [vx vy] in Hr.
    destruct Hr as [[?|[?|?]] [?|[?|?]]]; subst; cbn in Hfree; subst;
      unfold count_cells, count_row; cbn [r0 r1 r2 c0 c1 c2 Move_eqb];
      repeat match goal with |- context [if ?c then _ else _] => destruct c end; lia. }
  rewrite uint8_small by lia.
  unfold consistent; cbn [board selection turn moves endgame].
  rewrite !count_cells_set by assumption.
  rewrite even_succ_flip.
  assert (Z.even (moves st) = true /\ moves st mod 2 = 0
          \/ Z.even (moves st) = false /\ moves st mod 2 = 1) as Hpar.
  { rewrite Zeven_mod. pose proof (Z.mod_pos_bound (moves st) 2).
    destruct (Z.eqb_spec (moves st mod 2) 0); [left | right]; split; auto; lia. }
  destruct Hs as [-> | ->]; rewrite Ht in *;
    destruct Hpar as [[E Hmod] | [E Hmod]]; rewrite E in *;
    cbn [negb actor_to_move opponent_actor Move_eqb] in *;
    unfold in_range in *; repeat split; auto; try lia;
    Z.div_mod_to_equations; lia.
Qed.

(** [process_game_input] keeps the invariant. *)
Lemma process_game_input_consistent (s : Actor) (st : GameState) (i : GameInput) :
  consistent s st -> consistent s (snd (process_game_input st i)).
Proof.
  intros Hc. destruct i; cbn [process_game_input snd]; try exact Hc.
  1-4: destruct Hc as (Hs & [Hx Hy] & Hrest);
       split; [exact Hs|]; split; [|exact Hrest];
       split; cbn [selection vx vy]; auto using cursor_back, cursor_forth.
  destruct (Move_eqb (game_board_cell (board st) (selection st)) FREE_MOVE) eqn:E;
    cbn [snd]; [|exact Hc].
  apply commit_consistent; [exact Hc|]. apply Move_eqb_eq, E.
Qed.

Lemma play_snoc (st : GameState) (inputs : list GameInput) (i : GameInput) :
  play st (inputs ++ [i]) = snd (process_game_input (play st inputs) i).
Proof. unfold play. rewrite fold_left_app. reflexivity. Qed.

Lemma play_consistent (s : Actor) (inputs : list GameInput) (st : GameState) :
  consistent s st -> consistent s (play st inputs).
Proof.
  revert st. induction inputs as [|i inputs IH]; intros st Hc; [exact Hc|].
  cbn. apply IH, process_game_input_consistent, Hc.
Qed.

Lemma reachable_consistent (s : Actor) (st : GameState) :
  reachable_from s st -> consistent s st.
Proof.
  intros (r & inputs & Hr & -> & ->).
  apply play_consistent, initial_consistent, Hr.
Qed.

(** ** Masks and move counter (C2) *)

Lemma triplet_check_spec (t : MovePrintTriplet) (b : GameBoard) :
  triplet_check t b = true ->
  Z.land (t_free t) (t_x t) = 0 /\ Z.land (t_free t) (t_o t) = 0
  /\ Z.land (t_x t) (t_o t) = 0
  /\ Z.lor (t_free t) (Z.lor (t_x t) (t_o t)) = 511
  /\ move_print_count (t_free t) = count_cells FREE_MOVE b
  /\ move_print_count (t_x t) = count_cells X_MOVE b
  /\ move_print_count (t_o t) = count_cells O_MOVE b.
Proof.
  unfold triplet_check. rewrite !andb_true_iff, !Z.eqb_eq. tauto.
Qed.

(** The three masks of any board partition the nine bits, and each counts
    the cells of its kind. *)
Lemma triplet_partition (b : GameBoard) :
  let t := get_move_print_triplet b in
  Z.land (t_free t) (t_x t) = 0 /\ Z.land (t_free t) (t_o t) = 0
  /\ Z.land (t_x t) (t_o t) = 0
  /\ Z.lor (t_free t) (Z.lor (t_x t) (t_o t)) = 511
  /\ move_print_count (t_free t) = count_cells FREE_MOVE b
  /\ move_print_count (t_x t) = count_cells X_MOVE b
  /\ move_print_count (t_o t) = count_cells O_MOVE b.
Proof.
  exact (triplet_check_spec (get_move_print_triplet b) b
           (check_all_boards _ triplet_check_all b)).
Qed.

(** C2. In every state reached from the fresh game state through
    [process_game_input] steps, the free, X and O masks of
    [get_move_print_triplet] are pairwise disjoint, their union is 0x1FF,
    and the X and O masks together hold as many bits as the moves counter
    says. *)
Theorem mask_move_count_invariant (starter : Actor) (st : GameState) :
  reachable_from starter st ->
  let t := get_move_print_triplet (board st) in
  Z.land (t_free t) (t_x t) = 0 /\ Z.land (t_free t) (t_o t) = 0
  /\ Z.land (t_x t) (t_o t) = 0
  /\ Z.lor (t_free t) (Z.lor (t_x t) (t_o t)) = 511
  /\ move_print_count (t_x t) + move_print_count (t_o t) = moves st.
Proof.
  intros Hreach. apply reachable_consistent in Hreach.
  destruct Hreach as (_ & _ & _ & Hm & _).
  destruct (triplet_partition (board st)) as (H1 & H2 & H3 & H4 & _ & Hx & Ho).
  cbv zeta. rewrite Hx, Ho, Hm. auto.
Qed.

Lemma mask_move_count_invariant_witness :
  let st := play (initial_state 0) three_moves in
  let t := get_move_print_triplet (board st) in
  moves st = 3
  /\ Z.land (t_free t) (t_x t) = 0 /\ Z.land (t_free t) (t_o t) = 0
  /\ Z.land (t_x t) (t_o t) = 0
  /\ Z.lor (t_free t) (Z.lor (t_x t) (t_o t)) = 511
  /\ move_print_count (t_x t) + move_print_count (t_o t) = moves st.
Proof.
  split; [reflexivity|].
  apply (mask_move_count_invariant X_ACTOR (play (initial_state 0) three_moves)).
  exists 0, three_moves. repeat split; reflexivity || lia.
Defined.

(** ** Win detection (C3) *)

Lemma winner_fold (testing : MovePrint) (lines : list Z) (acc : MovePrint) :
  fold_left (fun result i => Z.lor result (test_move_print_winner_line testing i))
    lines acc
  = fold_left Z.lor
      (filter (fun pattern => Z.land testing pattern =? pattern)
         (map match_move_print lines)) acc.
Proof.
  revert acc. induction lines as [|i lines IH]; intros acc; [reflexivity|].
  cbn [fold_left map filter]. rewrite IH. unfold test_move_print_winner_line.
  destruct (Z.land testing (match_move_print i) =? match_move_print i).
  - reflexivity.
  - rewrite Z.lor_0_r. reflexivity.
Qed.

Lemma test_move_print_winner_spec (testing : MovePrint) :
  test_move_print_winner testing = winningLines testing.
Proof. unfold test_move_print_winner, winningLines. apply winner_fold. Qed.

Lemma fold_lor_zero (l : list Z) (acc : Z) :
  Forall (fun p => 0 < p) l -> 0 <= acc ->
  (fold_left Z.lor l acc = 0 <-> acc = 0 /\ l = []).
Proof.
  revert acc. induction l as [|p l IH]; intros acc Hl Hacc.
  - cbn. tauto.
  - inversion Hl as [|? ? Hp Hl']; subst. cbn [fold_left].
    rewrite IH by (auto; apply Z.lor_nonneg; lia).
    rewrite Z.lor_eq_0_iff. split.
    + intros [[_ Hp0] _]. lia.
    + intros [_ Hnil]. discriminate.
Qed.

Lemma match_move_prints_positive : Forall (fun p => 0 < p) match_move_prints.
Proof. unfold match_move_prints. repeat constructor. Qed.

(** C3. [test_move_print_winner] returns the union of exactly the winning
    patterns contained in the mask; so it is non-zero just when some pattern
    is contained in the mask, and it returns each pattern unchanged. *)
Theorem win_detection (mask : MovePrint) :
  test_move_print_winner mask
  = fold_left Z.lor
      (filter (fun pattern => Z.land mask pattern =? pattern) match_move_prints) 0
  /\ (test_move_print_winner mask <> 0
      <-> exists pattern,
            In pattern match_move_prints /\ Z.land mask pattern = pattern)
  /\ map test_move_print_winner match_move_prints = match_move_prints.
Proof.
  split; [apply test_move_print_winner_spec|]. split; [|reflexivity].
  rewrite test_move_print_winner_spec. unfold winningLines.
  set (l := filter _ _).
  assert (Forall (fun p => 0 < p) l) as Hl.
  { apply Forall_forall. intros p Hp. apply filter_In in Hp.
    exact (proj1 (Forall_forall _ _) match_move_prints_positive p (proj1 Hp)). }
  rewrite (fold_lor_zero l 0 Hl) by lia. split.
  - intros Hne. destruct l as [|p l'] eqn:E; [exfalso; apply Hne; auto|].
    exists p. assert (In p l) as Hp by (rewrite E; left; reflexivity).
    apply filter_In in Hp. rewrite Z.eqb_eq in Hp. exact Hp.
  - intros (p & Hin & Hsub) [_ Hnil].
    assert (In p l) as Hp by (apply filter_In; rewrite Z.eqb_eq; auto).
    rewrite Hnil in Hp. exact Hp.
Qed.

Lemma win_detection_witness :
  test_move_print_winner 75 = 73 /\ test_move_print_winner 75 <> 0.
Proof.
  split; [reflexivity|].
  apply (proj1 (proj2 (win_detection 75))).
  exists 73. split; [right; right; right; left|]; reflexivity.
Defined.

(** ** Minimum moves (C4) *)

(** C4. From six moves on, where the draw detector runs, [calc_min_moves]
    is [3 - (5 - (moves - moves/2))] for the side that started and
    [3 - (4 - moves/2)] for the other one, without any wrap-around. *)
Theorem calc_min_moves_formula (moves_ : Z) :
  6 <= moves_ <= 255 ->
  calc_min_moves true moves_ = 3 - (5 - (moves_ - moves_ / 2))
  /\ calc_min_moves false moves_ = 3 - (4 - moves_ / 2).
Proof.
  intros H. unfold calc_min_moves, uint8.
  rewrite Z.quot_div_nonneg by lia.
  split; Z.div_mod_to_equations; lia.
Qed.

Lemma calc_min_moves_formula_witness :
  calc_min_moves true 6 = 1 /\ calc_min_moves false 6 = 2.
Proof. apply (calc_min_moves_formula 6). lia. Defined.

(** ** Committing a move (C6) *)

(** C6. A Move input with the selection on an occupied cell changes nothing
    at all; on a free cell it writes the symbol of the side to move there,
    adds one to the moves counter, hands the turn to the opponent, and leaves
    the other cells, the selection and the status alone. *)
Theorem move_commit_semantics (st : GameState) :
  in_range (selection st) -> 0 <= moves st < 255 ->
  (game_board_cell (board st) (selection st) <> FREE_MOVE ->
   process_game_input st MOVE_INPUT = (false, st))
  /\ (game_board_cell (board st) (selection st) = FREE_MOVE ->
      let st' := snd (process_game_input st MOVE_INPUT) in
      fst (process_game_input st MOVE_INPUT) = false
      /\ game_board_cell (board st') (selection st) = actor_to_move (turn st)
      /\ (forall pos, in_range pos -> pos <> selection st ->
            game_board_cell (board st') pos = game_board_cell (board st) pos)
      /\ moves st' = moves st + 1
      /\ turn st' = opponent_actor (turn st)
      /\ selection st' = selection st
      /\ endgame st' = endgame st).
Proof.
  intros Hsel Hm. cbn [process_game_input]. split; intros Hcell.
  - destruct (Move_eqb _ FREE_MOVE) eqn:E; [|reflexivity].
    apply Move_eqb_eq in E. contradiction.
  - rewrite Hcell. cbn [Move_eqb fst snd board moves turn selection endgame].
    repeat split.
    + apply set_get_same, Hsel.
    + intros pos Hpos Hne. apply set_get_other; assumption.
    + apply uint8_small. lia.
Qed.

Lemma move_commit_semantics_witness :
  let st := play (initial_state 0) three_moves in
  process_game_input st MOVE_INPUT = (false, st)
  /\ moves (snd (process_game_input (initial_state 0) MOVE_INPUT)) = 1.
Proof.
  split.
  - apply (proj1 (move_commit_semantics (play (initial_state 0) three_moves)
                    ltac:(unfold in_range; cbn; lia) ltac:(cbn; lia))).
    discriminate.
  - apply (proj2 (move_commit_semantics (initial_state 0)
                    ltac:(unfold in_range; cbn; lia) ltac:(cbn; lia)) eq_refl).
Defined.

(** ** The draw detector (C1) *)

Lemma has_winner_spec (b : GameBoard) :
  has_winner b = true
  <-> test_move_print_winner (t_x (get_move_print_triplet b)) <> 0
      \/ test_move_print_winner (t_o (get_move_print_triplet b)) <> 0.
Proof.
  unfold has_winner. cbv zeta.
  rewrite orb_true_iff, !negb_true_iff, !Z.eqb_neq. tauto.
Qed.

Lemma in_scan_positions (p : Vec2) : in_range p -> In p scan_positions.
Proof. intros Hp. split_pos p; cbn; tauto. Qed.

Lemma free_cell_count_pos (b : GameBoard) (p : Vec2) :
  in_range p -> game_board_cell b p = FREE_MOVE -> 0 < count_cells FREE_MOVE b.
Proof.
  intros Hp Hfree. destruct b as [[a0 a1 a2] [b0 b1 b2] [d0 d1 d2]].
  split_pos p; cbn in Hfree; subst;
    unfold count_cells, count_row; cbn [r0 r1 r2 c0 c1 c2 Move_eqb];
    repeat match goal with |- context [if ?c then _ else _] => destruct c end; lia.
Qed.

(** What one input does to the board and the turn. *)
Lemma process_game_input_cases (st : GameState) (i : GameInput) :
  in_range (selection st) ->
  let st' := snd (process_game_input st i) in
  in_range (selection st')
  /\ ((board st' = board st /\ turn st' = turn st)
      \/ (game_board_cell (board st) (selection st) = FREE_MOVE
          /\ board st'
             = set_game_board_cell (board st) (selection st) (actor_to_move (turn st))
          /\ turn st' = opponent_actor (turn st))).
Proof.
  intros [Hx Hy]. cbv zeta.
  destruct i; cbn [process_game_input snd board turn selection].
  1-5: split; [|left; split; reflexivity]; split; cbn [vx vy];
       auto using cursor_back, cursor_forth.
  destruct (Move_eqb (game_board_cell (board st) (selection st)) FREE_MOVE) eqn:E;
    cbn [snd board turn selection]; (split; [split; assumption|]).
  - right. apply Move_eqb_eq in E. auto.
  - left. auto.
Qed.

(** The search [can_complete] covers every run of the program. *)
Lemma play_can_complete (inputs : list GameInput) :
  forall (st : GameState) (fuel : nat),
    in_range (selection st) ->
    turn st = X_ACTOR \/ turn st = O_ACTOR ->
    count_cells FREE_MOVE (board st) <= Z.of_nat fuel ->
    has_winner (board (play st inputs)) = true ->
    can_complete fuel (board st) (turn st) = true.
Proof.
  induction inputs as [|i inputs IH]; intros st fuel Hsel Hturn Hfuel Hwin.
  - cbn [play fold_left] in Hwin.
    destruct fuel; cbn [can_complete]; rewrite Hwin; reflexivity.
  - change (play st (i :: inputs))
      with (play (snd (process_game_input st i)) inputs) in Hwin.
    destruct (process_game_input_cases st i Hsel) as [Hsel' Hcases].
    set (st' := snd (process_game_input st i)) in *.
    destruct Hcases as [[Hb Ht] | (Hfree & Hb & Ht)].
    + rewrite <- Hb, <- Ht. apply (IH st' fuel); try assumption.
      * rewrite Ht. exact Hturn.
      * rewrite Hb. exact Hfuel.
    + pose proof (free_cell_count_pos _ _ Hsel Hfree) as Hpos.
      destruct fuel as [|fuel']; [cbn in Hfuel; lia|].
      cbn [can_complete]. apply orb_true_iff. right.
      apply existsb_exists. exists (selection st).
      split; [apply in_scan_positions, Hsel|].
      rewrite Hfree. cbn [Move_eqb andb]. rewrite <- Hb, <- Ht.
      apply (IH st' fuel'); try assumption.
      * rewrite Ht. destruct Hturn as [-> | ->]; cbn; auto.
      * rewrite Hb, count_cells_set by assumption.
        assert (Move_eqb (actor_to_move (turn st)) FREE_MOVE = false) as ->
          by (destruct Hturn as [-> | ->]; reflexivity).
        cbn [Move_eqb]. lia.
Qed.

(** The verdict of [process_game_state] does not look at the selection. *)
Lemma process_game_state_unselect (g : Actor) (st : GameState) :
  endgame (snd (process_game_state g st))
  = endgame (snd (process_game_state g (unselect st))).
Proof.
  unfold process_game_state, unselect, set_endgame;
    cbn [board moves turn selection endgame].
  repeat match goal with
         | |- context [if ?c then _ else _] => destruct c
         end; reflexivity.
Qed.

Lemma canonical_of_consistent (s : Actor) (st : GameState) :
  consistent s st -> canonical_state (board st) s = Some (unselect st).
Proof.
  intros (_ & _ & He & Hm & Hcs & Hco & Ht). unfold canonical_state, unselect.
  cbv zeta. rewrite <- Hm, Hcs, Hco, !Z.eqb_refl, <- Ht, He. reflexivity.
Qed.

Lemma draw_ok_board (b : GameBoard) (s : Actor) :
  s = X_ACTOR \/ s = O_ACTOR -> draw_ok b s = true.
Proof.
  intros Hs. pose proof (check_all_boards _ draw_ok_all b) as H.
  apply andb_true_iff in H.
  destruct Hs as [-> | ->]; [exact (proj1 H) | exact (proj2 H)].
Qed.

(** C1. On every state of alternating play: the draw detector does not set
    the status to Draw when some sequence of legal inputs leads to a board
    on which either side has completed one of the eight lines; and on a full
    board without a winner it sets the status to Draw.  [starter] is the
    value that the static variable of [process_game_state] took at move 0. *)
Theorem forced_draw_soundness (starter : Actor) (st : GameState) :
  reachable_from starter st ->
  let verdict := endgame (snd (process_game_state starter st)) in
  ((exists inputs,
       let t := get_move_print_triplet (board (play st inputs)) in
       test_move_print_winner (t_x t) <> 0 \/ test_move_print_winner (t_o t) <> 0) ->
   verdict <> GAME_DRAW)
  /\ (let t := get_move_print_triplet (board st) in
      t_free t = 0 ->
      test_move_print_winner (t_x t) = 0 ->
      test_move_print_winner (t_o t) = 0 ->
      verdict = GAME_DRAW).
Proof.
  intros Hreach. apply reachable_consistent in Hreach.
  pose proof (draw_ok_board (board st) starter (proj1 Hreach)) as Hok.
  unfold draw_ok in Hok.
  rewrite (canonical_of_consistent _ _ Hreach) in Hok.
  rewrite <- process_game_state_unselect in Hok.
  cbn [unselect moves turn] in Hok. cbv zeta.
  apply andb_true_iff in Hok. destruct Hok as [Hsound Hfull]. split.
  - intros (inputs & Hwin) Hdraw. rewrite Hdraw in Hsound.
    cbn [EndGame_eqb] in Hsound.
    apply negb_true_iff in Hsound.
    rewrite (play_can_complete inputs st) in Hsound; try discriminate.
    + apply Hreach.
    + apply (consistent_turn _ _ Hreach).
    + pose proof (consistent_moves_bound _ _ Hreach).
      pose proof (count_cells_total (board st)).
      destruct Hreach as (_ & _ & _ & Hm & _). lia.
    + apply has_winner_spec, Hwin.
  - intros Hfree Hx Ho.
    assert (has_winner (board st) = false) as Hnw.
    { unfold has_winner. cbv zeta. rewrite Hx, Ho. reflexivity. }
    rewrite Hfree, Hnw in Hfull. cbn [Z.eqb andb negb] in Hfull.
    destruct (endgame (snd (process_game_state starter st))); try discriminate.
    reflexivity.
Qed.

Lemma forced_draw_soundness_witness :
  endgame (snd (process_game_state X_ACTOR (play (initial_state 0) three_moves)))
  <> GAME_DRAW
  /\ moves (play (initial_state 0) full_game) = 9
  /\ endgame (snd (process_game_state X_ACTOR (play (initial_state 0) full_game)))
     = GAME_DRAW.
Proof.
  split; [|split; [reflexivity|]].
  - apply (proj1 (forced_draw_soundness X_ACTOR (play (initial_state 0) three_moves)
                    ltac:(exists 0, three_moves; repeat split; reflexivity || lia))).
    exists finish_column. left. vm_compute. discriminate.
  - apply (proj2 (forced_draw_soundness X_ACTOR (play (initial_state 0) full_game)
                    ltac:(exists 0, full_game; repeat split; reflexivity || lia)));
      reflexivity.
Defined.

(** ** The event loop and the static variable *)

Lemma process_game_state_cases (g : Actor) (st : GameState) :
  fst (process_game_state g st) = (if moves st =? 0 then turn st else g)
  /\ (snd (process_game_state g st) = st
      \/ exists e, e <> RUNNING /\ snd (process_game_state g st) = set_endgame st e).
Proof.
  unfold process_game_state.
  repeat match goal with
         | |- context [if ?c then _ else _] => destruct c
         end; cbn [fst snd]; split; try reflexivity; auto;
    right; eexists; (split; [|reflexivity]); discriminate.
Qed.

Lemma process_game_state_running (g : Actor) (st : GameState) :
  endgame (snd (process_game_state g st)) = RUNNING ->
  snd (process_game_state g st) = st.
Proof.
  intros H. destruct (proj2 (process_game_state_cases g st)) as [E | (e & He & E)];
    [exact E|]. rewrite E in H. cbn in H. contradiction.
Qed.

Lemma render_game_endgame (st st' : GameState) (rands rands' : list Z) :
  render_game st rands = Some (st', rands') -> endgame st' = endgame st.
Proof.
  unfold render_game. destruct (endgame st) eqn:E; intros H.
  2: destruct (game_board_fill_animation _ _ _ _) as [[b' r']|]; [|discriminate].
  all: injection H as <- _; cbn; auto.
Qed.

(** An iteration after which the loop goes on ran on a running state, left
    it to the renderer untouched and handed it to [process_game_input]. *)
Lemma game_event_loop_continue (g g' : Actor) (st st' : GameState)
  (rands rands' : list Z) (input : GameInput) :
  game_event_loop g st rands input = Some (true, (g', st', rands')) ->
  endgame (snd (process_game_state g st)) = RUNNING
  /\ g' = fst (process_game_state g st)
  /\ st' = snd (process_game_input (snd (process_game_state g st)) input).
Proof.
  unfold game_event_loop.
  destruct (process_game_state g st) as [g1 st1]. cbn [fst snd].
  destruct (render_game st1 rands) as [[st2 rands2]|] eqn:R; [|discriminate].
  pose proof (render_game_endgame _ _ _ _ R) as He.
  destruct (EndGame_eqb (endgame st2) RUNNING) eqn:E; cbn [negb]; [|discriminate].
  assert (endgame st1 = RUNNING) as Hrun
    by (rewrite <- He; destruct (endgame st2); try discriminate; reflexivity).
  unfold render_game in R. rewrite Hrun in R. injection R as <- <-.
  destruct (process_game_input st1 input) as [q st3] eqn:P.
  intros H. injection H as _ <- <- _. auto.
Qed.

(** At the head of every iteration the state is one of alternating play
    and, after move 0, the static variable holds the side that began. *)
Lemma loop_reach_inv (r : Z) (g : Actor) (st : GameState) :
  0 <= r -> loop_reach r g st ->
  reachable_from (turn (initial_state r)) st
  /\ (moves st <> 0 -> g = turn (initial_state r)).
Proof.
  intros Hr Hloop. induction Hloop as [g | g st rands input g' st' rands' _ IH Hstep].
  - split; [|intros H; contradiction H; reflexivity].
    exists r, []. auto.
  - destruct IH as [Hreach Hstatic].
    apply game_event_loop_continue in Hstep. destruct Hstep as (Hrun & -> & ->).
    rewrite (process_game_state_running _ _ Hrun).
    pose proof (reachable_consistent _ _ Hreach) as Hc.
    split.
    + destruct Hreach as (r' & inputs & Hr' & Hs & ->).
      exists r', (inputs ++ [input]). rewrite play_snoc. auto.
    + intros _. rewrite (proj1 (process_game_state_cases g st)).
      destruct (Z.eqb_spec (moves st) 0) as [E | E]; [|auto].
      destruct Hc as (_ & _ & _ & _ & _ & _ & Ht). rewrite Ht, E. reflexivity.
Qed.

(** ** The strategy proposes free cells (C7) *)

Lemma cortex_unfold (view : GameState) (goal : Vec2) (rand_a rand_b : Z) :
  moves view <> 0 ->
  avarage_ai_cortex view goal rand_a rand_b
  = match cortex_choice (board view) (turn view) goal with
    | inl goal' => goal'
    | inr opts => avarage_ai_move_options_pick opts rand_a
    end.
Proof.
  intros Hm. unfold avarage_ai_cortex, cortex_choice, cortex_pools. cbv zeta.
  destruct (Z.eqb_spec (moves view) 0) as [E | _]; [contradiction|].
  destruct (cortex_scan _ _ _ _ _) as [goal' | pools]; [reflexivity|].
  destruct (0 <? len (danger_cells pools)); [reflexivity|].
  destruct (0 <? len (avarage_moves pools)); reflexivity.
Qed.

(** Whatever [rand()] returns, the pick is one of the stored options. *)
Lemma pick_in_options (opts : AvarageAIMoveOptions) (r : Z) :
  0 < len opts -> 0 <= r ->
  In (avarage_ai_move_options_pick opts r) (options_list opts).
Proof.
  intros Hlen Hr. unfold avarage_ai_move_options_pick, options_list.
  destruct (Z.eqb_spec (len opts) 0) as [E | _]; [lia|].
  destruct (Z.eqb_spec (len opts) 1) as [E | _].
  - apply (in_map (fun k => nth k (opt_moves opts) (vec2 0 0))).
    apply in_seq. rewrite E. cbn. lia.
  - apply (in_map (fun k => nth k (opt_moves opts) (vec2 0 0))).
    apply in_seq. pose proof (Z.rem_bound_pos r (len opts) Hr Hlen). lia.
Qed.

(** The old goal only matters to the scan if [move_print_coords] writes
    nothing, and then it is what the scan returns. *)
Lemma cortex_scan_goal (lines : list Z) (mine theirs : MovePrint) (goal : Vec2) :
  forall pools,
    match cortex_scan lines mine theirs AI_THINKING_STATE pools with
    | inl v => in_range v -> cortex_scan lines mine theirs goal pools = inl v
    | inr p => cortex_scan lines mine theirs goal pools = inr p
    end.
Proof.
  induction lines as [|i lines IH]; intros pools; [reflexivity|].
  cbn [cortex_scan]. cbv zeta.
  destruct (avarage_ai_test_winner _ _).
  - destruct (move_print_coords _) as [|p coords]; cbn [nth]; [|reflexivity].
    unfold AI_THINKING_STATE, in_range; cbn. lia.
  - destruct (avarage_ai_is_line_potentially_useless _ _); [apply IH|].
    destruct (avarage_ai_test_winner _ _); apply IH.
Qed.

Lemma cortex_pools_goal (b : GameBoard) (me : Actor) (goal : Vec2) :
  match cortex_pools b me AI_THINKING_STATE with
  | inl v => in_range v -> cortex_pools b me goal = inl v
  | inr pools => cortex_pools b me goal = inr pools
  end.
Proof. unfold cortex_pools. cbv zeta. apply cortex_scan_goal. Qed.

Lemma cortex_choice_goal (b : GameBoard) (me : Actor) (goal : Vec2) :
  match cortex_choice b me AI_THINKING_STATE with
  | inl v => in_range v -> cortex_choice b me goal = inl v
  | inr opts => cortex_choice b me goal = inr opts
  end.
Proof.
  unfold cortex_choice. pose proof (cortex_pools_goal b me goal) as H.
  destruct (cortex_pools b me AI_THINKING_STATE) as [v | pools].
  - intros Hv. rewrite (H Hv). reflexivity.
  - rewrite H.
    destruct (0 <? len (danger_cells pools)); [reflexivity|].
    destruct (0 <? len (avarage_moves pools)); reflexivity.
Qed.

Lemma free_cell_spec (b : GameBoard) (pos : Vec2) :
  free_cell b pos = true <-> in_range pos /\ game_board_cell b pos = FREE_MOVE.
Proof.
  unfold free_cell. rewrite andb_true_iff, in_rangeb_spec, Move_eqb_eq. tauto.
Qed.

Lemma cortex_ok_board (b : GameBoard) (s : Actor) :
  s = X_ACTOR \/ s = O_ACTOR -> cortex_ok b s = true.
Proof.
  intros Hs. pose proof (check_all_boards _ cortex_ok_all b) as H.
  apply andb_true_iff in H.
  destruct Hs as [-> | ->]; [exact (proj1 H) | exact (proj2 H)].
Qed.

(** Before the first move every cell is free. *)
Lemma start_board_free (s : Actor) (st : GameState) (pos : Vec2) :
  consistent s st -> moves st = 0 -> in_range pos ->
  game_board_cell (board st) pos = FREE_MOVE.
Proof.
  intros Hc Hm Hpos.
  pose proof (cortex_ok_board (board st) s (proj1 Hc)) as Hok.
  unfold cortex_ok in Hok. rewrite (canonical_of_consistent _ _ Hc) in Hok.
  cbn [unselect moves] in Hok.
  apply (if_true_elim _ _ _ (proj2 (Z.eqb_eq _ _) Hm)) in Hok.
  rewrite forallb_forall in Hok.
  apply free_cell_spec, Hok, in_scan_positions, Hpos.
Qed.

(** The goal of the strategy on a state of alternating play that the
    detector of the game begun by [s] leaves running. *)
Lemma cortex_free_consistent (s : Actor) (st : GameState) (goal : Vec2)
  (rand_a rand_b : Z) :
  consistent s st ->
  endgame (snd (process_game_state s st)) = RUNNING ->
  0 <= rand_a -> 0 <= rand_b ->
  free_cell (board st) (avarage_ai_cortex st goal rand_a rand_b) = true.
Proof.
  intros Hc Hrun Ha Hb.
  pose proof (cortex_ok_board (board st) s (proj1 Hc)) as Hok.
  unfold cortex_ok in Hok. rewrite (canonical_of_consistent _ _ Hc) in Hok.
  rewrite <- process_game_state_unselect in Hok.
  cbn [unselect moves turn] in Hok.
  destruct (Z.eqb_spec (moves st) 0) as [E | E].
  - rewrite forallb_forall in Hok. apply Hok, in_scan_positions.
    unfold avarage_ai_cortex.
    rewrite (proj2 (Z.eqb_eq _ _) E).
    split; cbn [vx vy]; apply Z.rem_bound_pos; lia.
  - apply (if_true_elim _ _ _ (proj2 (EndGame_eqb_eq _ _) Hrun)) in Hok.
    rewrite (cortex_unfold _ _ _ _ E).
    pose proof (cortex_choice_goal (board st) (turn st) goal) as Hg.
    destruct (cortex_choice (board st) (turn st) AI_THINKING_STATE) as [v | opts].
    + rewrite Hg; [exact Hok|]. apply free_cell_spec in Hok. apply Hok.
    + rewrite Hg. apply andb_true_iff in Hok. destruct Hok as [Hlen Hall].
      rewrite forallb_forall in Hall. apply Hall, pick_in_options; [|exact Ha].
      apply Z.ltb_lt, Hlen.
Qed.

(** C7. In every iteration of the event loop in which the game is still
    running, [avarage_ai_cortex] sets its goal to a cell of the board that is
    free, whatever [rand()] returns and whichever pool the goal comes
    from. *)
Theorem cortex_goal_is_free (r : Z) (g : Actor) (st : GameState) (goal : Vec2)
  (rand_a rand_b : Z) :
  0 <= r -> loop_reach r g st ->
  endgame (snd (process_game_state g st)) = RUNNING ->
  0 <= rand_a -> 0 <= rand_b ->
  let view := snd (process_game_state g st) in
  let goal' := avarage_ai_cortex view goal rand_a rand_b in
  in_range goal' /\ game_board_cell (board view) goal' = FREE_MOVE.
Proof.
  intros Hr Hloop Hrun Ha Hb. cbv zeta.
  destruct (loop_reach_inv r g st Hr Hloop) as [Hreach Hstatic].
  apply reachable_consistent in Hreach.
  rewrite (process_game_state_running _ _ Hrun).
  apply free_cell_spec.
  apply (cortex_free_consistent (turn (initial_state r))); try assumption.
  destruct (Z.eqb_spec (moves st) 0) as [E | E].
  - unfold process_game_state. rewrite E. cbn.
    destruct Hreach as (_ & _ & He & _). exact He.
  - rewrite <- (Hstatic E). exact Hrun.
Qed.

Lemma run_loop_reach (r : Z) (inputs : list GameInput) :
  forall g st rands g' st' rands',
    loop_reach r g st ->
    run_loop g st rands inputs = Some (true, (g', st', rands')) ->
    loop_reach r g' st'.
Proof.
  induction inputs as [|input inputs IH]; intros g st rands g' st' rands' Hloop Hrun.
  - cbn [run_loop] in Hrun. injection Hrun as <- <- _. exact Hloop.
  - cbn [run_loop] in Hrun.
    destruct (game_event_loop g st rands input) as [[[] [[g1 st1] rands1]]|] eqn:E;
      try discriminate.
    apply (IH g1 st1 rands1 g' st' rands'); [|exact Hrun].
    apply (loop_next r g st rands input g1 st1 rands1 Hloop E).
Qed.

Lemma cortex_goal_is_free_witness :
  let view :=
    snd (process_game_state X_ACTOR (play (initial_state 0) three_moves)) in
  let goal' := avarage_ai_cortex view AI_THINKING_STATE 5 7 in
  goal' = vec2 0 2
  /\ in_range goal' /\ game_board_cell (board view) goal' = FREE_MOVE.
Proof.
  split; [reflexivity|].
  apply (cortex_goal_is_free 0 X_ACTOR (play (initial_state 0) three_moves)
           AI_THINKING_STATE 5 7).
  - lia.
  - apply (run_loop_reach 0 three_moves NULL_ACTOR (initial_state 0) []
             X_ACTOR _ []).
    + apply loop_start.
    + reflexivity.
  - reflexivity.
  - lia.
  - lia.
Defined.

(** After move 0, while the game goes on, the goal never comes from the
    low-priority pool: the scan returns early, or the danger pool or the
    neutral pool holds a cell. *)
Lemma low_priority_pool_unused (r : Z) (g : Actor) (st : GameState) (goal : Vec2) :
  0 <= r -> loop_reach r g st -> moves st <> 0 ->
  endgame (snd (process_game_state g st)) = RUNNING ->
  match cortex_pools (board st) (turn st) goal with
  | inl _ => True
  | inr pools => 0 < len (danger_cells pools) \/ 0 < len (avarage_moves pools)
  end.
Proof.
  intros Hr Hloop Hm Hrun.
  destruct (loop_reach_inv r g st Hr Hloop) as [Hreach Hstatic].
  apply reachable_consistent in Hreach. rewrite (Hstatic Hm) in Hrun.
  set (s := turn (initial_state r)) in *.
  assert (pool_ok (board st) s = true) as Hok.
  { pose proof (check_all_boards _ pool_ok_all (board st)) as H.
    apply andb_true_iff in H.
    destruct (proj1 Hreach) as [-> | ->]; [exact (proj1 H) | exact (proj2 H)]. }
  unfold pool_ok in Hok. rewrite (canonical_of_consistent _ _ Hreach) in Hok.
  rewrite <- process_game_state_unselect in Hok.
  cbn [unselect moves turn] in Hok.
  apply (if_false_elim _ _ _ (proj2 (Z.eqb_neq _ _) Hm)) in Hok.
  apply (if_true_elim _ _ _ (proj2 (EndGame_eqb_eq _ _) Hrun)) in Hok.
  pose proof (cortex_ok_board (board st) s (proj1 Hreach)) as Hfree.
  unfold cortex_ok in Hfree. rewrite (canonical_of_consistent _ _ Hreach) in Hfree.
  rewrite <- process_game_state_unselect in Hfree.
  cbn [unselect moves turn] in Hfree.
  apply (if_false_elim _ _ _ (proj2 (Z.eqb_neq _ _) Hm)) in Hfree.
  apply (if_true_elim _ _ _ (proj2 (EndGame_eqb_eq _ _) Hrun)) in Hfree.
  revert Hfree. unfold cortex_choice. intros Hfree.
  pose proof (cortex_pools_goal (board st) (turn st) goal) as Hg.
  destruct (cortex_pools (board st) (turn st) AI_THINKING_STATE) as [v | pools].
  - apply free_cell_spec in Hfree. rewrite (Hg (proj1 Hfree)). exact I.
  - rewrite Hg. apply orb_true_iff in Hok. rewrite !Z.ltb_lt in Hok. exact Hok.
Qed.

(** The low-priority pool does hold cells of the opponent: on the drawn
    board of [draw_game], where the strategy is not asked any more, the
    pick from it is the cell (1,0), which holds an O. *)
Lemma low_priority_pool_holds_taken_cells :
  let st := play (initial_state 0) draw_game in
  avarage_ai_cortex st AI_THINKING_STATE 0 0 = vec2 1 0
  /\ game_board_cell (board st) (vec2 1 0) = O_MOVE
  /\ endgame (snd (process_game_state X_ACTOR st)) = GAME_DRAW.
Proof. vm_compute. repeat split. Qed.

(** ** A finishing move comes first (C8) *)

Lemma find_range (f : Z -> bool) (n : nat) :
  forall s i : nat,
    (s <= i < s + n)%nat -> f (Z.of_nat i) = true ->
    exists j : nat,
      find f (map Z.of_nat (seq s n)) = Some (Z.of_nat j)
      /\ (s <= j <= i)%nat /\ f (Z.of_nat j) = true
      /\ (forall k : nat, (s <= k < j)%nat -> f (Z.of_nat k) = false).
Proof.
  induction n as [|n IH]; intros s i Hi Hf; [lia|].
  cbn [seq map find]. destruct (f (Z.of_nat s)) eqn:E.
  - exists s. repeat split; auto; lia.
  - assert (i <> s) as Hne by (intros ->; congruence).
    destruct (IH (S s) i ltac:(lia) Hf) as (j & Hfind & Hj & Hfj & Hmin).
    exists j. repeat split; auto; try lia.
    intros k Hk. destruct (Nat.eq_dec k s) as [-> | Hks]; [exact E|].
    apply Hmin. lia.
Qed.

Lemma first_finishing_some (mine theirs : MovePrint) (i : Z) :
  0 <= i < 8 -> finishing_line mine theirs i = true ->
  exists j,
    first_finishing mine theirs (upto 8) = Some j
    /\ 0 <= j <= i /\ finishing_line mine theirs j = true
    /\ (forall k, 0 <= k < j -> finishing_line mine theirs k = false).
Proof.
  intros Hi Hf.
  destruct (find_range (finishing_line mine theirs) 8 0 (Z.to_nat i))
    as (j & Hfind & Hj & Hfj & Hmin).
  - lia.
  - rewrite Z2Nat.id by lia. exact Hf.
  - exists (Z.of_nat j). split; [exact Hfind|]. split; [lia|]. split; [exact Hfj|].
    intros k Hk. rewrite <- (Z2Nat.id k) by lia. apply Hmin. lia.
Qed.

Lemma finishing_line_spec (mine theirs : MovePrint) (i : Z) :
  finishing_line mine theirs i = true
  <-> move_print_count (Z.land mine (match_move_print i)) = 2
      /\ Z.land theirs (match_move_print i) = 0.
Proof. unfold finishing_line. rewrite andb_true_iff, !Z.eqb_eq. tauto. Qed.

Lemma Vec2_eqb_eq (p q : Vec2) : Vec2_eqb p q = true <-> p = q.
Proof.
  destruct p as [px py], q as [qx qy]. unfold Vec2_eqb; cbn [vx vy].
  rewrite andb_true_iff, !Z.eqb_eq. split.
  - intros [-> ->]. reflexivity.
  - intros H. injection H as -> ->. auto.
Qed.

Lemma singleton_nth {A : Type} (l : list A) (d : A) :
  length l = 1%nat -> l = [nth 0 l d].
Proof. destruct l as [|a [|b l]]; cbn; intros H; try discriminate; reflexivity. Qed.

Lemma finish_check_spec (mine theirs : MovePrint) (b : GameBoard) (t : Actor) (j : Z) :
  finish_check mine theirs b t = true ->
  first_finishing mine theirs (upto 8) = Some j ->
  count_cells X_MOVE b + count_cells O_MOVE b <> 0
  /\ exists goal',
       cortex_choice b t AI_THINKING_STATE = inl goal'
       /\ free_cell b goal' = true
       /\ move_print_inspec (match_move_print j) goal' = true
       /\ move_print_coords
            (Z.lxor (Z.land mine (match_move_print j)) (match_move_print j))
          = [goal'].
Proof.
  unfold finish_check. intros H Hj. rewrite Hj in H. cbv zeta in H.
  apply andb_true_iff in H. destruct H as [Hm H].
  apply negb_true_iff, Z.eqb_neq in Hm. split; [exact Hm|].
  destruct (cortex_choice b t AI_THINKING_STATE) as [goal' | opts]; [|discriminate].
  exists goal'. rewrite !andb_true_iff in H.
  destruct H as [[[Hfree Hon] Hlen] Heq].
  apply Nat.eqb_eq in Hlen. apply Vec2_eqb_eq in Heq.
  repeat split; auto.
  rewrite (singleton_nth _ (vec2 0 0) Hlen), <- Heq. reflexivity.
Qed.

(** C8. On a state of alternating play, whenever some line (the [i]th)
    holds exactly two cells of the side to move and none of the opponent,
    [avarage_ai_cortex] returns the single missing cell of such a line, the
    first one in the order of [match_move_prints]: a free cell on that line.
    The pools of blocking, neutral and low-priority cells and the values of
    [rand()] have no say in it. *)
Theorem finish_first (starter : Actor) (st : GameState) (goal : Vec2)
  (rand_a rand_b i : Z) :
  reachable_from starter st -> 0 <= i < 8 ->
  let t := get_move_print_triplet (board st) in
  let mine := actor_moves (turn st) t in
  let theirs := actor_moves (opponent_actor (turn st)) t in
  move_print_count (Z.land mine (match_move_print i)) = 2 ->
  Z.land theirs (match_move_print i) = 0 ->
  exists j,
    0 <= j <= i
    /\ move_print_count (Z.land mine (match_move_print j)) = 2
    /\ Z.land theirs (match_move_print j) = 0
    /\ (forall k, 0 <= k < j -> finishing_line mine theirs k = false)
    /\ let goal' := avarage_ai_cortex st goal rand_a rand_b in
       move_print_coords
         (Z.lxor (Z.land mine (match_move_print j)) (match_move_print j)) = [goal']
       /\ move_print_inspec (match_move_print j) goal' = true
       /\ in_range goal'
       /\ game_board_cell (board st) goal' = FREE_MOVE.
Proof.
  intros Hreach Hi t mine theirs Hcount Hnone.
  apply reachable_consistent in Hreach.
  destruct (first_finishing_some mine theirs i Hi
              (proj2 (finishing_line_spec _ _ _) (conj Hcount Hnone)))
    as (j & Hfind & Hj & Hfj & Hmin).
  apply finishing_line_spec in Hfj. destruct Hfj as [Hcj Hnj].
  exists j. repeat (split; [assumption|]).
  pose proof (check_all_boards _ finish_check_all (board st)) as Hok.
  cbv beta in Hok. apply andb_true_iff in Hok.
  assert (finish_check mine theirs (board st) (turn st) = true) as Hcheck.
  { subst mine theirs t.
    destruct (consistent_turn _ _ Hreach) as [-> | ->];
      cbn [actor_moves opponent_actor]; [exact (proj1 Hok) | exact (proj2 Hok)]. }
  destruct (finish_check_spec _ _ _ _ _ Hcheck Hfind)
    as (Hmoves & goal' & Hchoice & Hfree & Hon & Hcoords).
  assert (moves st <> 0) as Hm.
  { destruct Hreach as (_ & _ & _ & Hm & _). rewrite Hm. exact Hmoves. }
  apply free_cell_spec in Hfree.
  pose proof (cortex_choice_goal (board st) (turn st) goal) as Hg.
  rewrite Hchoice in Hg. cbv zeta.
  rewrite (cortex_unfold _ _ _ _ Hm), (Hg (proj1 Hfree)).
  tauto.
Qed.

Lemma finish_first_witness :
  let st := play (initial_state 0) finish_or_block in
  avarage_ai_test_winner
    (Z.land (t_o (get_move_print_triplet (board st))) (match_move_print 4))
    (Z.land (t_x (get_move_print_triplet (board st))) (match_move_print 4)) = true
  /\ exists j,
       0 <= j <= 3
       /\ avarage_ai_cortex st AI_THINKING_STATE 1 1 = vec2 0 2
       /\ move_print_inspec (match_move_print j) (vec2 0 2) = true.
Proof.
  split; [reflexivity|].
  destruct (finish_first X_ACTOR (play (initial_state 0) finish_or_block)
              AI_THINKING_STATE 1 1 3
              ltac:(exists 0, finish_or_block; repeat split; reflexivity || lia)
              ltac:(lia) eq_refl eq_refl)
    as (j & Hj & _ & _ & _ & _ & Hon & _).
  exists j. split; [exact Hj|]. split; [reflexivity|]. exact Hon.
Defined.

(** ** The first move of the strategy (C10) *)

Lemma upto_snoc3 (n : nat) :
  upto (3 * S n)
  = upto (3 * n)
    ++ [3 * Z.of_nat n; 3 * Z.of_nat n + 1; 3 * Z.of_nat n + 2].
Proof.
  unfold upto. replace (3 * S n)%nat with (3 * n + 3)%nat by lia.
  rewrite seq_app, map_app. cbn [seq map Nat.add]. f_equal.
  repeat f_equal; lia.
Qed.

(** Among the values [0 .. 3n-1] of [rand()], each residue modulo 3 is
    taken by exactly [n]. *)
Lemma rem3_count (n : nat) (c : Z) :
  0 <= c < 3 ->
  length (filter (fun r => Z.rem r 3 =? c) (upto (3 * n))) = n.
Proof.
  intros Hc. induction n as [|n IH]; [reflexivity|].
  rewrite upto_snoc3, filter_app, length_app, IH.
  assert (forall k, 0 <= k < 3 -> Z.rem (3 * Z.of_nat n + k) 3 = k) as Hrem.
  { intros k Hk. rewrite Z.rem_mod_nonneg by lia.
    replace (3 * Z.of_nat n + k) with (k + Z.of_nat n * 3) by ring.
    rewrite Z.mod_add by lia. apply Z.mod_small. lia. }
  cbn [filter]. rewrite (Hrem 1), (Hrem 2) by lia.
  replace (3 * Z.of_nat n) with (3 * Z.of_nat n + 0) by ring.
  rewrite (Hrem 0) by lia.
  assert (c = 0 \/ c = 1 \/ c = 2) as [-> | [-> | ->]] by lia; cbn; lia.
Qed.

(** C10. With the moves counter at 0, [avarage_ai_cortex] sets the goal to
    [(rand() % 3, rand() % 3)] whatever the board holds: no line is scanned
    and no cell is tested for being free, so that every one of the nine
    positions, free or not, is the goal for some values of [rand()].  Each
    coordinate takes each of its three values for as many of the values
    [0 .. 3n-1] of [rand()] as the other two.  On a state of alternating
    play every cell is free while the counter is at 0. *)
Theorem cortex_first_move (view : GameState) (goal : Vec2) (rand_a rand_b : Z) :
  moves view = 0 ->
  avarage_ai_cortex view goal rand_a rand_b = vec2 (Z.rem rand_a 3) (Z.rem rand_b 3)
  /\ (0 <= rand_a -> 0 <= rand_b ->
      in_range (avarage_ai_cortex view goal rand_a rand_b))
  /\ (forall pos, in_range pos ->
        avarage_ai_cortex view goal (vx pos) (vy pos) = pos)
  /\ (forall (n : nat) (c : Z), 0 <= c < 3 ->
        length (filter (fun r => vx (avarage_ai_cortex view goal r rand_b) =? c)
                  (upto (3 * n))) = n
        /\ length (filter (fun r => vy (avarage_ai_cortex view goal rand_a r) =? c)
                     (upto (3 * n))) = n)
  /\ (forall starter pos,
        reachable_from starter view -> in_range pos ->
        game_board_cell (board view) pos = FREE_MOVE).
Proof.
  intros Hm.
  assert (forall a b, avarage_ai_cortex view goal a b = vec2 (Z.rem a 3) (Z.rem b 3))
    as Hcortex.
  { intros a b. unfold avarage_ai_cortex. rewrite Hm. reflexivity. }
  split; [apply Hcortex|]. split; [|split; [|split]].
  - intros Ha Hb. rewrite Hcortex.
    split; cbn [vx vy]; apply Z.rem_bound_pos; lia.
  - intros [px py] [Hx Hy]. cbn [vx vy] in *. rewrite Hcortex.
    rewrite !Z.rem_small by lia. reflexivity.
  - intros n c Hc. split.
    + rewrite <- (rem3_count n c Hc) at 2. f_equal. apply filter_ext.
      intros r. rewrite Hcortex. reflexivity.
    + rewrite <- (rem3_count n c Hc) at 2. f_equal. apply filter_ext.
      intros r. rewrite Hcortex. reflexivity.
  - intros starter pos Hreach Hpos.
    apply (start_board_free starter); auto using reachable_consistent.
Qed.

Lemma cortex_first_move_witness :
  avarage_ai_cortex (initial_state 0) AI_THINKING_STATE 7 5 = vec2 1 2
  /\ avarage_ai_cortex taken_at_start AI_THINKING_STATE 0 0 = vec2 0 0
  /\ game_board_cell (board taken_at_start) (vec2 0 0) = O_MOVE.
Proof.
  split; [|split].
  - apply (proj1 (cortex_first_move (initial_state 0) AI_THINKING_STATE 7 5 eq_refl)).
  - apply (proj1 (cortex_first_move taken_at_start AI_THINKING_STATE 0 0 eq_refl)).
  - reflexivity.
Defined.

(** ** Who writes the board (C9) *)

Lemma pick_unanimated_bound (missing_len animated : Z) (rands : list Z) :
  forall selection_ rands',
    0 < missing_len ->
    pick_unanimated missing_len animated rands = Some (selection_, rands') ->
    (Z.to_nat selection_ < Z.to_nat missing_len)%nat.
Proof.
  induction rands as [|r rands IH]; intros selection_ rands' Hlen Hpick;
    [discriminate|].
  cbn [pick_unanimated] in Hpick.
  destruct (Z.land animated (Z.shiftl 1 (Z.rem r missing_len)) =? 0).
  - injection Hpick as <- _.
    pose proof (Z.rem_bound_abs r missing_len ltac:(lia)). lia.
  - apply (IH _ _ Hlen Hpick).
Qed.

(** The fill animation leaves alone every cell that is not among the
    positions it was given. *)
Lemma fill_loop_preserves (n : nat) (missing_len : Z) (missing_coords : list Vec2) :
  forall board_ turn_ animated rands board' rands',
    (n <= Z.to_nat missing_len)%nat ->
    length missing_coords = Z.to_nat missing_len ->
    (forall p, In p missing_coords -> in_range p) ->
    fill_loop n missing_len missing_coords board_ turn_ animated rands
    = Some (board', rands') ->
    forall pos, in_range pos -> ~ In pos missing_coords ->
                game_board_cell board' pos = game_board_cell board_ pos.
Proof.
  induction n as [|n IH];
    intros board_ turn_ animated rands board' rands' Hn Hlen Hrange Hfill pos Hpos Hout.
  - cbn [fill_loop] in Hfill. injection Hfill as <- _. reflexivity.
  - cbn [fill_loop] in Hfill.
    destruct (pick_unanimated missing_len animated rands)
      as [[selection_ rands1]|] eqn:Hpick; [|discriminate].
    assert (0 < missing_len) as Hpos' by lia.
    pose proof (pick_unanimated_bound _ _ _ _ _ Hpos' Hpick) as Hsel.
    assert (In (nth (Z.to_nat selection_) missing_coords (vec2 0 0)) missing_coords)
      as Hin by (apply nth_In; lia).
    assert (n <= Z.to_nat missing_len)%nat as Hn' by lia.
    rewrite (IH _ _ _ _ _ _ Hn' Hlen Hrange Hfill pos Hpos Hout).
    apply set_get_other; [apply Hrange, Hin | exact Hpos |].
    intros ->. contradiction.
Qed.

Lemma fill_animation_preserves (board_ board' : GameBoard) (turn_ : Actor)
  (missing : MovePrint) (rands rands' : list Z) :
  length (move_print_coords missing) = Z.to_nat (move_print_count missing) ->
  (forall p, In p (move_print_coords missing) -> in_range p) ->
  game_board_fill_animation board_ turn_ missing rands = Some (board', rands') ->
  forall pos, in_range pos -> ~ In pos (move_print_coords missing) ->
              game_board_cell board' pos = game_board_cell board_ pos.
Proof.
  intros Hlen Hrange Hfill. unfold game_board_fill_animation in Hfill.
  exact (fill_loop_preserves _ _ _ _ _ _ _ _ _ (Nat.le_refl _) Hlen Hrange Hfill).
Qed.

Lemma coords_check_spec (free_moves : MovePrint) (b : GameBoard) :
  coords_check free_moves b = true ->
  length (move_print_coords free_moves) = Z.to_nat (move_print_count free_moves)
  /\ (forall p, In p (move_print_coords free_moves) ->
                in_range p /\ game_board_cell b p = FREE_MOVE).
Proof.
  unfold coords_check. rewrite andb_true_iff, Nat.eqb_eq, forallb_forall.
  intros [Hlen Hall]. split; [exact Hlen|].
  intros p Hp. apply free_cell_spec, Hall, Hp.
Qed.

(** The positions of the free mask of a board are its free cells. *)
Lemma free_coords (b : GameBoard) :
  length (move_print_coords (t_free (get_move_print_triplet b)))
  = Z.to_nat (move_print_count (t_free (get_move_print_triplet b)))
  /\ (forall p, In p (move_print_coords (t_free (get_move_print_triplet b))) ->
                in_range p /\ game_board_cell b p = FREE_MOVE).
Proof.
  exact (coords_check_spec _ b (check_all_boards _ coords_check_all b)).
Qed.

(** C9, as stated, fails: in the iteration of the event loop that finds the
    draw, [render_game] runs the fill animation on the board of the game
    state, and the three cells that were free hold marks afterwards. *)
Lemma render_writes_board :
  let st := play (initial_state 0) draw_game in
  let drawn := snd (process_game_state X_ACTOR st) in
  endgame drawn = GAME_DRAW
  /\ game_board_cell (board drawn) (vec2 2 0) = FREE_MOVE
  /\ render_game drawn [0; 1; 2] = Some (filled_state, [])
  /\ run_loop NULL_ACTOR (initial_state 0) [0; 1; 2] (draw_game ++ [MOVE_INPUT])
     = Some (false, (X_ACTOR, filled_state, []))
  /\ game_board_cell (board filled_state) (vec2 2 0) = X_MOVE
  /\ board filled_state <> board drawn.
Proof.
  vm_compute. repeat split; try reflexivity. discriminate.
Qed.

(** C9, amended. The board is written by the move committed by
    [process_game_input] and by the fill animation that [render_game] runs
    once the status is Draw, which writes only cells that were free.
    [process_game_state], every other input, a Move onto an occupied cell
    and the rendering of every other status leave the board as it is. *)
Theorem board_writers (g : Actor) (st : GameState) :
  board (snd (process_game_state g st)) = board st
  /\ (forall input, input <> MOVE_INPUT ->
        board (snd (process_game_input st input)) = board st)
  /\ (game_board_cell (board st) (selection st) <> FREE_MOVE ->
      board (snd (process_game_input st MOVE_INPUT)) = board st)
  /\ (forall rands st' rands',
        render_game st rands = Some (st', rands') ->
        (endgame st <> GAME_DRAW -> st' = st)
        /\ (forall pos, in_range pos ->
              game_board_cell (board st) pos <> FREE_MOVE ->
              game_board_cell (board st') pos = game_board_cell (board st) pos)).
Proof.
  split; [|split; [|split]].
  - destruct (proj2 (process_game_state_cases g st)) as [-> | (e & _ & ->)];
      reflexivity.
  - intros input Hinput. destruct input; try reflexivity. contradiction.
  - intros Hcell. cbn [process_game_input].
    destruct (Move_eqb _ FREE_MOVE) eqn:E; [|reflexivity].
    apply Move_eqb_eq in E. contradiction.
  - intros rands st' rands' Hrender. unfold render_game in Hrender.
    destruct (endgame st) eqn:He.
    2: destruct (game_board_fill_animation _ _ _ _) as [[b' r']|] eqn:Hfill;
       [|discriminate].
    all: injection Hrender as <- _; split; try reflexivity; try contradiction.
    intros pos Hpos Hcell. cbn [board].
    destruct (free_coords (board st)) as [Hlen Hfree].
    apply (fill_animation_preserves _ _ _ _ _ _ Hlen
             (fun p Hp => proj1 (Hfree p Hp)) Hfill pos Hpos).
    intros Hin. apply Hcell, (Hfree pos Hin).
Qed.

Lemma board_writers_witness :
  let st := play (initial_state 0) three_moves in
  board (snd (process_game_input st UP_INPUT)) = board st
  /\ board (snd (process_game_input st MOVE_INPUT)) = board st
  /\ (forall st' rands', render_game st [] = Some (st', rands') -> st' = st).
Proof.
  pose proof (board_writers NULL_ACTOR (play (initial_state 0) three_moves))
    as (_ & Hinput & Hmove & Hrender).
  split; [|split].
  - apply Hinput. discriminate.
  - apply Hmove. discriminate.
  - intros st' rands' H. apply (proj1 (Hrender [] st' rands' H)). discriminate.
Defined.

(** ** The lines that the draw detector looks at (C5) *)

(** C5, as stated, fails: for the free cell (1,0), which lies on no
    diagonal, the detector examines both diagonal patterns all the same. *)
Lemma off_diagonal_examined :
  In 273 (cell_match_prints (vec2 1 0))
  /\ In 84 (cell_match_prints (vec2 1 0))
  /\ move_print_inspec 273 (vec2 1 0) = false
  /\ move_print_inspec 84 (vec2 1 0) = false
  /\ cell_match_prints (vec2 1 0) <> spec_cell_match_prints (vec2 1 0).
Proof.
  split; [right; right; left; reflexivity|].
  split; [right; right; right; left; reflexivity|].
  split; [reflexivity|]. split; [reflexivity|].
  vm_compute. discriminate.
Qed.

Lemma line_scan (x_min_moves o_min_moves : Z) (x_moves o_moves : MovePrint)
  (a b c d : MovePrint) :
  existsb (fun j =>
      line_can_win x_min_moves o_min_moves
        (nth (Z.to_nat j) (map (Z.land x_moves) [a; b; c; d]) 0)
        (nth (Z.to_nat j) (map (Z.land o_moves) [a; b; c; d]) 0))
    (upto 4)
  = existsb (fun pattern =>
        line_can_win x_min_moves o_min_moves
          (Z.land x_moves pattern) (Z.land o_moves pattern))
      [a; b; c; d].
Proof. reflexivity. Qed.

Lemma upto_In (n : nat) (i : Z) : In i (upto n) <-> 0 <= i < Z.of_nat n.
Proof.
  unfold upto. rewrite in_map_iff. split.
  - intros (k & <- & Hk). apply in_seq in Hk. lia.
  - intros Hi. exists (Z.to_nat i). split; [lia|]. apply in_seq. lia.
Qed.

Lemma move_print_count_nonneg (print : MovePrint) : 0 <= move_print_count print.
Proof.
  unfold move_print_count.
  assert (forall l acc, 0 <= acc ->
            0 <= fold_left (fun count i => uint8 (count + Z.land (Z.shiftr print i) 1))
                   l acc) as H.
  { induction l as [|i l IH]; intros acc Hacc; [exact Hacc|].
    cbn [fold_left]. apply IH. unfold uint8. apply Z.mod_pos_bound. lia. }
  apply H. lia.
Qed.

(** The positions that [move_print_coords] writes are as many as
    [move_print_count] counts, whatever the mask. *)
Lemma coords_count_from (print : MovePrint) (l : list Z) :
  forall acc,
    0 <= acc -> acc + Z.of_nat (length l) < 256 ->
    fold_left (fun count i => uint8 (count + Z.land (Z.shiftr print i) 1)) l acc
    = acc
      + Z.of_nat (length (flat_map (fun i =>
                              if Z.land (Z.shiftr print i) 1 =? 0 then []
                              else [vec2 (Z.rem i 3) (Z.quot i 3)]) l)).
Proof.
  induction l as [|i l IH]; intros acc Hacc Hroom; cbn [fold_left flat_map length].
  - cbn. lia.
  - cbn [length] in Hroom.
    assert (Z.land (Z.shiftr print i) 1 = 0 \/ Z.land (Z.shiftr print i) 1 = 1)
      as Hbit.
    { generalize (Z.shiftr print i). intros x.
      assert (Z.land x 1 = x mod 2) as ->
        by (change 1 with (Z.ones 1); rewrite Z.land_ones by lia; reflexivity).
      pose proof (Z.mod_pos_bound x 2 ltac:(lia)). lia. }
    rewrite IH.
    + rewrite length_app.
      destruct Hbit as [E | E]; rewrite E; cbn [Z.eqb length];
        rewrite uint8_small by lia; lia.
    + unfold uint8. apply Z.mod_pos_bound. lia.
    + destruct Hbit as [E | E]; rewrite E, uint8_small by lia; lia.
Qed.

Lemma coords_count (print : MovePrint) :
  Z.of_nat (length (move_print_coords print)) = move_print_count print.
Proof.
  unfold move_print_count, move_print_coords.
  rewrite coords_count_from; [lia | lia | cbn; lia].
Qed.

(** C5, amended. For each free cell the draw detector examines exactly four
    patterns: the row of the cell, its column and both diagonals, whether or
    not the cell lies on them.  On a free mask of three cells at most, all
    that [free_moves_coords] takes and all that is left from six moves on,
    the scan keeps the game running just when, for some free cell and one of
    its four patterns, a side passes the purity test and holds at least its
    minimum of cells on that pattern. *)
Theorem draw_scan_lines (x_moves o_moves free_moves : MovePrint)
  (x_min_moves o_min_moves : Z) :
  move_print_count free_moves <= 3 ->
  (forall cell_pos, in_range cell_pos ->
     cell_match_prints cell_pos
     = [Z.shiftl 7 (3 * vy cell_pos); Z.shiftl 73 (vx cell_pos); 273; 84])
  /\ (length (move_print_coords free_moves) <= 3)%nat
  /\ (keep_game_running x_moves o_moves free_moves x_min_moves o_min_moves = true
      <-> exists i pattern,
            0 <= i < move_print_count free_moves
            /\ In pattern
                 (cell_match_prints
                    (nth (Z.to_nat i) (move_print_coords free_moves) (vec2 0 0)))
            /\ (test_move_print_purity (Z.land x_moves pattern) (Z.land o_moves pattern)
                  = true
                /\ x_min_moves <= move_print_count (Z.land x_moves pattern)
                \/ test_move_print_purity (Z.land o_moves pattern) (Z.land x_moves pattern)
                   = true
                   /\ o_min_moves <= move_print_count (Z.land o_moves pattern))).
Proof.
  intros Hroom. split; [|split].
  - intros cell_pos Hpos. split_pos cell_pos; reflexivity.
  - pose proof (coords_count free_moves). lia.
  - unfold keep_game_running. cbv zeta. rewrite existsb_exists. split.
    + intros (i & Hi & Hscan). apply upto_In in Hi.
      unfold cell_match_prints in Hscan at 1 2. rewrite line_scan in Hscan.
      apply existsb_exists in Hscan. destruct Hscan as (pattern & Hin & Hwin).
      exists i, pattern. split; [lia|]. split; [exact Hin|].
      unfold line_can_win in Hwin. cbv zeta in Hwin.
      rewrite orb_true_iff, !andb_true_iff, !Z.leb_le in Hwin. exact Hwin.
    + intros (i & pattern & Hi & Hin & Hwin). exists i. split.
      * apply upto_In. pose proof (move_print_count_nonneg free_moves). lia.
      * unfold cell_match_prints at 1 2. rewrite line_scan.
        apply existsb_exists. exists pattern. split; [exact Hin|].
        unfold line_can_win. cbv zeta.
        rewrite orb_true_iff, !andb_true_iff, !Z.leb_le. exact Hwin.
Qed.

Lemma draw_scan_lines_witness :
  let st := play (initial_state 0) six_moves in
  let t := get_move_print_triplet (board st) in
  moves st = 6
  /\ endgame (snd (process_game_state X_ACTOR st)) = RUNNING
  /\ (t_x t, t_o t, t_free t) = (49, 140, 322)
  /\ (calc_min_moves true 6, calc_min_moves false 6) = (1, 2)
  /\ nth 0 (move_print_coords 322) (vec2 0 0) = vec2 1 0
  /\ cell_match_prints (vec2 1 0) = [7; 146; 273; 84]
  /\ keep_game_running 49 140 322 1 2 = true.
Proof.
  destruct (draw_scan_lines 49 140 322 1 2 ltac:(vm_compute; discriminate))
    as (Hlines & _ & Hscan).
  split; [reflexivity|]. split; [reflexivity|]. split; [reflexivity|].
  split; [reflexivity|]. split; [reflexivity|]. split.
  - apply (Hlines (vec2 1 0)). unfold in_range; cbn; lia.
  - apply Hscan. exists 0, 273. split; [vm_compute; split; congruence|].
    split; [right; right; left; reflexivity|].
    left. split; [reflexivity|]. vm_compute. congruence.
Defined.

(** On the states of alternating play without a winner, the scan over the
    four patterns and the scan that takes a diagonal only for the cells on
    it reach the same verdict. *)
Lemma scans_agree (starter : Actor) (st : GameState) :
  consistent starter st ->
  has_winner (board st) = false ->
  let t := get_move_print_triplet (board st) in
  let x_min_moves := calc_min_moves (Actor_eqb starter X_ACTOR) (moves st) in
  let o_min_moves := calc_min_moves (Actor_eqb starter O_ACTOR) (moves st) in
  keep_game_running (t_x t) (t_o t) (t_free t) x_min_moves o_min_moves
  = spec_keep_game_running (t_x t) (t_o t) (t_free t) x_min_moves o_min_moves.
Proof.
  intros Hc Hnw.
  pose proof (check_all_boards _ scans_check_all (board st)) as Hok.
  cbv beta in Hok. apply andb_true_iff in Hok.
  assert (scans_check (get_move_print_triplet (board st)) (board st) starter = true)
    as Hcheck
    by (destruct (proj1 Hc) as [-> | ->]; [exact (proj1 Hok) | exact (proj2 Hok)]).
  unfold scans_check in Hcheck.
  rewrite (canonical_of_consistent _ _ Hc) in Hcheck.
  cbn [unselect moves] in Hcheck.
  apply (if_false_elim _ _ _ Hnw) in Hcheck.
  apply eqb_prop in Hcheck. exact Hcheck.
Qed.

(** * Further properties of the program *)

(** ** The selection cursor *)

(** X1. A cursor input changes nothing but the selection, which it moves by
    one cell on its axis and wraps around at the border: Left from column 0
    leads to column 2 and Down from row 2 to row 0.  The selection stays in
    range, and opposite inputs undo each other. *)
Theorem cursor_wraps (st : GameState) :
  in_range (selection st) ->
  let go := fun input => snd (process_game_input st input) in
  go LEFT_INPUT = select st (vec2 ((vx (selection st) - 1) mod 3) (vy (selection st)))
  /\ go RIGHT_INPUT = select st (vec2 ((vx (selection st) + 1) mod 3) (vy (selection st)))
  /\ go UP_INPUT = select st (vec2 (vx (selection st)) ((vy (selection st) - 1) mod 3))
  /\ go DOWN_INPUT = select st (vec2 (vx (selection st)) ((vy (selection st) + 1) mod 3))
  /\ snd (process_game_input (go LEFT_INPUT) RIGHT_INPUT) = st
  /\ snd (process_game_input (go RIGHT_INPUT) LEFT_INPUT) = st
  /\ snd (process_game_input (go UP_INPUT) DOWN_INPUT) = st
  /\ snd (process_game_input (go DOWN_INPUT) UP_INPUT) = st.
Proof.
  intros Hsel. destruct st as [b sel t m e]. cbn [selection] in Hsel.
  split_pos sel; cbv zeta; repeat split; reflexivity.
Qed.

Lemma cursor_wraps_witness :
  selection (snd (process_game_input (initial_state 0) LEFT_INPUT)) = vec2 2 0
  /\ selection (snd (process_game_input (select (initial_state 0) (vec2 1 2)) DOWN_INPUT))
     = vec2 1 0.
Proof.
  split.
  - rewrite (proj1 (cursor_wraps (initial_state 0) ltac:(unfold in_range; cbn; lia))).
    reflexivity.
  - rewrite (proj1 (proj2 (proj2 (proj2
               (cursor_wraps (select (initial_state 0) (vec2 1 2))
                  ltac:(unfold in_range; cbn; lia)))))).
    reflexivity.
Defined.

Lemma play_app (st : GameState) (inputs inputs' : list GameInput) :
  play st (inputs ++ inputs') = play (play st inputs) inputs'.
Proof. unfold play. apply fold_left_app. Qed.

(** Every cell is within reach of the cursor. *)
Lemma cursor_path_leads (st : GameState) (pos : Vec2) :
  in_range (selection st) -> in_range pos ->
  play st (cursor_path (selection st) pos) = select st pos.
Proof.
  intros Hsel Hpos. destruct st as [b sel t m e]. cbn [selection] in *.
  split_pos sel; split_pos pos; reflexivity.
Qed.

(** ** The computer player at the cursor *)

(** X2. With a goal in range, the input source of the computer player
    walks the selection to the goal in as many cursor inputs as the two
    cells are apart, without wrapping and without touching anything else;
    the call after that returns Move and forgets the goal.  At most four
    cursor inputs are needed. *)
Theorem ai_reaches_goal (st : GameState) (goal thought : Vec2) :
  in_range (selection st) -> in_range goal ->
  let n := Z.to_nat (walk_length (selection st) goal) in
  ai_steps n st goal thought = (select st goal, goal)
  /\ ai_game_input (select st goal) goal thought = (MOVE_INPUT, AI_THINKING_STATE)
  /\ (n <= 4)%nat
  /\ (forall k, (k < n)%nat ->
        fst (ai_game_input (fst (ai_steps k st goal thought))
               (snd (ai_steps k st goal thought)) thought) <> MOVE_INPUT).
Proof.
  intros Hsel Hgoal. destruct st as [b sel t m e]. cbn [selection] in *.
  split_pos sel; split_pos goal; cbv zeta;
    (split; [reflexivity|]); (split; [reflexivity|]); (split; [cbn; lia|]);
    intros k Hk; cbn in Hk;
    repeat (destruct k as [|k]; [cbn; discriminate|]); lia.
Qed.

Lemma ai_reaches_goal_witness :
  ai_steps 4 (initial_state 0) (vec2 2 2) AI_THINKING_STATE
  = (select (initial_state 0) (vec2 2 2), vec2 2 2).
Proof.
  apply (proj1 (ai_reaches_goal (initial_state 0) (vec2 2 2) AI_THINKING_STATE
                  ltac:(unfold in_range; cbn; lia) ltac:(unfold in_range; cbn; lia))).
Defined.

(** A thinking brain takes the goal of its cortex first. *)
Lemma ai_game_input_thinking (view : GameState) (goal thought : Vec2) :
  is_ai_thinking goal = true -> in_range thought ->
  ai_game_input view goal thought = ai_game_input view thought thought.
Proof.
  intros Hthink [Hx Hy]. unfold ai_game_input. rewrite Hthink.
  assert (is_ai_thinking thought = false) as ->; [|reflexivity].
  unfold is_ai_thinking. apply orb_false_iff. rewrite !Z.ltb_ge. lia.
Qed.

(** ** The random strategy *)

(** X3. [dumb_ai_cortex] settles on the first pair of values of [rand()]
    that hits a free cell, and on nothing else: its goal is in range and
    free, and every pair before it hit a taken cell.  On a board without a
    free cell it never returns, however many values it draws. *)
Theorem dumb_cortex_goal (view : GameState) (rands : list (Z * Z)) :
  Forall (fun r => 0 <= fst r /\ 0 <= snd r) rands ->
  (forall goal rest,
     dumb_ai_cortex view rands = Some (goal, rest) ->
     in_range goal
     /\ game_board_cell (board view) goal = FREE_MOVE
     /\ exists skipped r,
          rands = skipped ++ r :: rest
          /\ goal = vec2 (Z.rem (fst r) 3) (Z.rem (snd r) 3)
          /\ Forall (fun r' =>
                 game_board_cell (board view)
                   (vec2 (Z.rem (fst r') 3) (Z.rem (snd r') 3)) <> FREE_MOVE) skipped)
  /\ ((forall pos, in_range pos -> game_board_cell (board view) pos <> FREE_MOVE) ->
      dumb_ai_cortex view rands = None)
  /\ (forall r, In r rands ->
        game_board_cell (board view) (vec2 (Z.rem (fst r) 3) (Z.rem (snd r) 3))
        = FREE_MOVE ->
        dumb_ai_cortex view rands <> None).
Proof.
  intros Hpos. induction Hpos as [|[ra rb] rands [Ha Hb] Hpos IH]; cbn [fst snd] in *.
  - split; [discriminate|]. split; [reflexivity|]. intros r [].
  - destruct IH as (IHsome & IHnone & IHin).
    assert (in_range (vec2 (Z.rem ra 3) (Z.rem rb 3))) as Hcell
      by (split; cbn [vx vy]; apply Z.rem_bound_pos; lia).
    cbn [dumb_ai_cortex].
    destruct (Move_eqb (game_board_cell (board view) (vec2 (Z.rem ra 3) (Z.rem rb 3)))
                FREE_MOVE) eqn:E.
    + apply Move_eqb_eq in E. split; [|split].
      * intros goal rest H. injection H as <- <-.
        split; [exact Hcell|]. split; [exact E|].
        exists [], (ra, rb). cbn. auto.
      * intros Hfull. contradiction (Hfull _ Hcell).
      * discriminate.
    + assert (game_board_cell (board view) (vec2 (Z.rem ra 3) (Z.rem rb 3)) <> FREE_MOVE)
        as Hne by (intros H; apply Move_eqb_eq in H; congruence).
      split; [|split].
      * intros goal rest H. destruct (IHsome goal rest H)
          as (Hr & Hfree & skipped & r & -> & Hg & Hskip).
        split; [exact Hr|]. split; [exact Hfree|].
        exists ((ra, rb) :: skipped), r. cbn. auto.
      * exact IHnone.
      * intros r [<- | Hin] Hfree; [contradiction|]. exact (IHin r Hin Hfree).
Qed.

Lemma dumb_cortex_goal_witness :
  dumb_ai_cortex (play (initial_state 0) three_moves) [(3, 1); (7, 0)]
  = Some (vec2 1 0, [])
  /\ game_board_cell (board (play (initial_state 0) three_moves)) (vec2 1 0) = FREE_MOVE.
Proof.
  split; [reflexivity|].
  apply (proj1 (dumb_cortex_goal (play (initial_state 0) three_moves) [(3, 1); (7, 0)]
                  ltac:(repeat constructor; cbn; lia)) (vec2 1 0) []).
  reflexivity.
Defined.

(** ** Move prints *)

Lemma bit_check_all :
  forallb (fun print =>
      forallb (fun p => forallb (bit_check print p) scan_positions) scan_positions)
    (upto 512) = true.
Proof. vm_cast_no_check (eq_refl true). Qed.

Lemma mask_check_all : forallb mask_check (upto 512) = true.
Proof. vm_cast_no_check (eq_refl true). Qed.

Lemma cell_check_all :
  forallb (fun b => cell_check (get_move_print_triplet b) b) all_boards = true.
Proof. vm_cast_no_check (eq_refl true). Qed.

Lemma bit_check_holds (print : MovePrint) (p q : Vec2) :
  0 <= print < 512 -> in_range p -> in_range q -> bit_check print p q = true.
Proof.
  intros Hprint Hp Hq. pose proof bit_check_all as H.
  rewrite forallb_forall in H.
  specialize (H print (proj2 (upto_In 512 print) ltac:(cbn; lia))).
  rewrite forallb_forall in H. specialize (H p (in_scan_positions p Hp)).
  rewrite forallb_forall in H. exact (H q (in_scan_positions q Hq)).
Qed.

(** X4. On a mask of nine bits and cells in range, [edit_move_print] sets or
    clears the bit of its cell and no other, and [move_print_inspec] reads it
    back; setting a clear bit adds one to [move_print_count], clearing a set
    bit takes one off, and the other two cases change nothing. *)
Theorem edit_inspec (print : MovePrint) (p q : Vec2) :
  0 <= print < 512 -> in_range p -> in_range q ->
  move_print_inspec (edit_move_print print p true) q
  = (move_print_inspec print q || Vec2_eqb p q)
  /\ move_print_inspec (edit_move_print print p false) q
     = (move_print_inspec print q && negb (Vec2_eqb p q))
  /\ 0 <= edit_move_print print p true < 512
  /\ 0 <= edit_move_print print p false < 512
  /\ (move_print_inspec print p = true ->
      edit_move_print print p true = print
      /\ move_print_count (edit_move_print print p false) = move_print_count print - 1)
  /\ (move_print_inspec print p = false ->
      edit_move_print print p false = print
      /\ move_print_count (edit_move_print print p true) = move_print_count print + 1
      /\ move_print_count print < 9).
Proof.
  intros Hprint Hp Hq. pose proof (bit_check_holds print p q Hprint Hp Hq) as H.
  revert H. unfold bit_check. rewrite !andb_true_iff, !Z.leb_le, !Z.ltb_lt.
  intros [[[[[[H1 H2] H3] H4] H5] H6] H7].
  apply eqb_prop in H1, H2.
  repeat (split; [assumption || lia|]).
  split; intros Hbit; rewrite Hbit in H7;
    rewrite !andb_true_iff, !Z.eqb_eq, ?Z.ltb_lt in H7; tauto.
Qed.

Lemma edit_inspec_witness :
  move_print_inspec (edit_move_print 0 (vec2 1 2) true) (vec2 1 2) = true
  /\ edit_move_print 0 (vec2 1 2) true = 128.
Proof.
  split; [|reflexivity].
  rewrite (proj1 (edit_inspec 0 (vec2 1 2) (vec2 1 2) ltac:(lia)
                    ltac:(unfold in_range; cbn; lia) ltac:(unfold in_range; cbn; lia))).
  reflexivity.
Defined.

Lemma Vec2_list_eqb_eq (l l' : list Vec2) : Vec2_list_eqb l l' = true -> l = l'.
Proof.
  revert l'. induction l as [|p l IH]; intros [|p' l']; cbn; intros H;
    try reflexivity; try discriminate.
  apply andb_true_iff in H. destruct H as [Hp Hl].
  apply Vec2_eqb_eq in Hp. rewrite Hp, (IH _ Hl). reflexivity.
Qed.

Lemma scan_positions_range (p : Vec2) : In p scan_positions -> in_range p.
Proof.
  cbn. intros H.
  repeat (destruct H as [<- | H]; [unfold in_range; cbn; lia|]). contradiction.
Qed.

Lemma scan_positions_NoDup : NoDup scan_positions.
Proof.
  cbn. repeat (constructor; [cbn; intros H;
    repeat (destruct H as [H | H]; [discriminate|]); contradiction|]).
  constructor.
Qed.

(** X5. For a mask of nine bits, [move_print_coords] lists the cells of the
    set bits, each once, in ascending order of the bit index; the list is as
    long as [move_print_count] says, and setting its cells in an empty mask
    gives the mask back. *)
Theorem coords_of_mask (print : MovePrint) :
  0 <= print < 512 ->
  move_print_coords print = filter (move_print_inspec print) scan_positions
  /\ Z.of_nat (length (move_print_coords print)) = move_print_count print
  /\ print_of_coords (move_print_coords print) = print
  /\ NoDup (move_print_coords print)
  /\ (forall pos, In pos (move_print_coords print)
                  <-> in_range pos /\ move_print_inspec print pos = true).
Proof.
  intros Hprint. pose proof mask_check_all as H. rewrite forallb_forall in H.
  specialize (H print (proj2 (upto_In 512 print) ltac:(cbn; lia))).
  revert H. unfold mask_check. rewrite !andb_true_iff, !Z.eqb_eq.
  intros [[Hlist Hlen] Hback]. apply Vec2_list_eqb_eq in Hlist.
  split; [exact Hlist|]. split; [exact Hlen|]. split; [exact Hback|].
  rewrite Hlist. split.
  - apply NoDup_filter, scan_positions_NoDup.
  - intros pos. rewrite filter_In. split.
    + intros [Hin Hbit]. split; [apply scan_positions_range, Hin | exact Hbit].
    + intros [Hr Hbit]. split; [apply in_scan_positions, Hr | exact Hbit].
Qed.

Lemma coords_of_mask_witness :
  move_print_coords 273 = [vec2 0 0; vec2 1 1; vec2 2 2]
  /\ print_of_coords (move_print_coords 273) = 273.
Proof.
  split; [reflexivity|].
  apply (proj1 (proj2 (proj2 (coords_of_mask 273 ltac:(lia))))).
Defined.

Lemma cell_check_spec (t : MovePrintTriplet) (b : GameBoard) (pos : Vec2) :
  cell_check t b = true -> in_range pos ->
  decode_cell t pos = game_board_cell b pos
  /\ (move_print_inspec (t_free t) pos = true <-> game_board_cell b pos = FREE_MOVE)
  /\ (move_print_inspec (t_x t) pos = true <-> game_board_cell b pos = X_MOVE)
  /\ (move_print_inspec (t_o t) pos = true <-> game_board_cell b pos = O_MOVE).
Proof.
  unfold cell_check. rewrite forallb_forall. intros H Hpos.
  specialize (H pos (in_scan_positions pos Hpos)).
  rewrite !andb_true_iff in H. destruct H as [[[H1 H2] H3] H4].
  apply Move_eqb_eq in H1. apply eqb_prop in H2, H3, H4.
  rewrite H2, H3, H4, !Move_eqb_eq. tauto.
Qed.

Lemma board_ext (b b' : GameBoard) :
  (forall pos, in_range pos -> game_board_cell b pos = game_board_cell b' pos) ->
  b = b'.
Proof.
  intros H.
  destruct b as [[a0 a1 a2] [b0 b1 b2] [d0 d1 d2]].
  destruct b' as [[a0' a1' a2'] [b0' b1' b2'] [d0' d1' d2']].
  pose proof (fun x y Hr => H (vec2 x y) Hr) as H'. unfold in_range in H'.
  cbn [vx vy] in H'.
  pose proof (H' 0 0 ltac:(lia)) as H00. pose proof (H' 1 0 ltac:(lia)) as H10.
  pose proof (H' 2 0 ltac:(lia)) as H20. pose proof (H' 0 1 ltac:(lia)) as H01.
  pose proof (H' 1 1 ltac:(lia)) as H11. pose proof (H' 2 1 ltac:(lia)) as H21.
  pose proof (H' 0 2 ltac:(lia)) as H02. pose proof (H' 1 2 ltac:(lia)) as H12.
  pose proof (H' 2 2 ltac:(lia)) as H22.
  cbn in H00, H10, H20, H01, H11, H21, H02, H12, H22. congruence.
Qed.

(** X6. [get_move_print_triplet] loses nothing: a cell holds an X, an O or
    nothing just when its bit is set in the X, the O or the free mask, so the
    cell can be read back from the masks, and two boards with the same masks
    are the same board. *)
Theorem triplet_round_trip (b : GameBoard) :
  (forall pos, in_range pos ->
     decode_cell (get_move_print_triplet b) pos = game_board_cell b pos
     /\ (move_print_inspec (t_free (get_move_print_triplet b)) pos = true
         <-> game_board_cell b pos = FREE_MOVE)
     /\ (move_print_inspec (t_x (get_move_print_triplet b)) pos = true
         <-> game_board_cell b pos = X_MOVE)
     /\ (move_print_inspec (t_o (get_move_print_triplet b)) pos = true
         <-> game_board_cell b pos = O_MOVE))
  /\ (forall b', get_move_print_triplet b' = get_move_print_triplet b -> b' = b).
Proof.
  assert (forall b0 pos, in_range pos ->
            decode_cell (get_move_print_triplet b0) pos = game_board_cell b0 pos
            /\ (move_print_inspec (t_free (get_move_print_triplet b0)) pos = true
                <-> game_board_cell b0 pos = FREE_MOVE)
            /\ (move_print_inspec (t_x (get_move_print_triplet b0)) pos = true
                <-> game_board_cell b0 pos = X_MOVE)
            /\ (move_print_inspec (t_o (get_move_print_triplet b0)) pos = true
                <-> game_board_cell b0 pos = O_MOVE)) as Hcells.
  { intros b0 pos Hpos.
    exact (cell_check_spec _ b0 pos (check_all_boards _ cell_check_all b0) Hpos). }
  split; [apply Hcells|].
  intros b' Heq. apply board_ext. intros pos Hpos.
  rewrite <- (proj1 (Hcells b' pos Hpos)), <- (proj1 (Hcells b pos Hpos)), Heq.
  reflexivity.
Qed.

Lemma triplet_round_trip_witness :
  decode_cell (get_move_print_triplet (board (play (initial_state 0) three_moves)))
    (vec2 1 1) = O_MOVE.
Proof.
  rewrite (proj1 (proj1 (triplet_round_trip (board (play (initial_state 0) three_moves)))
                    (vec2 1 1) ltac:(unfold in_range; cbn; lia))).
  reflexivity.
Defined.

(** ** The verdicts of [process_game_state] *)

Lemma verdict_check_all :
  forallb (fun b => verdict_check b X_ACTOR && verdict_check b O_ACTOR) all_boards
  = true.
Proof. vm_cast_no_check (eq_refl true). Qed.

Lemma complete_check_all :
  forallb (fun b => complete_check b X_ACTOR && complete_check b O_ACTOR) all_boards
  = true.
Proof. vm_cast_no_check (eq_refl true). Qed.

Lemma step_check_all :
  forallb (fun b => step_check b X_ACTOR && step_check b O_ACTOR) all_boards = true.
Proof. vm_cast_no_check (eq_refl true). Qed.

Lemma x_wins_spec (b : GameBoard) :
  x_wins b = true <-> test_move_print_winner (t_x (get_move_print_triplet b)) <> 0.
Proof. unfold x_wins. rewrite negb_true_iff, Z.eqb_neq. tauto. Qed.

Lemma o_wins_spec (b : GameBoard) :
  o_wins b = true <-> test_move_print_winner (t_o (get_move_print_triplet b)) <> 0.
Proof. unfold o_wins. rewrite negb_true_iff, Z.eqb_neq. tauto. Qed.

Lemma x_wins_false (b : GameBoard) :
  x_wins b = false -> test_move_print_winner (t_x (get_move_print_triplet b)) = 0.
Proof.
  intros H. destruct (Z.eq_dec (test_move_print_winner (t_x (get_move_print_triplet b))) 0)
    as [E|E]; [exact E|].
  apply x_wins_spec in E. rewrite E in H. discriminate.
Qed.

Lemma o_wins_false (b : GameBoard) :
  o_wins b = false -> test_move_print_winner (t_o (get_move_print_triplet b)) = 0.
Proof.
  intros H. destruct (Z.eq_dec (test_move_print_winner (t_o (get_move_print_triplet b))) 0)
    as [E|E]; [exact E|].
  apply o_wins_spec in E. rewrite E in H. discriminate.
Qed.

Lemma has_winner_split (b : GameBoard) :
  has_winner b = false -> x_wins b = false /\ o_wins b = false.
Proof.
  intros H. split.
  - destruct (x_wins b) eqn:E; [|reflexivity].
    apply x_wins_spec in E. rewrite <- H. symmetry. apply has_winner_spec. auto.
  - destruct (o_wins b) eqn:E; [|reflexivity].
    apply o_wins_spec in E. rewrite <- H. symmetry. apply has_winner_spec. auto.
Qed.

(** The verdict on a state of alternating play, against the lines. *)
Lemma verdict_facts (s : Actor) (st : GameState) :
  consistent s st ->
  EndGame_eqb (endgame (snd (process_game_state s st))) X_VICTORY = x_wins (board st)
  /\ EndGame_eqb (endgame (snd (process_game_state s st))) O_VICTORY
     = (o_wins (board st) && negb (x_wins (board st)))
  /\ (moves st < 5 -> x_wins (board st) = false /\ o_wins (board st) = false)
  /\ (moves st < 6 -> endgame (snd (process_game_state s st)) <> GAME_DRAW).
Proof.
  intros Hc.
  assert (verdict_check (board st) s = true) as Hok.
  { pose proof (check_all_boards _ verdict_check_all (board st)) as H.
    apply andb_true_iff in H.
    destruct (proj1 Hc) as [-> | ->]; [exact (proj1 H) | exact (proj2 H)]. }
  unfold verdict_check in Hok. rewrite (canonical_of_consistent _ _ Hc) in Hok.
  rewrite <- process_game_state_unselect in Hok.
  cbn [unselect moves] in Hok.
  rewrite !andb_true_iff in Hok. destruct Hok as [[[Hx Ho] Hfive] Hsix].
  apply eqb_prop in Hx, Ho.
  split; [exact Hx|]. split; [exact Ho|]. split.
  - intros Hm. apply (if_true_elim _ _ _ (proj2 (Z.ltb_lt _ _) Hm)) in Hfive.
    apply andb_true_iff in Hfive. rewrite !negb_true_iff in Hfive. exact Hfive.
  - intros Hm Hdraw. apply (if_true_elim _ _ _ (proj2 (Z.ltb_lt _ _) Hm)) in Hsix.
    rewrite Hdraw in Hsix. discriminate.
Qed.

(** X7. On every state of alternating play, [process_game_state] reports
    a victory of X just when X holds a complete line, and a victory of O
    just when O holds one and X none.  No side holds a complete line before
    the fifth move, so the early return there misses nothing; and no draw is
    declared before the sixth. *)
Theorem victory_verdict (starter : Actor) (st : GameState) :
  reachable_from starter st ->
  let verdict := endgame (snd (process_game_state starter st)) in
  let t := get_move_print_triplet (board st) in
  (verdict = X_VICTORY <-> test_move_print_winner (t_x t) <> 0)
  /\ (verdict = O_VICTORY
      <-> test_move_print_winner (t_o t) <> 0 /\ test_move_print_winner (t_x t) = 0)
  /\ (moves st < 5 ->
      test_move_print_winner (t_x t) = 0 /\ test_move_print_winner (t_o t) = 0)
  /\ (moves st < 6 -> verdict <> GAME_DRAW).
Proof.
  intros Hreach. apply reachable_consistent in Hreach.
  destruct (verdict_facts _ _ Hreach) as (Hx & Ho & Hfive & Hsix).
  intros verdict t. fold verdict in Hx, Ho, Hsix.
  split; [|split; [|split]].
  - split; intros H.
    + apply x_wins_spec. rewrite <- Hx. apply EndGame_eqb_eq, H.
    + apply EndGame_eqb_eq. rewrite Hx. apply x_wins_spec, H.
  - split; intros H.
    + apply EndGame_eqb_eq in H. rewrite Ho in H. apply andb_true_iff in H.
      destruct H as [H1 H2]. apply negb_true_iff in H2.
      split; [apply o_wins_spec, H1 | apply x_wins_false, H2].
    + apply EndGame_eqb_eq. rewrite Ho. apply andb_true_iff. split.
      * apply o_wins_spec, H.
      * apply negb_true_iff. destruct (x_wins (board st)) eqn:E; [|reflexivity].
        apply x_wins_spec in E. contradiction E. apply H.
  - intros Hm. destruct (Hfive Hm) as [Hxf Hof].
    split; [apply x_wins_false, Hxf | apply o_wins_false, Hof].
  - exact Hsix.
Qed.

Lemma victory_verdict_witness :
  endgame (snd (process_game_state X_ACTOR
                  (play (initial_state 0) (three_moves ++ finish_column))))
  = X_VICTORY.
Proof.
  apply (proj1 (victory_verdict X_ACTOR
                  (play (initial_state 0) (three_moves ++ finish_column))
                  ltac:(exists 0, (three_moves ++ finish_column);
                        repeat split; reflexivity || lia))).
  vm_compute. discriminate.
Defined.

Lemma any_position_exists (f : Vec2 -> bool) (l : list Vec2) :
  any_position f l = true -> exists p, In p l /\ f p = true.
Proof.
  induction l as [|p l IH]; cbn; [discriminate|].
  destruct (f p) eqn:E.
  - intros _. exists p. auto.
  - intros H. destruct (IH H) as (q & Hq & Hf). exists q. auto.
Qed.

Lemma can_win_step (fuel : nat) (b : GameBoard) (t : Actor) :
  can_win (S fuel) b t
  = if has_winner b then true
    else any_position (fun p =>
             if Move_eqb (game_board_cell b p) FREE_MOVE
             then can_win fuel (set_game_board_cell b p (actor_to_move t))
                    (opponent_actor t)
             else false)
           scan_positions.
Proof. reflexivity. Qed.

Lemma can_win_stop (b : GameBoard) (t : Actor) :
  can_win O b t = if has_winner b then true else false.
Proof. reflexivity. Qed.

(** A move on a free cell. *)
Lemma commit_move (st : GameState) :
  game_board_cell (board st) (selection st) = FREE_MOVE ->
  snd (process_game_input st MOVE_INPUT)
  = mkState (set_game_board_cell (board st) (selection st) (actor_to_move (turn st)))
      (selection st) (opponent_actor (turn st)) (uint8 (moves st + 1)) (endgame st).
Proof.
  intros H. unfold process_game_input. cbv zeta.
  rewrite (proj2 (Move_eqb_eq _ _) H). reflexivity.
Qed.

(** What the search [can_win] finds, the program can play. *)
Lemma can_win_play (fuel : nat) :
  forall (b : GameBoard) (t : Actor) (st : GameState),
    can_win fuel b t = true ->
    board st = b -> turn st = t -> in_range (selection st) ->
    exists inputs, has_winner (board (play st inputs)) = true.
Proof.
  induction fuel as [|fuel IH]; intros b t st Hwin Hb Ht Hsel.
  - rewrite can_win_stop in Hwin.
    destruct (has_winner b) eqn:E; [|discriminate].
    exists []. cbn [play fold_left]. rewrite Hb. exact E.
  - rewrite can_win_step in Hwin. destruct (has_winner b) eqn:E.
    + exists []. cbn [play fold_left]. rewrite Hb. exact E.
    + apply any_position_exists in Hwin. destruct Hwin as (p & Hp & Hrec).
      apply scan_positions_range in Hp.
      destruct (Move_eqb (game_board_cell b p) FREE_MOVE) eqn:Hfree; [|discriminate].
      apply Move_eqb_eq in Hfree.
      pose proof (cursor_path_leads st p Hsel Hp) as Hpath.
      assert (game_board_cell (board (select st p)) (selection (select st p))
              = FREE_MOVE) as Hcell.
      { cbn [select board selection]. rewrite Hb. exact Hfree. }
      pose proof (commit_move _ Hcell) as Hmove.
      cbn [select board selection turn moves endgame] in Hmove.
      rewrite Hb, Ht in Hmove.
      destruct (IH _ _ (snd (process_game_input (select st p) MOVE_INPUT)) Hrec)
        as (inputs & Hinputs).
      * rewrite Hmove. reflexivity.
      * rewrite Hmove. reflexivity.
      * rewrite Hmove. exact Hp.
      * exists (cursor_path (selection st) p ++ MOVE_INPUT :: inputs).
        rewrite play_app, Hpath. exact Hinputs.
Qed.

(** X8. The draw detector is exact.  On every state of alternating play
    that [process_game_state] leaves running, some sequence of inputs leads
    to a board with a complete line; that holds in particular of every
    state without a winner before the sixth move, where the detector does
    not run.  Together with C1: a draw is declared just when no line can be
    completed any more. *)
Theorem detector_complete (starter : Actor) (st : GameState) :
  reachable_from starter st ->
  (endgame (snd (process_game_state starter st)) = RUNNING ->
   exists inputs, has_winner (board (play st inputs)) = true)
  /\ (moves st < 6 -> has_winner (board st) = false ->
      endgame (snd (process_game_state starter st)) = RUNNING).
Proof.
  intros Hreach. apply reachable_consistent in Hreach. split.
  - intros Hrun.
    assert (complete_check (board st) starter = true) as Hok.
    { pose proof (check_all_boards _ complete_check_all (board st)) as H.
      apply andb_true_iff in H.
      destruct (proj1 Hreach) as [-> | ->]; [exact (proj1 H) | exact (proj2 H)]. }
    unfold complete_check in Hok.
    rewrite (canonical_of_consistent _ _ Hreach) in Hok.
    rewrite <- process_game_state_unselect in Hok.
    cbn [unselect moves turn] in Hok.
    apply (if_true_elim _ _ _ (proj2 (EndGame_eqb_eq _ _) Hrun)) in Hok.
    apply (can_win_play _ _ _ st Hok eq_refl eq_refl). apply Hreach.
  - intros Hm Hnw.
    destruct (verdict_facts _ _ Hreach) as (Hx & Ho & _ & Hsix).
    destruct (has_winner_split _ Hnw) as [Hxf Hof]. rewrite Hxf in Hx. rewrite Hof in Ho.
    specialize (Hsix Hm).
    destruct (endgame (snd (process_game_state starter st)));
      try reflexivity; try discriminate. contradiction.
Qed.

Lemma detector_complete_witness :
  exists inputs,
    has_winner (board (play (play (initial_state 0) three_moves) inputs)) = true.
Proof.
  apply (proj1 (detector_complete X_ACTOR (play (initial_state 0) three_moves)
                  ltac:(exists 0, three_moves; repeat split; reflexivity || lia))).
  reflexivity.
Defined.

(** ** What the event loop never meets *)

Lemma process_game_input_shape (st : GameState) (i : GameInput) :
  in_range (selection st) ->
  (exists pos, in_range pos /\ snd (process_game_input st i) = select st pos)
  \/ (game_board_cell (board st) (selection st) = FREE_MOVE
      /\ snd (process_game_input st i)
         = mkState (set_game_board_cell (board st) (selection st)
                      (actor_to_move (turn st)))
             (selection st) (opponent_actor (turn st)) (uint8 (moves st + 1))
             (endgame st)).
Proof.
  intros Hsel. pose proof Hsel as [Hx Hy].
  destruct i; cbn [process_game_input snd].
  - left. exists (selection st). split; [exact Hsel | destruct st; reflexivity].
  - left. exists (vec2 (vx (selection st)) (Z.rem (vy (selection st) + 3 - 1) 3)).
    split; [split; cbn [vx vy]; auto using cursor_back | reflexivity].
  - left. exists (vec2 (vx (selection st)) (Z.rem (vy (selection st) + 1) 3)).
    split; [split; cbn [vx vy]; auto using cursor_forth | reflexivity].
  - left. exists (vec2 (Z.rem (vx (selection st) + 3 - 1) 3) (vy (selection st))).
    split; [split; cbn [vx vy]; auto using cursor_back | reflexivity].
  - left. exists (vec2 (Z.rem (vx (selection st) + 1) 3) (vy (selection st))).
    split; [split; cbn [vx vy]; auto using cursor_forth | reflexivity].
  - destruct (Move_eqb (game_board_cell (board st) (selection st)) FREE_MOVE) eqn:E;
      cbn [snd].
    + right. split; [apply Move_eqb_eq, E | reflexivity].
    + left. exists (selection st). split; [exact Hsel | destruct st; reflexivity].
Qed.

(** In the loop the verdict does not depend on the static variable. *)
Lemma loop_verdict (r : Z) (g : Actor) (st : GameState) :
  0 <= r -> loop_reach r g st ->
  process_game_state g st = process_game_state (turn (initial_state r)) st.
Proof.
  intros Hr Hloop. destruct (loop_reach_inv r g st Hr Hloop) as [_ Hstatic].
  destruct (Z.eq_dec (moves st) 0) as [E | E].
  - unfold process_game_state. rewrite (proj2 (Z.eqb_eq _ _) E). reflexivity.
  - rewrite (Hstatic E). reflexivity.
Qed.

Lemma running_no_winner (s : Actor) (st : GameState) :
  consistent s st ->
  endgame (snd (process_game_state s st)) = RUNNING ->
  has_winner (board st) = false.
Proof.
  intros Hc Hrun. destruct (verdict_facts _ _ Hc) as (Hx & Ho & _).
  rewrite Hrun in Hx, Ho. cbn [EndGame_eqb] in Hx, Ho.
  destruct (has_winner (board st)) eqn:E; [|reflexivity].
  apply has_winner_spec in E. destruct E as [E | E].
  - apply x_wins_spec in E. rewrite E in Hx. discriminate.
  - apply o_wins_spec in E. rewrite E in Ho.
    destruct (x_wins (board st)); discriminate.
Qed.

Lemma winner_verdict (s : Actor) (st : GameState) :
  consistent s st ->
  has_winner (board st) = true ->
  endgame (snd (process_game_state s st)) = X_VICTORY
  \/ endgame (snd (process_game_state s st)) = O_VICTORY.
Proof.
  intros Hc Hw. destruct (verdict_facts _ _ Hc) as (Hx & Ho & _).
  destruct (x_wins (board st)) eqn:Ex.
  - left. apply EndGame_eqb_eq, Hx.
  - right. apply EndGame_eqb_eq. rewrite Ho.
    apply has_winner_spec in Hw. destruct Hw as [Hw | Hw].
    + apply x_wins_spec in Hw. rewrite Hw in Ex. discriminate.
    + apply o_wins_spec in Hw. rewrite Hw. reflexivity.
Qed.

(** A move on a board without a winner. *)
Lemma step_facts (s : Actor) (st : GameState) (p : Vec2) :
  consistent s st -> has_winner (board st) = false ->
  in_range p -> game_board_cell (board st) p = FREE_MOVE ->
  test_move_print_winner
    (actor_moves (opponent_actor (turn st))
       (get_move_print_triplet
          (set_game_board_cell (board st) p (actor_to_move (turn st))))) = 0
  /\ (moves st = 8 -> endgame (snd (process_game_state s st)) = RUNNING ->
      has_winner (set_game_board_cell (board st) p (actor_to_move (turn st))) = true).
Proof.
  intros Hc Hnw Hp Hfree.
  assert (step_check (board st) s = true) as Hok.
  { pose proof (check_all_boards _ step_check_all (board st)) as H.
    apply andb_true_iff in H.
    destruct (proj1 Hc) as [-> | ->]; [exact (proj1 H) | exact (proj2 H)]. }
  unfold step_check in Hok. rewrite (canonical_of_consistent _ _ Hc) in Hok.
  rewrite <- process_game_state_unselect in Hok.
  cbn [unselect moves turn] in Hok.
  apply (if_false_elim _ _ _ Hnw) in Hok.
  rewrite forallb_forall in Hok. specialize (Hok p (in_scan_positions p Hp)).
  cbv beta in Hok.
  apply (if_true_elim _ _ _ (proj2 (Move_eqb_eq _ _) Hfree)) in Hok.
  apply andb_true_iff in Hok. destruct Hok as [Hone Hlast]. split.
  - apply Z.eqb_eq, Hone.
  - intros Hm Hrun. refine (if_true_elim _ _ _ _ Hlast).
    apply andb_true_iff. split; [apply Z.eqb_eq, Hm | apply EndGame_eqb_eq, Hrun].
Qed.

(** The states of the loop: the side to move holds no complete line, and a
    full board holds one. *)
Lemma loop_winner_inv (r : Z) (g : Actor) (st : GameState) :
  0 <= r -> loop_reach r g st ->
  test_move_print_winner (actor_moves (turn st) (get_move_print_triplet (board st)))
  = 0
  /\ (moves st = 9 -> has_winner (board st) = true).
Proof.
  intros Hr Hloop.
  induction Hloop as [g | g st rands input g' st' rands' Hloop IH Hstep].
  - split.
    + destruct (initial_turn r Hr) as [E | E]; rewrite E; reflexivity.
    + cbn [initial_state moves]. discriminate.
  - destruct IH as [Hside Hfull].
    destruct (loop_reach_inv r g st Hr Hloop) as [Hreach _].
    apply reachable_consistent in Hreach.
    apply game_event_loop_continue in Hstep. destruct Hstep as (Hrun & _ & ->).
    rewrite (process_game_state_running _ _ Hrun).
    rewrite (loop_verdict r g st Hr Hloop) in Hrun.
    pose proof (running_no_winner _ _ Hreach Hrun) as Hnw.
    pose proof (consistent_moves_bound _ _ Hreach) as Hbound.
    destruct (process_game_input_shape st input (proj1 (proj2 Hreach)))
      as [(pos & _ & ->) | (Hfree & ->)].
    + cbn [select board turn moves]. split; [exact Hside | exact Hfull].
    + cbn [board turn moves].
      destruct (step_facts _ _ _ Hreach Hnw (proj1 (proj2 Hreach)) Hfree)
        as [Hone Hlast].
      split; [exact Hone|].
      intros Hm. rewrite uint8_small in Hm by lia.
      apply Hlast; [lia | exact Hrun].
Qed.

Lemma actor_moves_x (t : MovePrintTriplet) : actor_moves X_ACTOR t = t_x t.
Proof. reflexivity. Qed.

Lemma actor_moves_o (t : MovePrintTriplet) : actor_moves O_ACTOR t = t_o t.
Proof. reflexivity. Qed.

(** X9. In the event loop the side to move never holds a complete line:
    only the side that has just moved can have won.  So the two sides never
    hold a line at once, and the order in which [process_game_state] looks
    at them decides nothing. *)
Theorem only_the_mover_wins (r : Z) (g : Actor) (st : GameState) :
  0 <= r -> loop_reach r g st ->
  let t := get_move_print_triplet (board st) in
  test_move_print_winner (actor_moves (turn st) t) = 0
  /\ (test_move_print_winner (t_x t) = 0 \/ test_move_print_winner (t_o t) = 0).
Proof.
  intros Hr Hloop t. subst t.
  destruct (loop_winner_inv r g st Hr Hloop) as [Hside _].
  split; [exact Hside|].
  destruct (loop_reach_inv r g st Hr Hloop) as [Hreach _].
  apply reachable_consistent, consistent_turn in Hreach.
  destruct Hreach as [E | E]; rewrite E in Hside;
    [rewrite actor_moves_x in Hside | rewrite actor_moves_o in Hside]; auto.
Qed.

Lemma three_moves_in_loop :
  loop_reach 0 X_ACTOR (play (initial_state 0) three_moves).
Proof.
  apply (run_loop_reach 0 three_moves NULL_ACTOR (initial_state 0) []
           X_ACTOR _ []); [constructor | reflexivity].
Qed.

Lemma draw_game_in_loop :
  loop_reach 0 X_ACTOR (play (initial_state 0) draw_game).
Proof.
  apply (run_loop_reach 0 draw_game NULL_ACTOR (initial_state 0) []
           X_ACTOR _ []); [constructor | reflexivity].
Qed.

Lemma only_the_mover_wins_witness :
  test_move_print_winner
    (t_o (get_move_print_triplet (board (play (initial_state 0) three_moves)))) = 0.
Proof.
  exact (proj1 (only_the_mover_wins 0 X_ACTOR (play (initial_state 0) three_moves)
                  ltac:(lia) three_moves_in_loop)).
Defined.

(** X10. In the event loop a full board always holds a complete line, so
    the game ends in a victory there; a game that [process_game_state] lets
    run has a free cell left; and a draw is declared after six to eight
    moves, with one to three cells free: the cells that the three-element
    array of the renderer takes. *)
Theorem draw_leaves_free_cells (r : Z) (g : Actor) (st : GameState) :
  0 <= r -> loop_reach r g st ->
  let verdict := endgame (snd (process_game_state g st)) in
  let free := move_print_count (t_free (get_move_print_triplet (board st))) in
  free = 9 - moves st
  /\ (moves st = 9 -> verdict = X_VICTORY \/ verdict = O_VICTORY)
  /\ (verdict = RUNNING -> 1 <= free)
  /\ (verdict = GAME_DRAW -> 1 <= free <= 3).
Proof.
  intros Hr Hloop verdict free. subst verdict free.
  destruct (loop_winner_inv r g st Hr Hloop) as [_ Hfull].
  destruct (loop_reach_inv r g st Hr Hloop) as [Hreach _].
  apply reachable_consistent in Hreach.
  rewrite (loop_verdict r g st Hr Hloop).
  pose proof (consistent_moves_bound _ _ Hreach) as Hbound.
  destruct (triplet_partition (board st)) as (_ & _ & _ & _ & Hcount & _).
  pose proof (count_cells_total (board st)) as Htotal.
  pose proof Hreach as Hc. destruct Hreach as (_ & _ & _ & Hm & _).
  assert (moves st = 9 ->
          endgame (snd (process_game_state (turn (initial_state r)) st)) = X_VICTORY
          \/ endgame (snd (process_game_state (turn (initial_state r)) st))
             = O_VICTORY) as Hnine.
  { intros H9. apply (winner_verdict _ _ Hc), Hfull, H9. }
  split; [rewrite Hcount; lia|]. split; [exact Hnine|]. split.
  - intros Hrun. rewrite Hcount.
    destruct (Z.eq_dec (moves st) 9) as [E | E]; [|lia].
    destruct (Hnine E) as [H | H]; rewrite H in Hrun; discriminate.
  - intros Hdraw. rewrite Hcount.
    destruct (verdict_facts _ _ Hc) as (_ & _ & _ & Hsix).
    destruct (Z.eq_dec (moves st) 9) as [E | E].
    + destruct (Hnine E) as [H | H]; rewrite H in Hdraw; discriminate.
    + destruct (Z_lt_ge_dec (moves st) 6) as [Hlt | Hge]; [|lia].
      contradiction (Hsix Hlt).
Qed.

Lemma draw_leaves_free_cells_witness :
  1 <= move_print_count
         (t_free (get_move_print_triplet (board (play (initial_state 0) draw_game))))
    <= 3.
Proof.
  apply (draw_leaves_free_cells 0 X_ACTOR (play (initial_state 0) draw_game)
           ltac:(lia) draw_game_in_loop).
  reflexivity.
Defined.

(** X11. After its first call of a game [process_game_state] holds the
    side that began in its static variable, whatever the variable held
    before, and keeps it there; and the turn in every state of the loop is
    that side after an even number of moves and the other one after an odd
    number. *)
Theorem starter_is_remembered (r : Z) (g : Actor) (st : GameState) :
  0 <= r -> loop_reach r g st ->
  fst (process_game_state g st) = turn (initial_state r)
  /\ turn st
     = (if Z.even (moves st) then turn (initial_state r)
        else opponent_actor (turn (initial_state r)))
  /\ 0 <= moves st <= 9.
Proof.
  intros Hr Hloop. destruct (loop_reach_inv r g st Hr Hloop) as [Hreach Hstatic].
  apply reachable_consistent in Hreach.
  pose proof (consistent_moves_bound _ _ Hreach) as Hbound.
  destruct Hreach as (_ & _ & _ & _ & _ & _ & Ht).
  split; [|split; [exact Ht | exact Hbound]].
  rewrite (proj1 (process_game_state_cases g st)).
  destruct (Z.eqb_spec (moves st) 0) as [E | E].
  - rewrite Ht, E. reflexivity.
  - apply Hstatic, E.
Qed.

Lemma starter_is_remembered_witness :
  fst (process_game_state X_ACTOR (play (initial_state 0) three_moves))
  = turn (initial_state 0).
Proof.
  exact (proj1 (starter_is_remembered 0 X_ACTOR (play (initial_state 0) three_moves)
                  ltac:(lia) three_moves_in_loop)).
Defined.

(** ** The strategy blocks when it cannot finish *)

Lemma block_check_all :
  forallb (fun b =>
      block_check (t_x (get_move_print_triplet b)) (t_o (get_move_print_triplet b))
        b X_ACTOR
      && block_check (t_o (get_move_print_triplet b)) (t_x (get_move_print_triplet b))
           b O_ACTOR)
    all_boards = true.
Proof. vm_cast_no_check (eq_refl true). Qed.

Lemma block_check_spec (mine theirs : MovePrint) (b : GameBoard) (t : Actor) :
  block_check mine theirs b t = true ->
  existsb (finishing_line mine theirs) (upto 8) = false ->
  existsb (finishing_line theirs mine) (upto 8) = true ->
  count_cells X_MOVE b + count_cells O_MOVE b <> 0
  /\ exists opts,
       cortex_choice b t AI_THINKING_STATE = inr opts
       /\ 0 < len opts
       /\ forall p, In p (options_list opts) ->
            free_cell b p = true /\ on_threat_line mine theirs p = true.
Proof.
  unfold block_check. intros H Hmine Htheirs. rewrite Hmine, Htheirs in H.
  apply andb_true_iff in H. destruct H as [Hmoves H].
  apply negb_true_iff, Z.eqb_neq in Hmoves. split; [exact Hmoves|].
  destruct (cortex_choice b t AI_THINKING_STATE) as [v | opts]; [discriminate|].
  exists opts. split; [reflexivity|].
  apply andb_true_iff in H. destruct H as [Hlen Hall].
  split; [apply Z.ltb_lt, Hlen|].
  intros p Hp. rewrite forallb_forall in Hall.
  apply andb_true_iff. exact (Hall p Hp).
Qed.

(** X12. On a state of alternating play on which the side to move has no
    line to finish and the opponent holds two cells of some line whose
    third cell the side to move does not hold, [avarage_ai_cortex] returns a
    free cell of such a line, whatever [rand()] gives: it blocks. *)
Theorem block_when_threatened (starter : Actor) (st : GameState) (goal : Vec2)
  (rand_a rand_b i : Z) :
  reachable_from starter st -> 0 <= rand_a -> 0 <= i < 8 ->
  let t := get_move_print_triplet (board st) in
  let mine := actor_moves (turn st) t in
  let theirs := actor_moves (opponent_actor (turn st)) t in
  (forall k, 0 <= k < 8 -> finishing_line mine theirs k = false) ->
  move_print_count (Z.land theirs (match_move_print i)) = 2 ->
  Z.land mine (match_move_print i) = 0 ->
  let goal' := avarage_ai_cortex st goal rand_a rand_b in
  in_range goal'
  /\ game_board_cell (board st) goal' = FREE_MOVE
  /\ exists j,
       0 <= j < 8
       /\ move_print_count (Z.land theirs (match_move_print j)) = 2
       /\ Z.land mine (match_move_print j) = 0
       /\ move_print_inspec (match_move_print j) goal' = true.
Proof.
  intros Hreach Hrand Hi t mine theirs Hnone Hcount Hclear.
  apply reachable_consistent in Hreach.
  assert (existsb (finishing_line mine theirs) (upto 8) = false) as Hmine.
  { destruct (existsb (finishing_line mine theirs) (upto 8)) eqn:E; [|reflexivity].
    apply existsb_exists in E. destruct E as (k & Hk & Hf).
    apply upto_In in Hk. rewrite Hnone in Hf by (cbn in Hk; lia). discriminate. }
  assert (existsb (finishing_line theirs mine) (upto 8) = true) as Htheirs.
  { apply existsb_exists. exists i. split.
    - apply upto_In. cbn. lia.
    - apply finishing_line_spec. auto. }
  pose proof (check_all_boards _ block_check_all (board st)) as Hok.
  cbv beta in Hok. apply andb_true_iff in Hok.
  assert (block_check mine theirs (board st) (turn st) = true) as Hcheck.
  { subst mine theirs t.
    destruct (consistent_turn _ _ Hreach) as [-> | ->];
      cbn [actor_moves opponent_actor]; [exact (proj1 Hok) | exact (proj2 Hok)]. }
  destruct (block_check_spec _ _ _ _ Hcheck Hmine Htheirs)
    as (Hmoves & opts & Hchoice & Hlen & Hall).
  assert (moves st <> 0) as Hm.
  { destruct Hreach as (_ & _ & _ & Hm & _). rewrite Hm. exact Hmoves. }
  pose proof (cortex_choice_goal (board st) (turn st) goal) as Hg.
  rewrite Hchoice in Hg. intros goal'. subst goal'.
  rewrite (cortex_unfold _ _ _ _ Hm), Hg.
  destruct (Hall _ (pick_in_options opts rand_a Hlen Hrand)) as [Hfree Hline].
  apply free_cell_spec in Hfree. split; [apply Hfree|]. split; [apply Hfree|].
  unfold on_threat_line in Hline. apply existsb_exists in Hline.
  destruct Hline as (j & Hj & Hline). apply upto_In in Hj.
  apply andb_true_iff in Hline. destruct Hline as [Hfin Hon].
  apply finishing_line_spec in Hfin.
  exists j. split; [cbn in Hj; lia|]. tauto.
Qed.


Lemma block_when_threatened_witness :
  game_board_cell (board (play (initial_state 0) three_moves))
    (avarage_ai_cortex (play (initial_state 0) three_moves) (vec2 0 0) 0 0)
  = FREE_MOVE.
Proof.
  apply (block_when_threatened X_ACTOR (play (initial_state 0) three_moves)
           (vec2 0 0) 0 0 3
           ltac:(exists 0, three_moves; repeat split; reflexivity || lia)
           ltac:(lia) ltac:(lia)).
  - intros k Hk.
    assert (k = 0 \/ k = 1 \/ k = 2 \/ k = 3 \/ k = 4 \/ k = 5 \/ k = 6 \/ k = 7)
      as Hcases by lia.
    repeat (destruct Hcases as [-> | Hcases]; [reflexivity|]).
    rewrite Hcases. reflexivity.
  - reflexivity.
  - reflexivity.
Defined.

(** ** The pools of the strategy *)

Lemma array_set_length {A : Type} (a : list A) (i : nat) (v : A) :
  length (array_set a i v) = length a.
Proof.
  revert i. induction a as [|w a IH]; intros [|i]; cbn; try reflexivity.
  rewrite IH. reflexivity.
Qed.

Lemma array_set_same {A : Type} (a : list A) (i : nat) (v d : A) :
  (i < length a)%nat -> nth i (array_set a i v) d = v.
Proof.
  revert i. induction a as [|w a IH]; intros [|i]; cbn; intros H;
    try lia; try reflexivity.
  apply IH. lia.
Qed.

Lemma array_set_other {A : Type} (a : list A) (i j : nat) (v d : A) :
  i <> j -> nth j (array_set a i v) d = nth j a d.
Proof.
  revert i j. induction a as [|w a IH]; intros [|i] [|j] H; cbn;
    try reflexivity; try contradiction.
  apply IH. lia.
Qed.

Lemma options_list_length (opts : AvarageAIMoveOptions) :
  length (options_list opts) = Z.to_nat (len opts).
Proof. unfold options_list. rewrite length_map, length_seq. reflexivity. Qed.

(** What a push of a new cell does to the entries in use. *)
Lemma options_list_push (opts : AvarageAIMoveOptions) (move : Vec2)
  (stored : MovePrint) :
  0 <= len opts -> (Z.to_nat (len opts) < length (opt_moves opts))%nat ->
  options_list (mkOptions (len opts + 1)
                  (array_set (opt_moves opts) (Z.to_nat (len opts)) move) stored)
  = options_list opts ++ [move].
Proof.
  intros Hlen Hroom. unfold options_list. cbn [len opt_moves].
  replace (Z.to_nat (len opts + 1)) with (S (Z.to_nat (len opts))) by lia.
  rewrite seq_S, map_app. cbn [map Nat.add]. f_equal.
  - apply map_ext_in. intros k Hk. apply in_seq in Hk.
    apply array_set_other. lia.
  - rewrite array_set_same by exact Hroom. reflexivity.
Qed.

Lemma scan_positions_length : length scan_positions = 9%nat.
Proof. reflexivity. Qed.

(** Distinct cells of the board are nine at most. *)
Lemma distinct_cells_bound (l : list Vec2) :
  NoDup l -> (forall p, In p l -> in_range p) -> (length l <= 9)%nat.
Proof.
  intros Hnd Hin. rewrite <- scan_positions_length.
  apply NoDup_incl_length; [exact Hnd|].
  intros p Hp. apply in_scan_positions, Hin, Hp.
Qed.

Lemma pool_inv_bound (opts : AvarageAIMoveOptions) : pool_inv opts -> len opts <= 9.
Proof.
  intros (Hlen & _ & _ & Hnd & Hin & _).
  pose proof (distinct_cells_bound _ Hnd Hin) as H.
  rewrite options_list_length in H. lia.
Qed.

(** A cell that the mask does not record finds room in the array. *)
Lemma pool_inv_room (opts : AvarageAIMoveOptions) (move : Vec2) :
  pool_inv opts -> in_range move ->
  move_print_inspec (stored_moves opts) move = false -> len opts < 9.
Proof.
  intros (Hlen & _ & _ & Hnd & Hin & Hmask) Hmove Hnew.
  assert (~ In move (options_list opts)) as Hnot.
  { intros H. apply (Hmask move Hmove) in H. rewrite H in Hnew. discriminate. }
  assert (length (move :: options_list opts) <= 9)%nat as H.
  { apply distinct_cells_bound.
    - constructor; assumption.
    - intros p [<- | Hp]; auto. }
  cbn [length] in H. rewrite options_list_length in H. lia.
Qed.

Lemma set_bit_facts (print : MovePrint) (p q : Vec2) :
  0 <= print < 512 -> in_range p -> in_range q ->
  move_print_inspec (edit_move_print print p true) q
  = (move_print_inspec print q || Vec2_eqb p q)
  /\ 0 <= edit_move_print print p true < 512.
Proof.
  intros Hprint Hp Hq. pose proof (bit_check_holds print p q Hprint Hp Hq) as H.
  revert H. unfold bit_check. rewrite !andb_true_iff, !Z.leb_le, !Z.ltb_lt.
  intros [[[[[[H1 _] H3] H4] _] _] _].
  apply eqb_prop in H1. split; [exact H1 | lia].
Qed.

Lemma push_new (opts : AvarageAIMoveOptions) (move : Vec2) :
  move_print_inspec (stored_moves opts) move = false ->
  avarage_ai_move_options_push opts move
  = mkOptions (len opts + 1)
      (array_set (opt_moves opts) (Z.to_nat (len opts)) move)
      (edit_move_print (stored_moves opts) move true).
Proof. intros H. unfold avarage_ai_move_options_push. rewrite H. reflexivity. Qed.

Lemma push_known (opts : AvarageAIMoveOptions) (move : Vec2) :
  move_print_inspec (stored_moves opts) move = true ->
  avarage_ai_move_options_push opts move = opts.
Proof. intros H. unfold avarage_ai_move_options_push. rewrite H. reflexivity. Qed.

Lemma push_new_list (opts : AvarageAIMoveOptions) (move : Vec2) :
  pool_inv opts -> in_range move ->
  move_print_inspec (stored_moves opts) move = false ->
  options_list (avarage_ai_move_options_push opts move) = options_list opts ++ [move].
Proof.
  intros Hinv Hmove Hnew. rewrite (push_new _ _ Hnew).
  pose proof (pool_inv_room _ _ Hinv Hmove Hnew) as Hroom.
  destruct Hinv as (Hlen & Harr & _).
  apply options_list_push; [exact Hlen | rewrite Harr; lia].
Qed.

Lemma push_pool_inv (opts : AvarageAIMoveOptions) (move : Vec2) :
  pool_inv opts -> in_range move -> pool_inv (avarage_ai_move_options_push opts move).
Proof.
  intros Hinv Hmove.
  destruct (move_print_inspec (stored_moves opts) move) eqn:Hbit.
  - rewrite (push_known _ _ Hbit). exact Hinv.
  - pose proof (push_new_list _ _ Hinv Hmove Hbit) as Hlist.
    destruct Hinv as (Hlen & Harr & Hstored & Hnd & Hin & Hmask).
    assert (~ In move (options_list opts)) as Hnot.
    { intros H. apply (Hmask move Hmove) in H. rewrite H in Hbit. discriminate. }
    unfold pool_inv. rewrite Hlist. rewrite (push_new _ _ Hbit).
    cbn [len opt_moves stored_moves].
    split; [lia|]. split; [rewrite array_set_length; exact Harr|].
    split; [apply (set_bit_facts _ move move Hstored Hmove Hmove)|].
    split.
    { apply NoDup_app; [exact Hnd | repeat constructor; intros [] |].
      intros p Hp [<- | []]. contradiction. }
    split.
    { intros p Hp. apply in_app_or in Hp. destruct Hp as [Hp | [<- | []]]; auto. }
    intros p Hp.
    rewrite (proj1 (set_bit_facts _ move p Hstored Hmove Hp)).
    rewrite orb_true_iff, (Hmask p Hp), Vec2_eqb_eq, in_app_iff. cbn [In].
    intuition congruence.
Qed.

(** X13. [avarage_ai_move_options_push] keeps a pool well formed: given a
    cell of the board, the entries in use stay distinct cells that the mask
    records, so they are nine at most and the array of nine is never written
    past its end.  A cell that the pool holds already leaves it as it is; a
    new one is appended. *)
Theorem push_keeps_pool (opts : AvarageAIMoveOptions) (move : Vec2) :
  pool_inv opts -> in_range move ->
  let opts' := avarage_ai_move_options_push opts move in
  pool_inv opts'
  /\ len opts' <= 9
  /\ In move (options_list opts')
  /\ (move_print_inspec (stored_moves opts) move = true -> opts' = opts)
  /\ (move_print_inspec (stored_moves opts) move = false ->
      len opts < 9 /\ options_list opts' = options_list opts ++ [move])
  /\ avarage_ai_move_options_push opts' move = opts'.
Proof.
  intros Hinv Hmove opts'.
  pose proof (push_pool_inv _ _ Hinv Hmove) as Hinv'. fold opts' in Hinv'.
  assert (In move (options_list opts')) as Hin.
  { subst opts'. destruct (move_print_inspec (stored_moves opts) move) eqn:Hbit.
    - rewrite (push_known _ _ Hbit). destruct Hinv as (_ & _ & _ & _ & _ & Hmask).
      apply (Hmask move Hmove), Hbit.
    - rewrite (push_new_list _ _ Hinv Hmove Hbit). apply in_app_iff. cbn. auto. }
  split; [exact Hinv'|]. split; [apply pool_inv_bound, Hinv'|].
  split; [exact Hin|]. split; [apply push_known|]. split.
  - intros Hbit. split; [apply (pool_inv_room _ _ Hinv Hmove Hbit)|].
    apply (push_new_list _ _ Hinv Hmove Hbit).
  - apply push_known. destruct Hinv' as (_ & _ & _ & _ & _ & Hmask).
    apply (Hmask move Hmove), Hin.
Qed.

Lemma no_options_inv : pool_inv no_options.
Proof.
  unfold pool_inv, no_options, options_list. cbn [len opt_moves stored_moves].
  split; [lia|]. split; [reflexivity|]. split; [lia|]. split; [constructor|].
  split; [intros p []|].
  intros p Hp. split; [|intros []].
  unfold move_print_inspec. rewrite Z.land_0_l. discriminate.
Qed.

Lemma push_keeps_pool_witness :
  options_list (avarage_ai_move_options_push no_options (vec2 1 2)) = [vec2 1 2].
Proof.
  apply (push_keeps_pool no_options (vec2 1 2) no_options_inv
           ltac:(unfold in_range; cbn; lia)).
  reflexivity.
Defined.

Lemma move_print_coords_range (print : MovePrint) (p : Vec2) :
  In p (move_print_coords print) -> in_range p.
Proof.
  unfold move_print_coords. rewrite in_flat_map. intros (i & Hi & Hp).
  apply upto_In in Hi.
  destruct (Z.land (Z.shiftr print i) 1 =? 0); [contradiction|].
  destruct Hp as [<- | []]. unfold in_range. cbn [vx vy].
  assert (i = 0 \/ i = 1 \/ i = 2 \/ i = 3 \/ i = 4 \/ i = 5 \/ i = 6 \/ i = 7
          \/ i = 8) as Hcases by (cbn in Hi; lia).
  repeat (destruct Hcases as [-> | Hcases]; [cbn; lia|]).
  rewrite Hcases. cbn. lia.
Qed.

Lemma nth_coords_range (print : MovePrint) (k : nat) :
  in_range (nth k (move_print_coords print) (vec2 0 0)).
Proof.
  destruct (nth_in_or_default k (move_print_coords print) (vec2 0 0)) as [H | ->].
  - apply (move_print_coords_range print), H.
  - unfold in_range. cbn. lia.
Qed.

Lemma fold_push_inv (coords : MovePrint) (js : list Z) :
  forall opts,
    pool_inv opts ->
    pool_inv (fold_left (fun opts j =>
                  avarage_ai_move_options_push opts
                    (nth (Z.to_nat j) (move_print_coords coords) (vec2 0 0)))
                js opts).
Proof.
  induction js as [|j js IH]; intros opts Hinv; [exact Hinv|].
  cbn [fold_left]. apply IH, push_pool_inv; [exact Hinv | apply nth_coords_range].
Qed.

Lemma cortex_scan_inv (lines : list Z) (mine theirs : MovePrint) (goal : Vec2) :
  forall pools,
    pools_inv pools ->
    match cortex_scan lines mine theirs goal pools with
    | inl _ => True
    | inr pools' => pools_inv pools'
    end.
Proof.
  induction lines as [|i lines IH]; intros pools Hinv; [exact Hinv|].
  cbn [cortex_scan]. cbv zeta. destruct Hinv as (Hd & Ha & Hu).
  destruct (avarage_ai_test_winner _ _); [exact I|].
  destruct (avarage_ai_is_line_potentially_useless _ _).
  - apply IH. unfold pools_inv. cbn [danger_cells avarage_moves potentially_useless].
    split; [exact Hd|]. split; [exact Ha|]. apply fold_push_inv, Hu.
  - destruct (avarage_ai_test_winner _ _).
    + apply IH. unfold pools_inv.
      cbn [danger_cells avarage_moves potentially_useless].
      split; [|split; [exact Ha | exact Hu]].
      apply push_pool_inv; [exact Hd | apply nth_coords_range].
    + apply IH. unfold pools_inv.
      cbn [danger_cells avarage_moves potentially_useless].
      split; [exact Hd|]. split; [|exact Hu].
      apply push_pool_inv; [|apply nth_coords_range].
      apply push_pool_inv; [exact Ha | apply nth_coords_range].
Qed.

(** X14. Whatever the board, the three pools that the scan of
    [avarage_ai_cortex] fills are well formed at its end: each holds
    distinct cells of the board, nine at most, recorded one by one in its
    mask.  No push of the scan writes past the array. *)
Theorem scan_pools_well_formed (b : GameBoard) (me : Actor) (goal : Vec2) :
  match cortex_pools b me goal with
  | inl _ => True
  | inr pools =>
      pools_inv pools
      /\ len (danger_cells pools) <= 9
      /\ len (avarage_moves pools) <= 9
      /\ len (potentially_useless pools) <= 9
  end.
Proof.
  unfold cortex_pools. cbv zeta.
  match goal with
  | |- match cortex_scan ?l ?m ?t ?g ?p with _ => _ end =>
      pose proof (cortex_scan_inv l m t g p) as H;
      destruct (cortex_scan l m t g p) as [v | pools]
  end; [exact I|].
  assert (pools_inv pools) as Hinv.
  { apply H. unfold pools_inv. cbn [danger_cells avarage_moves potentially_useless].
    auto using no_options_inv. }
  split; [exact Hinv|]. destruct Hinv as (Hd & Ha & Hu).
  auto using pool_inv_bound.
Qed.

(** ** The fill animation of a draw *)

Lemma animated_check_all :
  forallb (fun a =>
      forallb (fun s => forallb (fun s' => animated_check a s s') (upto 8)) (upto 8))
    (upto 256) = true.
Proof. vm_cast_no_check (eq_refl true). Qed.

Lemma missing_check_all :
  forallb (fun b => missing_check (t_free (get_move_print_triplet b)) b) all_boards
  = true.
Proof. vm_cast_no_check (eq_refl true). Qed.

Lemma animated_bits (animated s s' : Z) :
  0 <= animated < 256 -> 0 <= s < 8 -> 0 <= s' < 8 ->
  (Z.land (uint8 (Z.lor animated (Z.shiftl 1 s))) (Z.shiftl 1 s') <> 0
   <-> Z.land animated (Z.shiftl 1 s') <> 0 \/ s = s').
Proof.
  intros Ha Hs Hs'. pose proof animated_check_all as H.
  rewrite forallb_forall in H.
  specialize (H animated (proj2 (upto_In 256 animated) ltac:(cbn; lia))).
  rewrite forallb_forall in H.
  specialize (H s (proj2 (upto_In 8 s) ltac:(cbn; lia))).
  rewrite forallb_forall in H.
  specialize (H s' (proj2 (upto_In 8 s') ltac:(cbn; lia))).
  unfold animated_check in H. apply eqb_prop in H.
  rewrite <- Z.eqb_neq, <- negb_true_iff, H, orb_true_iff, negb_true_iff,
    Z.eqb_neq, Z.eqb_eq.
  tauto.
Qed.

Lemma missing_cells (b : GameBoard) (p : Vec2) :
  in_range p -> game_board_cell b p = FREE_MOVE ->
  In p (move_print_coords (t_free (get_move_print_triplet b))).
Proof.
  intros Hp Hfree.
  pose proof (check_all_boards _ missing_check_all b) as H. cbv beta in H.
  revert H. generalize (t_free (get_move_print_triplet b)). intros free H.
  unfold missing_check in H. rewrite forallb_forall in H.
  specialize (H p (in_scan_positions p Hp)). cbv beta in H.
  rewrite (proj2 (free_cell_spec b p) (conj Hp Hfree)) in H.
  apply existsb_exists in H. destruct H as (q & Hq & Heq).
  apply Vec2_eqb_eq in Heq. rewrite Heq. exact Hq.
Qed.

(** The [do ... while] ends on a cell not animated yet. *)
Lemma pick_unanimated_spec (missing_len animated : Z) (rands : list Z) :
  forall selection_ rands',
    Forall (fun r => 0 <= r) rands -> 0 < missing_len ->
    pick_unanimated missing_len animated rands = Some (selection_, rands') ->
    0 <= selection_ < missing_len
    /\ Z.land animated (Z.shiftl 1 selection_) = 0
    /\ Forall (fun r => 0 <= r) rands'
    /\ (length rands' < length rands)%nat.
Proof.
  induction rands as [|r rands IH]; intros selection_ rands' Hrands Hlen Hpick;
    [discriminate|].
  cbn [pick_unanimated] in Hpick. inversion Hrands as [|r0 l0 Hr Hrest]; subst.
  destruct (Z.eqb_spec (Z.land animated (Z.shiftl 1 (Z.rem r missing_len))) 0)
    as [E | E].
  - injection Hpick as <- <-.
    pose proof (Z.rem_bound_pos r missing_len Hr Hlen). cbn [length].
    repeat split; auto; lia.
  - destruct (IH _ _ Hrest Hlen Hpick) as (H1 & H2 & H3 & H4).
    cbn [length]. repeat split; auto; lia.
Qed.

Lemma Vec2_eq_dec (p q : Vec2) : {p = q} + {p <> q}.
Proof.
  destruct (Vec2_eqb p q) eqn:E.
  - left. apply Vec2_eqb_eq, E.
  - right. intros H. apply Vec2_eqb_eq in H. rewrite H in E. discriminate.
Qed.

Lemma actor_to_move_taken (t : Actor) :
  t = X_ACTOR \/ t = O_ACTOR -> actor_to_move t <> FREE_MOVE.
Proof. intros [-> | ->]; discriminate. Qed.

Lemma opponent_actor_side (t : Actor) :
  t = X_ACTOR \/ t = O_ACTOR ->
  opponent_actor t = X_ACTOR \/ opponent_actor t = O_ACTOR.
Proof. intros [-> | ->]; cbn; auto. Qed.

(** The loop of the animation, [done] being the cells animated so far. *)
Lemma fill_loop_fills (missing_len : Z) (missing_coords : list Vec2) (n : nat) :
  0 < missing_len <= 8 ->
  length missing_coords = Z.to_nat missing_len ->
  (forall p, In p missing_coords -> in_range p) ->
  forall board_ turn_ animated rands board' rands' (done : list Z),
    turn_ = X_ACTOR \/ turn_ = O_ACTOR ->
    Forall (fun r => 0 <= r) rands ->
    0 <= animated < 256 ->
    (forall s, 0 <= s < missing_len ->
       (Z.land animated (Z.shiftl 1 s) <> 0 <-> In s done)) ->
    NoDup done ->
    (forall s, In s done -> 0 <= s < missing_len) ->
    (forall s, In s done ->
       game_board_cell board_ (nth (Z.to_nat s) missing_coords (vec2 0 0))
       <> FREE_MOVE) ->
    (length done + n = Z.to_nat missing_len)%nat ->
    fill_loop n missing_len missing_coords board_ turn_ animated rands
    = Some (board', rands') ->
    (forall s, 0 <= s < missing_len ->
       game_board_cell board' (nth (Z.to_nat s) missing_coords (vec2 0 0))
       <> FREE_MOVE)
    /\ (length rands' + n <= length rands)%nat.
Proof.
  intros Hlen Hcoords Hrange.
  assert (forall s, 0 <= s < missing_len ->
            in_range (nth (Z.to_nat s) missing_coords (vec2 0 0))) as Hnth.
  { intros s Hs. apply Hrange, nth_In. lia. }
  induction n as [|n IH];
    intros board_ turn_ animated rands board' rands' done
      Hturn Hrands Hanim Hbits Hnd Hdone Hcells Hcount Hfill.
  - cbn [fill_loop] in Hfill. injection Hfill as <- <-. split; [|lia].
    intros s Hs. apply Hcells.
    apply (NoDup_length_incl Hnd (l' := upto (Z.to_nat missing_len))).
    + unfold upto. rewrite length_map, length_seq. lia.
    + intros k Hk. apply upto_In. specialize (Hdone k Hk). lia.
    + apply upto_In. lia.
  - cbn [fill_loop] in Hfill.
    destruct (pick_unanimated missing_len animated rands)
      as [[selection_ rands1]|] eqn:Hpick; [|discriminate].
    destruct (pick_unanimated_spec _ _ _ _ _ Hrands (proj1 Hlen) Hpick)
      as (Hsel & Hclear & Hrands1 & Hshort).
    assert (~ In selection_ done) as Hnew.
    { intros H. apply (Hbits _ Hsel) in H. contradiction. }
    refine (_ (IH _ _ _ _ _ _ (selection_ :: done)
                 (opponent_actor_side _ Hturn) Hrands1 _ _ _ _ _ _ Hfill)).
    + intros [Hfilled Hused]. split; [exact Hfilled | lia].
    + unfold uint8. apply Z.mod_pos_bound. lia.
    + intros s Hs. rewrite animated_bits by lia. rewrite (Hbits s Hs).
      cbn [In]. tauto.
    + constructor; assumption.
    + intros s [<- | Hs]; auto.
    + intros s Hs.
      assert (0 <= s < missing_len) as Hs' by (destruct Hs as [<- | Hs]; auto).
      destruct (Vec2_eq_dec (nth (Z.to_nat s) missing_coords (vec2 0 0))
                  (nth (Z.to_nat selection_) missing_coords (vec2 0 0))) as [E | E].
      * rewrite E, set_get_same by (apply Hnth, Hsel).
        apply actor_to_move_taken, Hturn.
      * rewrite set_get_other by (auto using Hnth).
        destruct Hs as [<- | Hs]; [contradiction E; reflexivity | apply Hcells, Hs].
    + cbn [length]. lia.
Qed.

Lemma ones_check_all : forallb ones_check (upto 8) = true.
Proof. vm_compute. reflexivity. Qed.

(** When [rand()] returns 0, 1, 2, ... the loop never draws twice. *)
Lemma fill_loop_runs (missing_len : Z) (missing_coords : list Vec2) (n : nat) :
  forall (k : nat) board_ turn_ rest,
    Z.of_nat (k + n) = missing_len -> missing_len <= 8 ->
    exists b,
      fill_loop n missing_len missing_coords board_ turn_ (2 ^ Z.of_nat k - 1)
        (map Z.of_nat (seq k n) ++ rest)
      = Some (b, rest).
Proof.
  induction n as [|n IH]; intros k board_ turn_ rest Hlen Hmax.
  - exists board_. reflexivity.
  - cbn [fill_loop seq map app pick_unanimated].
    assert (Z.rem (Z.of_nat k) missing_len = Z.of_nat k) as Hrem.
    { apply Z.rem_small. lia. }
    pose proof ones_check_all as Hones. rewrite forallb_forall in Hones.
    assert (0 <= Z.of_nat k < Z.of_nat 8) as Hk by lia.
    specialize (Hones (Z.of_nat k) (proj2 (upto_In 8 _) Hk)).
    unfold ones_check in Hones. apply andb_true_iff in Hones.
    destruct Hones as [Hclear Hnext]. apply Z.eqb_eq in Hnext.
    rewrite Hrem, Hclear, Hnext.
    replace (Z.of_nat k + 1) with (Z.of_nat (S k)) by lia.
    apply IH; lia.
Qed.

(** X15. The fill animation of a draw, run as [render_game] runs it on the
    free cells of the board, three at most, which is what [missing_coords]
    takes and what a draw leaves free, with a side to begin: the positions
    fit the array; for the values 0, 1, 2, ... of [rand()] the animation
    ends; and whenever it ends, it has left no cell of the board free, has
    kept every mark of the game, and has used at least one value of
    [rand()] for each cell it filled. *)
Theorem fill_animation_fills (board_ : GameBoard) (turn_ : Actor) :
  turn_ = X_ACTOR \/ turn_ = O_ACTOR ->
  let missing := t_free (get_move_print_triplet board_) in
  move_print_count missing <= 3 ->
  (length (move_print_coords missing) <= 3)%nat
  /\ (forall rest, exists b,
      game_board_fill_animation board_ turn_ missing
        (upto (Z.to_nat (move_print_count missing)) ++ rest) = Some (b, rest))
  /\ (forall rands board' rands',
        Forall (fun r => 0 <= r) rands ->
        game_board_fill_animation board_ turn_ missing rands = Some (board', rands') ->
        (forall pos, in_range pos -> game_board_cell board' pos <> FREE_MOVE)
        /\ (forall pos, in_range pos -> game_board_cell board_ pos <> FREE_MOVE ->
                        game_board_cell board' pos = game_board_cell board_ pos)
        /\ (length rands' + Z.to_nat (move_print_count missing) <= length rands)%nat).
Proof.
  intros Hturn missing Hmax.
  destruct (free_coords board_) as [Hlen Hfree]. fold missing in Hlen, Hfree.
  pose proof (move_print_count_nonneg missing) as Hpos.
  split; [lia|]. split.
  - intros rest. unfold game_board_fill_animation. cbv zeta.
    apply (fill_loop_runs _ _ _ 0%nat); lia.
  - intros rands board' rands' Hrands Hfill.
    assert (forall pos, in_range pos -> game_board_cell board_ pos <> FREE_MOVE ->
              game_board_cell board' pos = game_board_cell board_ pos) as Hkept.
    { intros pos Hpos' Htaken.
      apply (fill_animation_preserves _ _ _ _ _ _ Hlen (fun p Hp => proj1 (Hfree p Hp))
               Hfill pos Hpos').
      intros Hin. apply Htaken, (Hfree pos Hin). }
    assert ((forall s, 0 <= s < move_print_count missing ->
               game_board_cell board'
                 (nth (Z.to_nat s) (move_print_coords missing) (vec2 0 0)) <> FREE_MOVE)
            /\ (length rands' + Z.to_nat (move_print_count missing) <= length rands)%nat)
      as [Hfilled Hused].
    { destruct (Z.eq_dec (move_print_count missing) 0) as [E | E].
      - split; [intros s Hs; lia|].
        revert Hfill. unfold game_board_fill_animation. cbv zeta. rewrite E.
        cbn [Z.to_nat fill_loop]. intros Hfill. injection Hfill as _ <-. lia.
      - revert Hfill. unfold game_board_fill_animation. cbv zeta. intros Hfill.
        assert (0 < move_print_count missing <= 8) as Hbound by lia.
        apply (fill_loop_fills _ _ _ Hbound Hlen (fun p Hp => proj1 (Hfree p Hp))
                 board_ turn_ 0 rands board' rands' [] Hturn Hrands ltac:(lia)).
        + intros s Hs. rewrite Z.land_0_l. cbn [In]. tauto.
        + constructor.
        + intros s [].
        + intros s [].
        + cbn [length]. lia.
        + exact Hfill. }
    split; [|split; [exact Hkept | exact Hused]].
    intros pos Hpos'.
    destruct (Move_eqb (game_board_cell board_ pos) FREE_MOVE) eqn:E.
    + apply Move_eqb_eq in E. pose proof (missing_cells board_ pos Hpos' E) as Hin.
      fold missing in Hin.
      destruct (In_nth _ _ (vec2 0 0) Hin) as (k & Hk & <-).
      rewrite <- (Nat2Z.id k). apply Hfilled. lia.
    + assert (game_board_cell board_ pos <> FREE_MOVE) as Htaken.
      { intros H. apply Move_eqb_eq in H. rewrite H in E. discriminate. }
      rewrite (Hkept pos Hpos' Htaken). exact Htaken.
Qed.

Lemma fill_animation_fills_witness :
  exists b,
    game_board_fill_animation (board (play (initial_state 0) draw_game)) X_ACTOR
      (t_free (get_move_print_triplet (board (play (initial_state 0) draw_game))))
      ([0; 1; 2] ++ []) = Some (b, []).
Proof.
  apply (fill_animation_fills (board (play (initial_state 0) draw_game)) X_ACTOR
           ltac:(auto) ltac:(vm_compute; discriminate)).
Defined.

(** ** The keys of the game *)

(** The bytes that [keyboard_input] and the [switch] of [player_game_input]
    turn into an input are the ones of the table [key_bytes]. *)
Lemma key_bytes_spec (seq : list Z) (i : GameInput) :
  input_of_key (keyboard_input seq) = Some i <-> In seq (key_bytes i).
Proof.
  split.
  - destruct seq as [|a [|b [|c [|d l]]]]; cbn [keyboard_input input_of_key];
      try discriminate.
    + repeat match goal with
             | |- context [if ?x =? ?k then _ else _] =>
                 destruct (Z.eqb_spec x k); [subst|]
             end;
        cbn [input_of_key]; try discriminate;
        try (intros H; injection H as <-; cbn; tauto).
      destruct (Z.eqb_spec a 13); [subst|];
        [|destruct (Z.eqb_spec a 10); [subst|]];
        cbn [orb input_of_key]; try discriminate;
        intros H; injection H as <-; cbn; tauto.
    + destruct (Z.eqb_spec a 27); [subst|]; cbn [andb input_of_key];
        [|discriminate].
      destruct (Z.eqb_spec b 91); [subst|]; cbn [andb input_of_key];
        [|discriminate].
      destruct ((65 <=? c) && (c <=? 68)); cbn [input_of_key]; [|discriminate].
      repeat match goal with
             | |- context [if ?x =? ?k then _ else _] =>
                 destruct (Z.eqb_spec x k); [subst|]
             end;
        cbn [input_of_key]; try discriminate;
        intros H; injection H as <-; cbn; tauto.
  - destruct i; cbn [key_bytes In];
      intros H; repeat (destruct H as [<- | H]; [reflexivity|]); contradiction.
Qed.

Lemma player_game_input_step (seq : list Z) (reads : list (list Z)) :
  player_game_input (seq :: reads)
  = match input_of_key (keyboard_input seq) with
    | Some i => Some (i, reads)
    | None => player_game_input reads
    end.
Proof. cbn [player_game_input]. destruct (keyboard_input seq); reflexivity. Qed.

(** X16. [player_game_input] returns the input of the first read that is
    one of the fourteen byte sequences of the keys of the game, and leaves
    the reads after it; every other read, such as a digit, an escape
    sequence of another length or an empty read, is skipped. *)
Theorem player_input_first_key (reads rest : list (list Z)) (i : GameInput) :
  player_game_input reads = Some (i, rest)
  <-> exists skipped seq,
        reads = skipped ++ seq :: rest
        /\ (forall s j, In s skipped -> ~ In s (key_bytes j))
        /\ In seq (key_bytes i).
Proof.
  split.
  - induction reads as [|seq reads IH]; [discriminate|].
    rewrite player_game_input_step.
    destruct (input_of_key (keyboard_input seq)) as [j|] eqn:E.
    + intros H. injection H as <- <-.
      exists [], seq. split; [reflexivity|]. split; [intros s j0 []|].
      apply key_bytes_spec, E.
    + intros H. destruct (IH H) as (skipped & seq' & -> & Hskip & Hkey).
      exists (seq :: skipped), seq'. split; [reflexivity|]. split; [|exact Hkey].
      intros s j [<- | Hs]; [|apply Hskip, Hs].
      intros Hin. apply key_bytes_spec in Hin. rewrite Hin in E. discriminate.
  - intros (skipped & seq & -> & Hskip & Hkey).
    induction skipped as [|s skipped IH]; cbn [app];
      rewrite player_game_input_step.
    + rewrite (proj2 (key_bytes_spec seq i) Hkey). reflexivity.
    + destruct (input_of_key (keyboard_input s)) as [j|] eqn:E.
      * apply key_bytes_spec in E. contradiction (Hskip s j (or_introl eq_refl)).
      * apply IH. intros s' j Hs'. apply Hskip. right. exact Hs'.
Qed.

Lemma blocking_confirm_step (seq : list Z) (reads : list (list Z)) :
  blocking_confirm (seq :: reads)
  = match input_of_key (keyboard_input seq) with
    | Some MOVE_INPUT => Some (true, reads)
    | Some QUIT_INPUT => Some (false, reads)
    | _ => blocking_confirm reads
    end.
Proof. cbn [blocking_confirm]. destruct (keyboard_input seq); reflexivity. Qed.

(** X17. [blocking_confirm] waits for a key that in the game would mark a
    cell or quit, and passes over everything else, the keys that move the
    cursor among them: it returns [true] on the first read bound to
    [MOVE_INPUT] and [false] on the first bound to [QUIT_INPUT]. *)
Theorem confirm_first_key (reads rest : list (list Z)) (confirmed : bool) :
  blocking_confirm reads = Some (confirmed, rest)
  <-> exists skipped seq,
        reads = skipped ++ seq :: rest
        /\ (forall s, In s skipped ->
              ~ In s (key_bytes MOVE_INPUT) /\ ~ In s (key_bytes QUIT_INPUT))
        /\ In seq (key_bytes (if confirmed then MOVE_INPUT else QUIT_INPUT)).
Proof.
  split.
  - induction reads as [|seq reads IH]; [discriminate|].
    rewrite blocking_confirm_step.
    assert (blocking_confirm reads = Some (confirmed, rest) ->
            ~ In seq (key_bytes MOVE_INPUT) -> ~ In seq (key_bytes QUIT_INPUT) ->
            exists skipped seq',
              seq :: reads = skipped ++ seq' :: rest
              /\ (forall s, In s skipped ->
                    ~ In s (key_bytes MOVE_INPUT) /\ ~ In s (key_bytes QUIT_INPUT))
              /\ In seq' (key_bytes (if confirmed then MOVE_INPUT else QUIT_INPUT)))
      as Hskipped.
    { intros H Hmove Hquit. destruct (IH H) as (skipped & seq' & -> & Hskip & Hkey).
      exists (seq :: skipped), seq'. split; [reflexivity|]. split; [|exact Hkey].
      intros s [<- | Hs]; [auto | apply Hskip, Hs]. }
    destruct (input_of_key (keyboard_input seq)) as [j|] eqn:E.
    + assert (forall j', j' <> j -> ~ In seq (key_bytes j')) as Hother.
      { intros j' Hne Hin. apply key_bytes_spec in Hin. congruence. }
      destruct j; try (intros H; apply Hskipped;
                       [exact H | apply Hother; discriminate
                        | apply Hother; discriminate]).
      * intros H. injection H as <- <-. exists [], seq.
        split; [reflexivity|]. split; [intros s []|]. apply key_bytes_spec, E.
      * intros H. injection H as <- <-. exists [], seq.
        split; [reflexivity|]. split; [intros s []|]. apply key_bytes_spec, E.
    + intros H. apply Hskipped; [exact H | |];
        intros Hin; apply key_bytes_spec in Hin; congruence.
  - intros (skipped & seq & -> & Hskip & Hkey).
    induction skipped as [|s skipped IH]; cbn [app]; rewrite blocking_confirm_step.
    + apply key_bytes_spec in Hkey. rewrite Hkey. destruct confirmed; reflexivity.
    + assert (blocking_confirm (skipped ++ seq :: rest) = Some (confirmed, rest))
        as Hrest by (apply IH; intros s' Hs'; apply Hskip; right; exact Hs').
      destruct (Hskip s (or_introl eq_refl)) as [Hmove Hquit].
      destruct (input_of_key (keyboard_input s)) as [j|] eqn:E; [|exact Hrest].
      apply key_bytes_spec in E. destruct j; try exact Hrest; contradiction.
Qed.

(** ** The length of a text *)

Lemma continuation_check_all : forallb continuation_check (upto 256) = true.
Proof. vm_compute. reflexivity. Qed.

Lemma continuation_byte (c : Z) :
  0 <= c < 256 -> (Z.land c 192 =? 128) = ((128 <=? c) && (c <=? 191)).
Proof.
  intros Hc. pose proof continuation_check_all as H. rewrite forallb_forall in H.
  apply eqb_prop, (H c), upto_In. cbn. lia.
Qed.

Lemma ustrlen_from_bounds (str : list Z) :
  forall ln,
    ulen ln <= ulen (ustrlen_from str ln) <= ulen ln + Z.of_nat (length str)
    /\ blen ln <= blen (ustrlen_from str ln) <= blen ln + Z.of_nat (length str)
    /\ ulen (ustrlen_from str ln) - ulen ln <= blen (ustrlen_from str ln) - blen ln.
Proof.
  induction str as [|c str IH]; intros ln; cbn [ustrlen_from length]; [lia|].
  destruct (c =? 0); [lia|].
  specialize (IH (mkUStrLenRes (ulen ln + (if Z.land c 192 =? 128 then 0 else 1))
                    (blen ln + 1))).
  cbn [ulen blen] in IH. destruct (Z.land c 192 =? 128); lia.
Qed.

Lemma ustrlen_from_continuation (conts tail : list Z) :
  Forall (fun c => 128 <= c <= 191) conts ->
  forall ln,
    ustrlen_from (conts ++ tail) ln
    = ustrlen_from tail (mkUStrLenRes (ulen ln) (blen ln + Z.of_nat (length conts))).
Proof.
  induction 1 as [|c conts Hc _ IH]; intros ln.
  - cbn [app length Z.of_nat]. rewrite Z.add_0_r. destruct ln; reflexivity.
  - cbn [app ustrlen_from length].
    destruct (Z.eqb_spec c 0) as [E | _]; [lia|].
    rewrite continuation_byte by lia.
    rewrite (proj2 (Z.leb_le 128 c)), (proj2 (Z.leb_le c 191)) by lia.
    cbn [andb]. rewrite IH. cbn [ulen blen]. f_equal. f_equal; lia.
Qed.

Lemma ustrlen_from_chars (chars : list (list Z)) (tail : list Z) :
  Forall utf8_char chars ->
  forall ln,
    ustrlen_from (concat chars ++ tail) ln
    = ustrlen_from tail
        (mkUStrLenRes (ulen ln + Z.of_nat (length chars))
           (blen ln + Z.of_nat (length (concat chars)))).
Proof.
  induction 1 as [|char chars Hchar _ IH]; intros ln.
  - cbn [concat app length Z.of_nat]. rewrite !Z.add_0_r. destruct ln; reflexivity.
  - destruct char as [|lead conts]; [contradiction|].
    destruct Hchar as (Hlead & Hnot & Hconts).
    cbn [concat]. rewrite <- !app_assoc. cbn [app ustrlen_from].
    destruct (Z.eqb_spec lead 0) as [E | _]; [lia|].
    rewrite continuation_byte by lia.
    assert ((128 <=? lead) && (lead <=? 191) = false) as ->.
    { destruct (Z.leb_spec 128 lead); destruct (Z.leb_spec lead 191);
        try reflexivity. lia. }
    rewrite (ustrlen_from_continuation _ _ Hconts), IH. cbn [ulen blen].
    f_equal. f_equal; rewrite ?length_app; cbn [length]; rewrite ?length_app; lia.
Qed.

(** X18. [ustrlen] of a string that holds code points in UTF-8 and then
    the byte 0 counts the code points in [ulen] and their bytes in [blen],
    and reads nothing past the 0.  On any memory [ulen] is at most [blen],
    and [write_center] moves the cursor left by half of [ulen], rounded
    up. *)
Theorem ustrlen_counts_code_points (chars : list (list Z)) (after : list Z) :
  Forall utf8_char chars ->
  let str := concat chars ++ 0 :: after in
  ustrlen str
  = mkUStrLenRes (Z.of_nat (length chars)) (Z.of_nat (length (concat chars)))
  /\ 0 <= ulen (ustrlen str) <= blen (ustrlen str)
  /\ 2 * visual_half str - 1 <= ulen (ustrlen str) <= 2 * visual_half str.
Proof.
  intros Hchars str.
  assert (ustrlen str
          = mkUStrLenRes (Z.of_nat (length chars)) (Z.of_nat (length (concat chars))))
    as Hlen.
  { unfold ustrlen. subst str. rewrite (ustrlen_from_chars _ _ Hchars).
    reflexivity. }
  split; [exact Hlen|].
  pose proof (ustrlen_from_bounds str (mkUStrLenRes 0 0)) as Hb.
  fold (ustrlen str) in Hb. cbn [ulen blen] in Hb.
  split; [lia|]. unfold visual_half.
  pose proof (Z.quot_rem' (ulen (ustrlen str)) 2) as Hq.
  pose proof (Z.rem_bound_pos (ulen (ustrlen str)) 2 ltac:(lia) ltac:(lia)). lia.
Qed.

Lemma ustrlen_counts_code_points_witness :
  ustrlen ([74] ++ [195; 161] ++ [0; 65])
  = mkUStrLenRes 2 3.
Proof.
  apply (ustrlen_counts_code_points [[74]; [195; 161]] [65]).
  repeat constructor; cbn; lia.
Defined.

(** ** The turn of the computer player *)

(** From a thinking brain to the move: the walk and the call after it. *)
Lemma ai_turn_steps (st : GameState) (thought : Vec2) :
  in_range (selection st) -> in_range thought ->
  let n := Z.to_nat (walk_length (selection st) thought) in
  ai_steps (S n) st AI_THINKING_STATE thought
  = (snd (process_game_input (select st thought) MOVE_INPUT), AI_THINKING_STATE)
  /\ (n <= 4)%nat
  /\ (forall k, (k <= n)%nat ->
        unselect (fst (ai_steps k st AI_THINKING_STATE thought)) = unselect st).
Proof.
  intros Hsel Hgoal. destruct st as [b sel t m e]. cbn [selection] in *.
  split_pos sel; split_pos thought; cbv zeta;
    (split; [reflexivity|]); (split; [cbn; lia|]);
    intros k Hk; cbn in Hk;
    repeat (destruct k as [|k]; [reflexivity|]); lia.
Qed.

(** X19. The turn of the computer player with the block-or-win strategy.
    In a state of the event loop that [process_game_state] leaves running,
    a thinking brain settles on a free cell, walks the cursor there in at
    most four inputs, during which the game stays running, and marks the
    cell: after the walk and one more input the board holds the mark of
    the side to move on that cell, the turn has passed to the other side,
    one move more is counted, and the brain is thinking again. *)
Theorem machine_turn (r : Z) (g : Actor) (st : GameState) (rand_a rand_b : Z) :
  0 <= r -> loop_reach r g st ->
  endgame (snd (process_game_state g st)) = RUNNING ->
  0 <= rand_a -> 0 <= rand_b ->
  let thought := avarage_ai_cortex st AI_THINKING_STATE rand_a rand_b in
  let n := Z.to_nat (walk_length (selection st) thought) in
  (n <= 4)%nat
  /\ game_board_cell (board st) thought = FREE_MOVE
  /\ ai_steps (S n) st AI_THINKING_STATE thought
     = (mkState (set_game_board_cell (board st) thought (actor_to_move (turn st)))
          thought (opponent_actor (turn st)) (moves st + 1) RUNNING,
        AI_THINKING_STATE)
  /\ (forall k, (k <= n)%nat ->
        endgame (snd (process_game_state (fst (process_game_state g st))
                        (fst (ai_steps k st AI_THINKING_STATE thought))))
        = RUNNING).
Proof.
  intros Hr Hloop Hrun Ha Hb thought n.
  destruct (loop_reach_inv r g st Hr Hloop) as [Hreach Hstatic].
  apply reachable_consistent in Hreach.
  rewrite (loop_verdict r g st Hr Hloop) in Hrun |- *.
  pose proof (cortex_free_consistent _ _ AI_THINKING_STATE _ _ Hreach Hrun Ha Hb)
    as Hfree.
  fold thought in Hfree. apply free_cell_spec in Hfree. destruct Hfree as [Hin Hfree].
  destruct (ai_turn_steps st thought (proj1 (proj2 Hreach)) Hin)
    as (Hsteps & Hn & Hkeep).
  fold n in Hsteps, Hn, Hkeep.
  pose proof (consistent_moves_bound _ _ Hreach) as Hbound.
  split; [exact Hn|]. split; [exact Hfree|]. split.
  - rewrite Hsteps, commit_move by exact Hfree.
    cbn [select board selection turn moves endgame].
    rewrite uint8_small by lia.
    rewrite (proj1 (proj2 (proj2 Hreach))). reflexivity.
  - intros k Hk.
    assert (fst (process_game_state (turn (initial_state r)) st)
            = turn (initial_state r)) as ->.
    { rewrite (proj1 (process_game_state_cases _ st)).
      destruct (Z.eqb_spec (moves st) 0) as [E | E]; [|reflexivity].
      destruct Hreach as (_ & _ & _ & _ & _ & _ & Ht). rewrite Ht, E. reflexivity. }
    rewrite process_game_state_unselect, (Hkeep k Hk),
      <- process_game_state_unselect.
    exact Hrun.
Qed.

Lemma machine_turn_witness :
  game_board_cell (board (play (initial_state 0) three_moves))
    (avarage_ai_cortex (play (initial_state 0) three_moves) AI_THINKING_STATE 0 0)
  = FREE_MOVE.
Proof.
  apply (machine_turn 0 X_ACTOR (play (initial_state 0) three_moves) 0 0
           ltac:(lia) three_moves_in_loop ltac:(reflexivity) ltac:(lia) ltac:(lia)).
Defined.

(** ** The strategy when there is nothing to finish and nothing to block *)

Lemma neutral_check_all :
  forallb (fun b => neutral_check b X_ACTOR && neutral_check b O_ACTOR) all_boards
  = true.
Proof. vm_cast_no_check (eq_refl true). Qed.

Lemma neutral_choice_spec (mine theirs : MovePrint) (b : GameBoard) (t : Actor) :
  neutral_choice_ok mine theirs b t = true ->
  existsb (finishing_line mine theirs) (upto 8) = false ->
  existsb (finishing_line theirs mine) (upto 8) = false ->
  exists opts,
    cortex_choice b t AI_THINKING_STATE = inr opts
    /\ 0 < len opts
    /\ forall p, In p (options_list opts) ->
         free_cell b p = true /\ on_open_line mine theirs p = true.
Proof.
  unfold neutral_choice_ok. intros H Hmine Htheirs. rewrite Hmine, Htheirs in H.
  destruct (cortex_choice b t AI_THINKING_STATE) as [v | opts]; [discriminate|].
  exists opts. split; [reflexivity|].
  apply andb_true_iff in H. destruct H as [Hlen Hall].
  split; [apply Z.ltb_lt, Hlen|].
  intros p Hp. rewrite forallb_forall in Hall.
  apply andb_true_iff. exact (Hall p Hp).
Qed.

Lemma no_line_in (f : Z -> bool) :
  (forall k, 0 <= k < 8 -> f k = false) -> existsb f (upto 8) = false.
Proof.
  intros Hnone. destruct (existsb f (upto 8)) eqn:E; [|reflexivity].
  apply existsb_exists in E. destruct E as (k & Hk & Hf).
  apply upto_In in Hk. rewrite Hnone in Hf by (cbn in Hk; lia). discriminate.
Qed.

(** X20. After move 0, on a state of alternating play that
    [process_game_state] leaves running and on which neither side has a line
    to finish, [avarage_ai_cortex] returns a free cell of a line on which
    the opponent has exactly one cell and the side to move none, whatever
    [rand()] gives.  Lines that hold a mark of the side to move do not
    count. *)
Theorem neither_finish_nor_block (starter : Actor) (st : GameState) (goal : Vec2)
  (rand_a rand_b : Z) :
  reachable_from starter st -> moves st <> 0 ->
  endgame (snd (process_game_state starter st)) = RUNNING ->
  0 <= rand_a ->
  let t := get_move_print_triplet (board st) in
  let mine := actor_moves (turn st) t in
  let theirs := actor_moves (opponent_actor (turn st)) t in
  (forall k, 0 <= k < 8 -> finishing_line mine theirs k = false) ->
  (forall k, 0 <= k < 8 -> finishing_line theirs mine k = false) ->
  let goal' := avarage_ai_cortex st goal rand_a rand_b in
  in_range goal'
  /\ game_board_cell (board st) goal' = FREE_MOVE
  /\ exists j,
       0 <= j < 8
       /\ move_print_count (Z.land theirs (match_move_print j)) = 1
       /\ Z.land mine (match_move_print j) = 0
       /\ move_print_inspec (match_move_print j) goal' = true.
Proof.
  intros Hreach Hm Hrun Hrand t mine theirs Hmine Htheirs.
  apply reachable_consistent in Hreach.
  assert (neutral_check (board st) starter = true) as Hok.
  { pose proof (check_all_boards _ neutral_check_all (board st)) as H.
    apply andb_true_iff in H.
    destruct (proj1 Hreach) as [-> | ->]; [exact (proj1 H) | exact (proj2 H)]. }
  unfold neutral_check in Hok. rewrite (canonical_of_consistent _ _ Hreach) in Hok.
  rewrite <- process_game_state_unselect in Hok.
  cbn [unselect moves turn] in Hok.
  apply (if_false_elim _ _ _ (proj2 (Z.eqb_neq _ _) Hm)) in Hok.
  apply (if_true_elim _ _ _ (proj2 (EndGame_eqb_eq _ _) Hrun)) in Hok.
  fold t in Hok. fold mine in Hok. fold theirs in Hok.
  destruct (neutral_choice_spec _ _ _ _ Hok (no_line_in _ Hmine) (no_line_in _ Htheirs))
    as (opts & Hchoice & Hlen & Hall).
  pose proof (cortex_choice_goal (board st) (turn st) goal) as Hg.
  rewrite Hchoice in Hg. intros goal'. subst goal'.
  rewrite (cortex_unfold _ _ _ _ Hm), Hg.
  destruct (Hall _ (pick_in_options opts rand_a Hlen Hrand)) as [Hfree Hline].
  apply free_cell_spec in Hfree. split; [apply Hfree|]. split; [apply Hfree|].
  unfold on_open_line in Hline. apply existsb_exists in Hline.
  destruct Hline as (j & Hj & Hline). apply upto_In in Hj.
  apply andb_true_iff in Hline. destruct Hline as [Hopen Hon].
  unfold open_line in Hopen. apply andb_true_iff in Hopen.
  rewrite !Z.eqb_eq in Hopen.
  exists j. split; [cbn in Hj; lia|]. tauto.
Qed.

Lemma neither_finish_nor_block_witness :
  game_board_cell (board (play (initial_state 0) [MOVE_INPUT]))
    (avarage_ai_cortex (play (initial_state 0) [MOVE_INPUT]) (vec2 0 0) 0 0)
  = FREE_MOVE.
Proof.
  assert (forall f : Z -> bool,
            f 0 = false -> f 1 = false -> f 2 = false -> f 3 = false ->
            f 4 = false -> f 5 = false -> f 6 = false -> f 7 = false ->
            forall k, 0 <= k < 8 -> f k = false) as Hlines.
  { intros f H0 H1 H2 H3 H4 H5 H6 H7 k Hk.
    assert (k = 0 \/ k = 1 \/ k = 2 \/ k = 3 \/ k = 4 \/ k = 5 \/ k = 6 \/ k = 7)
      as Hcases by lia.
    repeat (destruct Hcases as [-> | Hcases]; [assumption|]).
    rewrite Hcases. assumption. }
  apply (neither_finish_nor_block X_ACTOR (play (initial_state 0) [MOVE_INPUT])
           (vec2 0 0) 0 0
           ltac:(exists 0, [MOVE_INPUT]; repeat split; reflexivity || lia)
           ltac:(discriminate) ltac:(reflexivity) ltac:(lia)).
  - apply Hlines; reflexivity.
  - apply Hlines; reflexivity.
Defined.
